(** * Ontology dependency graph builder (celine/ontologies/analyze.py)

    A shallow embedding of the analyzer of [analyze.py]: namespace
    normalisation, the accumulating [OntologyAnalyzer] (statistics store,
    reference table, import table), the identifier assignment, the result
    document with its rankings, and the keyword filter applied by
    [analyze_ontologies].  The keyword filter and the directory names of
    the download command ([fetch.py]) and the extraction of the tree
    command ([tree.py]) are embedded in the modules [Fetch] and [Tree].

    Conventions of the embedding.
    - Python [str] is [string] (a sequence of bytes; code-point order is
      byte order).  Python [int] is [Z].
    - [Optional[str]] is [option string]; a truth test on such a value is
      [truthy] (neither [None] nor the empty string).
    - [dict] is [gmap], [set] is [gset]; a loop over [d.items()] is a
      [map_fold], a loop over a set a [set_fold].  The maps forget Python's
      insertion order: the order in which [edge_map.values()] lists the
      edges is therefore not the one Python would print.  The properties
      below speak of membership and of sums only.
    - [str.lower] is modelled on ASCII letters.
    - rdflib is outside the repository: a term is a [URIRef], a [Literal]
      or a [BNode]; a graph is the list of its triples in iteration order;
      [split_uri] is a parameter ([None] stands for the exception). *)

From Stdlib Require Import String Ascii ZArith List Sorting.Sorted.
From stdpp Require Import base option list sorting strings pretty gmap fin_maps fin_sets.

Local Open Scope string_scope.
Local Open Scope Z_scope.

(** ** Python string primitives *)

Module Str.

(** [c in chars] for a one-character [c]. *)
Fixpoint char_in (c : ascii) (chars : string) : bool :=
  match chars with
  | EmptyString => false
  | String d rest => if Ascii.eqb c d then true else char_in c rest
  end.

(** [s.rstrip(chars)]: drop the longest suffix made of characters of
    [chars]. *)
Fixpoint rstrip (chars : string) (s : string) : string :=
  match s with
  | EmptyString => EmptyString
  | String c rest =>
      match rstrip chars rest with
      | EmptyString => if char_in c chars then EmptyString else String c EmptyString
      | kept => String c kept
      end
  end.

(** [s.rsplit(sep, 1)[0]] for a one-character [sep]: what is before the
    last [sep]; the whole string when [sep] does not occur. *)
Fixpoint rsplit1_head (sep : ascii) (s : string) : string :=
  match s with
  | EmptyString => EmptyString
  | String c rest =>
      if char_in sep rest then String c (rsplit1_head sep rest)
      else if Ascii.eqb c sep then EmptyString
      else String c rest
  end.

(** [s.split(sep)[-1]] for a one-character [sep]: what is after the last
    [sep]; the whole string when [sep] does not occur. *)
Fixpoint last_segment (sep : ascii) (s : string) : string :=
  match s with
  | EmptyString => EmptyString
  | String c rest =>
      if char_in sep rest then last_segment sep rest
      else if Ascii.eqb c sep then rest
      else String c rest
  end.

(** [s.lower()] on ASCII letters; other bytes are kept. *)
Definition lower_ascii (c : ascii) : ascii :=
  let n := nat_of_ascii c in
  if (Nat.leb 65 n && Nat.leb n 90)%bool then ascii_of_nat (n + 32) else c.

Fixpoint lower (s : string) : string :=
  match s with
  | EmptyString => EmptyString
  | String c rest => String (lower_ascii c) (lower rest)
  end.

(** [s.replace(a, b)] for one-character [a] and [b]. *)
Fixpoint replace (a b : ascii) (s : string) : string :=
  match s with
  | EmptyString => EmptyString
  | String c rest => String (if Ascii.eqb c a then b else c) (replace a b rest)
  end.

(** [s.startswith(c)] for a one-character [c], and [s[1:]]. *)
Definition startswith (c : ascii) (s : string) : bool :=
  match s with
  | String d _ => Ascii.eqb d c
  | EmptyString => false
  end.

Definition tail (s : string) : string :=
  match s with
  | String _ rest => rest
  | EmptyString => EmptyString
  end.

(** Every character of [s] is one of [chars]. *)
Fixpoint all_in (chars : string) (s : string) : bool :=
  match s with
  | EmptyString => true
  | String c rest => char_in c chars && all_in chars rest
  end.

(** [s.replace(a, "")] for a one-character [a]. *)
Fixpoint remove (a : ascii) (s : string) : string :=
  match s with
  | EmptyString => EmptyString
  | String c rest => if Ascii.eqb c a then remove a rest else String c (remove a rest)
  end.

End Str.

(** Truth value of an [Optional[str]]. *)
Definition truthy (o : option string) : bool :=
  match o with
  | Some (String _ _) => true
  | _ => false
  end.

(** [x or None] on a string. *)
Definition or_None (s : string) : option string :=
  match s with
  | EmptyString => None
  | _ => Some s
  end.

(** ** normalize_ns *)

Definition normalize_ns (ns : option string) : option string :=
  match ns with
  | None => None
  | Some s => or_None (Str.rstrip "/#" s)
  end.

(** ** rdflib terms, triples and graphs *)

Inductive term :=
  | URIRef (uri : string)
  | Literal (lex : string)
  | BNode (label : string).

Global Instance term_eq_dec : EqDecision term.
Proof. solve_decision. Defined.

(** [isinstance(t, URIRef)] and [str(t)]. *)
Definition is_URIRef (t : term) : bool :=
  match t with
  | URIRef _ => true
  | _ => false
  end.

Definition str (t : term) : string :=
  match t with
  | URIRef s | Literal s | BNode s => s
  end.

Definition triple : Type := term * term * term.

(** A graph: its triples in iteration order and the (prefix, namespace)
    pairs of its namespace manager. *)
Record Graph := mkGraph {
  graph_triples : list triple;
  graph_prefixes : list (string * string)
}.

(** [g.subjects(p, o)] and [g.objects(s, p)]. *)
Definition subjects (g : list triple) (p o : term) : list term :=
  (λ t : triple, t.1.1) <$> filter (λ t : triple, t.1.2 = p ∧ t.2 = o) g.

Definition objects (g : list triple) (s p : term) : list term :=
  (λ t : triple, t.2) <$> filter (λ t : triple, t.1.1 = s ∧ t.1.2 = p) g.

(** The vocabulary constants of [rdflib.namespace]. *)
Definition RDF_ns := "http://www.w3.org/1999/02/22-rdf-syntax-ns#".
Definition RDFS_ns := "http://www.w3.org/2000/01/rdf-schema#".
Definition OWL_ns := "http://www.w3.org/2002/07/owl#".
Definition DC_ns := "http://purl.org/dc/elements/1.1/".
Definition DCTERMS_ns := "http://purl.org/dc/terms/".

Definition RDF_type := URIRef (RDF_ns ++ "type").
Definition RDF_Property := URIRef (RDF_ns ++ "Property").
Definition RDFS_Class := URIRef (RDFS_ns ++ "Class").
Definition RDFS_subClassOf := URIRef (RDFS_ns ++ "subClassOf").
Definition RDFS_subPropertyOf := URIRef (RDFS_ns ++ "subPropertyOf").
Definition RDFS_seeAlso := URIRef (RDFS_ns ++ "seeAlso").
Definition RDFS_label := URIRef (RDFS_ns ++ "label").
Definition RDFS_comment := URIRef (RDFS_ns ++ "comment").
Definition OWL_Class := URIRef (OWL_ns ++ "Class").
Definition OWL_Ontology := URIRef (OWL_ns ++ "Ontology").
Definition OWL_imports := URIRef (OWL_ns ++ "imports").
Definition OWL_ObjectProperty := URIRef (OWL_ns ++ "ObjectProperty").
Definition OWL_DatatypeProperty := URIRef (OWL_ns ++ "DatatypeProperty").
Definition OWL_AnnotationProperty := URIRef (OWL_ns ++ "AnnotationProperty").
Definition OWL_OntologyProperty := URIRef (OWL_ns ++ "OntologyProperty").
Definition OWL_equivalentClass := URIRef (OWL_ns ++ "equivalentClass").
Definition OWL_equivalentProperty := URIRef (OWL_ns ++ "equivalentProperty").
Definition OWL_sameAs := URIRef (OWL_ns ++ "sameAs").
Definition OWL_inverseOf := URIRef (OWL_ns ++ "inverseOf").
Definition DC_title := URIRef (DC_ns ++ "title").
Definition DC_description := URIRef (DC_ns ++ "description").
Definition DCTERMS_title := URIRef (DCTERMS_ns ++ "title").
Definition DCTERMS_description := URIRef (DCTERMS_ns ++ "description").

Definition CLASS_TYPES : list term := [OWL_Class; RDFS_Class].

Definition PROPERTY_TYPES : list term :=
  [RDF_Property; OWL_ObjectProperty; OWL_DatatypeProperty;
   OWL_AnnotationProperty; OWL_OntologyProperty].

Definition DEP_PREDICATES : list term :=
  [RDFS_subClassOf; RDFS_subPropertyOf; OWL_equivalentClass;
   OWL_equivalentProperty; OWL_sameAs; OWL_inverseOf; RDFS_seeAlso].

(** ** Data structures *)

Module OntologyStats.

Record t := mk {
  namespace : string;
  files : gset string;
  triples : Z;
  classes : Z;
  properties : Z;
  individuals : Z;
  imports : gset string;
  label : option string;
  description : option string
}.

(** [OntologyStats(namespace=ns)] *)
Definition init (ns : string) : t := mk ns ∅ 0 0 0 0 ∅ None None.

(** [stats.files.add(f)] *)
Definition add_file (f : string) (s : t) : t :=
  mk (namespace s) ({[f]} ∪ files s) (triples s) (classes s) (properties s)
     (individuals s) (imports s) (label s) (description s).

(** [stats.triples += 1] and the three classification counters *)
Definition incr_triples (s : t) : t :=
  mk (namespace s) (files s) (triples s + 1) (classes s) (properties s)
     (individuals s) (imports s) (label s) (description s).

Definition incr_classes (s : t) : t :=
  mk (namespace s) (files s) (triples s) (classes s + 1) (properties s)
     (individuals s) (imports s) (label s) (description s).

Definition incr_properties (s : t) : t :=
  mk (namespace s) (files s) (triples s) (classes s) (properties s + 1)
     (individuals s) (imports s) (label s) (description s).

Definition incr_individuals (s : t) : t :=
  mk (namespace s) (files s) (triples s) (classes s) (properties s)
     (individuals s + 1) (imports s) (label s) (description s).

Definition set_label (l : string) (s : t) : t :=
  mk (namespace s) (files s) (triples s) (classes s) (properties s)
     (individuals s) (imports s) (Some l) (description s).

Definition set_description (d : string) (s : t) : t :=
  mk (namespace s) (files s) (triples s) (classes s) (properties s)
     (individuals s) (imports s) (label s) (Some d).

End OntologyStats.

(** The accumulator of [OntologyAnalyzer]: statistics store, reference
    table and import table. *)
Record OntologyAnalyzer := mkAnalyzer {
  namespaces : gmap string OntologyStats.t;
  references : gmap string (gmap string Z);
  imports : gmap string (gset string)
}.

(** [OntologyAnalyzer.__init__] *)
Definition new_analyzer : OntologyAnalyzer := mkAnalyzer ∅ ∅ ∅.

(** In-place update of the statistics object stored under [ns]. *)
Definition update_stats (f : OntologyStats.t → OntologyStats.t) (ns : string)
    (a : OntologyAnalyzer) : OntologyAnalyzer :=
  mkAnalyzer (alter f ns (namespaces a)) (references a) (imports a).

Module Node.
Record t := mk {
  id : string;
  namespace : string;
  label : string;
  description : option string;
  triples : Z;
  classes : Z;
  properties : Z;
  individuals : Z;
  files : list string;
  imports : list string;
  incoming_references : Z;
  outgoing_references : Z
}.
End Node.

Module Edge.
Record t := mk {
  source : string;
  target : string;
  reference_count : Z;
  import : bool
}.

(** [edge["reference_count"] += c] and [edge["import"] = True] *)
Definition add_count (c : Z) (e : t) : t :=
  mk (source e) (target e) (reference_count e + c) (import e).

Definition set_import (e : t) : t :=
  mk (source e) (target e) (reference_count e) true.
End Edge.

(** An entry of a ranking list; [total] is written under the key
    [incoming_references] in [most_referenced] and under
    [outgoing_references] in [largest_consumers]. *)
Module Ranked.
Record t := mk {
  id : string;
  namespace : string;
  label : string;
  total : Z
}.
End Ranked.

(** The result document: [ontologies], [graph.nodes], [graph.edges] and the
    two lists under [ranking]. *)
Record ResultDoc := mkDoc {
  ontologies : list Node.t;
  graph_nodes : list Node.t;
  graph_edges : list Edge.t;
  most_referenced : list Ranked.t;
  largest_consumers : list Ranked.t
}.

(** ** Sorting *)

(** [sorted(xs)] on strings. *)
Definition sorted_strings (l : list string) : list string :=
  merge_sort String.le l.

(** Order of [sorted(d.items())] on a dictionary with string keys: the keys
    are distinct, so the comparison of two items is decided by the keys. *)
Definition item_le {V} (x y : string * V) : Prop := String.le x.1 y.1.

Global Instance item_le_dec {V} : RelDecision (@item_le V).
Proof. intros x y. unfold item_le. apply _. Defined.

Definition sorted_items {V} (m : gmap string V) : list (string * V) :=
  merge_sort item_le (map_to_list m).

(** [sorted(l, key=key, reverse=True)]: decreasing keys, elements of equal
    key in their original order. *)
Fixpoint insert_desc {A} (key : A → Z) (x : A) (l : list A) : list A :=
  match l with
  | [] => [x]
  | y :: rest =>
      if bool_decide (key x < key y) then y :: insert_desc key x rest
      else x :: y :: rest
  end.

Definition sorted_desc {A} (key : A → Z) (l : list A) : list A :=
  foldr (insert_desc key) [] l.

(** [sum(d.values())] *)
Definition sum_values (m : gmap string Z) : Z :=
  map_fold (λ _ c acc, c + acc) 0 m.

(** ** OntologyAnalyzer *)

Section Analyzer.

(** [rdflib.namespace.split_uri]; [None] when it raises. *)
Variable split_uri : string → option (string * string).

Definition _ensure_ns (a : OntologyAnalyzer) (raw_ns : option string)
    : OntologyAnalyzer * string :=
  let raw_ns := match raw_ns with None => Some "unknown" | _ => raw_ns end in
  let ns := match normalize_ns raw_ns with
            | Some (String c r) => String c r
            | _ => "unknown"
            end in
  if decide (ns ∈ dom (namespaces a)) then (a, ns)
  else (mkAnalyzer (<[ns := OntologyStats.init ns]> (namespaces a))
                   (references a) (imports a), ns).

Definition _get_namespace (node : term) : option string :=
  match node with
  | URIRef uri_str =>
      match split_uri uri_str with
      | Some (ns, _) => normalize_ns (Some ns)
      | None =>
          if Str.char_in "#" uri_str
          then normalize_ns (Some (Str.rsplit1_head "#" uri_str))
          else if Str.char_in "/" uri_str
          then normalize_ns (Some (Str.rsplit1_head "/" uri_str))
          else None
      end
  | _ => None
  end.

Definition _register_reference (a : OntologyAnalyzer)
    (raw_src raw_dst : option string) (weight : Z) : OntologyAnalyzer :=
  let src := normalize_ns raw_src in
  let dst := normalize_ns raw_dst in
  if negb (truthy src) || negb (truthy dst) || bool_decide (src = dst) then a
  else
    match src, dst with
    | Some src, Some dst =>
        let targets := default ∅ (references a !! src) in
        mkAnalyzer (namespaces a)
          (<[src := <[dst := default 0 (targets !! dst) + weight]> targets]>
             (references a))
          (imports a)
    | _, _ => a
    end.

Definition _register_import (a : OntologyAnalyzer)
    (raw_src raw_dst : option string) : OntologyAnalyzer :=
  let src := normalize_ns raw_src in
  let dst := normalize_ns raw_dst in
  if negb (truthy src) || negb (truthy dst) || bool_decide (src = dst) then a
  else
    match src, dst with
    | Some s, Some d =>
        let a' := mkAnalyzer (namespaces a) (references a)
                    (<[s := {[d]} ∪ default ∅ (imports a !! s)]> (imports a)) in
        _register_reference a' src dst 1
    | _, _ => a
    end.

Definition _process_dependencies_for_triple (a : OntologyAnalyzer)
    (s p o : term) : OntologyAnalyzer :=
  let s_ns := if is_URIRef s then _get_namespace s else None in
  let p_ns := if is_URIRef p then _get_namespace p else None in
  let o_ns := if is_URIRef o then _get_namespace o else None in
  (* Subject uses foreign property *)
  let a := if truthy s_ns && truthy p_ns && negb (bool_decide (s_ns = p_ns))
           then _register_reference a s_ns p_ns 1 else a in
  (* rdf:type *)
  let a := if bool_decide (p = RDF_type) && truthy s_ns && truthy o_ns
              && negb (bool_decide (s_ns = o_ns))
           then _register_reference a s_ns o_ns 1 else a in
  (* subclass, equivalent, sameAs etc. *)
  if bool_decide (p ∈ DEP_PREDICATES) && truthy s_ns && truthy o_ns
     && negb (bool_decide (s_ns = o_ns))
  then _register_reference a s_ns o_ns 1 else a.

(** The loop over the triples of [process_rdf_graph], in its three parts:
    the triple count of the subject's namespace ... *)
Definition count_subject (file_str : string) (a : OntologyAnalyzer) (s : term)
    : OntologyAnalyzer :=
  if is_URIRef s then
    let s_ns := _get_namespace s in
    if truthy s_ns then
      let '(a, k) := _ensure_ns a s_ns in
      update_stats (λ st, OntologyStats.incr_triples (OntologyStats.add_file file_str st)) k a
    else a
  else a.

(** ... the classification ... *)
Definition classify_subject (a : OntologyAnalyzer) (s p o : term) : OntologyAnalyzer :=
  if bool_decide (p = RDF_type) && is_URIRef s && is_URIRef o then
    let s_ns := _get_namespace s in
    if truthy s_ns then
      let '(a, k) := _ensure_ns a s_ns in
      if bool_decide (o ∈ CLASS_TYPES)
      then update_stats OntologyStats.incr_classes k a
      else if bool_decide (o ∈ PROPERTY_TYPES)
      then update_stats OntologyStats.incr_properties k a
      else update_stats OntologyStats.incr_individuals k a
    else a
  else a.

(** ... and the cross-namespace references. *)
Definition process_triple (file_str : string) (a : OntologyAnalyzer)
    (t : triple) : OntologyAnalyzer :=
  let '(s, p, o) := t in
  let a := count_subject file_str a s in
  let a := classify_subject a s p o in
  _process_dependencies_for_triple a s p o.

(** The body of the loop over [g.objects(onto, OWL.imports)]. *)
Definition process_import (onto_ns : option string) (a : OntologyAnalyzer)
    (imported : term) : OntologyAnalyzer :=
  if is_URIRef imported then
    let imp_ns := _get_namespace imported in
    let '(a, _) := _ensure_ns a imp_ns in
    _register_import a onto_ns imp_ns
  else a.

(** The body of the loop over [g.subjects(RDF.type, OWL.Ontology)]. *)
Definition process_ontology (file_str : string) (g : list triple)
    (a : OntologyAnalyzer) (onto : term) : OntologyAnalyzer :=
  if negb (is_URIRef onto) then a
  else
    let onto_ns := _get_namespace onto in
    let '(a, k) := _ensure_ns a onto_ns in
    let a := update_stats (OntologyStats.add_file file_str) k a in
    foldl (process_import onto_ns) a (objects g onto OWL_imports).

Definition process_rdf_graph (a : OntologyAnalyzer) (file_path : string)
    (g : list triple) : OntologyAnalyzer :=
  let file_str := file_path in
  let a := foldl (process_triple file_str) a g in
  foldl (process_ontology file_str g) a (subjects g RDF_type OWL_Ontology).

End Analyzer.

(** ** XSD processing *)

(** What [ET.parse] gives for a schema file, as far as [process_xsd] reads
    it: the [targetNamespace] attribute of the root and the [namespace]
    attribute of every [xs:import] element, in document order. *)
Record XsdRoot := mkXsd {
  targetNamespace : option string;
  import_namespaces : list (option string)
}.

(** [file_path.name] *)
Definition path_name (file_path : string) : string :=
  Str.last_segment "/" file_path.

(** [normalize_ns(tns) or f"file://{file_path.name}"] *)
Definition xsd_source (file_path : string) (root : XsdRoot) : string :=
  match normalize_ns (targetNamespace root) with
  | Some (String c r) => String c r
  | _ => "file://" ++ path_name file_path
  end.

(** The body of the loop over the [xs:import] elements. *)
Definition process_xsd_import (tns : string) (a : OntologyAnalyzer)
    (ns : option string) : OntologyAnalyzer :=
  let ns := normalize_ns ns in
  if truthy ns then
    let '(a, _) := _ensure_ns a ns in
    _register_import a (Some tns) ns
  else a.

Section Xsd.

Variable split_uri : string → option (string * string).

(** [parsed] is [None] when [ET.parse] raises. *)
Definition process_xsd (a : OntologyAnalyzer) (file_path : string)
    (parsed : option XsdRoot) : OntologyAnalyzer :=
  match parsed with
  | None => a
  | Some root =>
      let tns := xsd_source file_path root in
      let '(a, k) := _ensure_ns a (Some tns) in
      let a := update_stats (OntologyStats.add_file file_path) k a in
      foldl (process_xsd_import tns) a (import_namespaces root)
  end.

(** ** Descriptions *)

(** [list(a) or list(b) or list(c)] *)
Definition first_nonempty {A} (a b c : list A) : list A :=
  match a with
  | _ :: _ => a
  | [] => match b with
          | _ :: _ => b
          | [] => c
          end
  end.

Definition attach_description (merged : list triple) (a : OntologyAnalyzer)
    (onto : term) : OntologyAnalyzer :=
  if negb (is_URIRef onto) then a
  else
    let ns := _get_namespace split_uri onto in
    let '(a, k) := _ensure_ns a ns in
    let labels := first_nonempty (objects merged onto RDFS_label)
                    (objects merged onto DCTERMS_title)
                    (objects merged onto DC_title) in
    let a := match labels with
             | l0 :: _ =>
                 update_stats (λ st, if truthy (OntologyStats.label st) then st
                                     else OntologyStats.set_label (str l0) st) k a
             | [] => a
             end in
    let descs := first_nonempty (objects merged onto DCTERMS_description)
                   (objects merged onto RDFS_comment)
                   (objects merged onto DC_description) in
    match descs with
    | d0 :: _ =>
        update_stats (λ st, if truthy (OntologyStats.description st) then st
                            else OntologyStats.set_description (str d0) st) k a
    | [] => a
    end.

Definition attach_descriptions_from_graph (a : OntologyAnalyzer)
    (merged_graph : Graph) : OntologyAnalyzer :=
  foldl (attach_description (graph_triples merged_graph)) a
        (subjects (graph_triples merged_graph) RDF_type OWL_Ontology).

End Xsd.

(** ** Finalization / export *)

(** [f"ns{fallback_index}"] *)
Definition ns_name (fallback_index : Z) : string := "ns" ++ pretty fallback_index.

Definition _make_short_id (ns : string) (fallback_index : Z) : string :=
  let s := Str.rstrip "/#" ns in
  match s with
  | EmptyString => ns_name fallback_index
  | _ =>
      let last := Str.last_segment "#" (Str.last_segment "/" s) in
      match Str.replace "." "_" (Str.replace "-" "_" (Str.lower last)) with
      | EmptyString => ns_name fallback_index
      | short => short
      end
  end.

(** Step 1 of [_build_id_map]: one declared (prefix, namespace) pair. *)
Definition use_prefix (a : OntologyAnalyzer) (id_map : gmap string string)
    (binding : string * string) : gmap string string :=
  let '(prefix, ns) := binding in
  match normalize_ns (Some ns) with
  | Some ns_str =>
      if truthy (Some ns_str) && bool_decide (ns_str ∈ dom (namespaces a))
         && negb (bool_decide (ns_str ∈ dom id_map))
      then <[ns_str := prefix]> id_map
      else id_map
  | None => id_map
  end.

(** Step 2 of [_build_id_map]: one namespace of [ns_list]; the state is the
    map and the counter. *)
Definition fallback_id (st : gmap string string * Z) (ns : string)
    : gmap string string * Z :=
  let '(id_map, counter) := st in
  if bool_decide (ns ∈ dom id_map) then (id_map, counter)
  else (<[ns := _make_short_id ns counter]> id_map, counter + 1).

Definition _build_id_map (a : OntologyAnalyzer) (merged_graph : Graph)
    : gmap string string :=
  let ns_list := sorted_strings (elements (dom (namespaces a))) in
  (* 1) Use RDF prefixes *)
  let id_map := foldl (use_prefix a) ∅ (graph_prefixes merged_graph) in
  (* 2) Fallback for remaining *)
  (foldl fallback_id (id_map, 1) ns_list).1.

(** [incoming]: one zero per namespace, then every reference weight added to
    its destination when the destination is a key. *)
Definition add_incoming (dst : string) (count : Z) (incoming : gmap string Z)
    : gmap string Z :=
  match incoming !! dst with
  | Some n => <[dst := n + count]> incoming
  | None => incoming
  end.

Definition incoming_of (a : OntologyAnalyzer) : gmap string Z :=
  map_fold (λ _ targets incoming, map_fold add_incoming incoming targets)
           ((λ _, 0) <$> namespaces a) (references a).

(** [outgoing] *)
Definition outgoing_of (a : OntologyAnalyzer) : gmap string Z :=
  map_imap (λ ns _, Some (sum_values (default ∅ (references a !! ns))))
           (namespaces a).

Definition make_node (a : OntologyAnalyzer) (id_map : gmap string string)
    (incoming outgoing : gmap string Z) (item : string * OntologyStats.t) : Node.t :=
  let '(ns, stats) := item in
  let node_id := id_map !!! ns in
  Node.mk node_id ns
    (if truthy (OntologyStats.label stats)
     then default "" (OntologyStats.label stats) else node_id)
    (OntologyStats.description stats)
    (OntologyStats.triples stats)
    (OntologyStats.classes stats)
    (OntologyStats.properties stats)
    (OntologyStats.individuals stats)
    (sorted_strings (elements (OntologyStats.files stats)))
    (sorted_strings (elements (default ∅ (imports a !! ns))))
    (default 0 (incoming !! ns))
    (default 0 (outgoing !! ns)).

(** [edge_map.setdefault(key, {source, target, 0, False})] followed by an
    update [f] of the entry. *)
Definition upd_edge (f : Edge.t → Edge.t) (src_id dst_id : string)
    (edge_map : gmap (string * string) Edge.t) : gmap (string * string) Edge.t :=
  let edge := default (Edge.mk src_id dst_id 0 false) (edge_map !! (src_id, dst_id)) in
  <[(src_id, dst_id) := f edge]> edge_map.

Definition add_reference_edges (id_map : gmap string string)
    (refs : gmap string (gmap string Z))
    (edge_map : gmap (string * string) Edge.t) : gmap (string * string) Edge.t :=
  map_fold (λ src_ns targets edge_map,
      let src_id := id_map !! src_ns in
      if negb (truthy src_id) then edge_map
      else
        map_fold (λ dst_ns ref_count edge_map,
            let dst_id := id_map !! dst_ns in
            if negb (truthy dst_id) then edge_map
            else upd_edge (Edge.add_count ref_count)
                   (default "" src_id) (default "" dst_id) edge_map)
          edge_map targets)
    edge_map refs.

Definition add_import_edges (id_map : gmap string string)
    (imps : gmap string (gset string))
    (edge_map : gmap (string * string) Edge.t) : gmap (string * string) Edge.t :=
  map_fold (λ src_ns dst_set edge_map,
      let src_id := id_map !! src_ns in
      if negb (truthy src_id) then edge_map
      else
        set_fold (λ dst_ns edge_map,
            let dst_id := id_map !! dst_ns in
            if negb (truthy dst_id) then edge_map
            else upd_edge Edge.set_import
                   (default "" src_id) (default "" dst_id) edge_map)
          edge_map dst_set)
    edge_map imps.

Definition rank_incoming (n : Node.t) : Ranked.t :=
  Ranked.mk (Node.id n) (Node.namespace n) (Node.label n) (Node.incoming_references n).

Definition rank_outgoing (n : Node.t) : Ranked.t :=
  Ranked.mk (Node.id n) (Node.namespace n) (Node.label n) (Node.outgoing_references n).

Section Finalization.

Variable split_uri : string → option (string * string).

(** The analyzer as [build_result_document] leaves it, and the document
    it returns. *)
Definition build_result_document (a : OntologyAnalyzer) (merged_graph : Graph)
    : OntologyAnalyzer * ResultDoc :=
  let a := attach_descriptions_from_graph split_uri a merged_graph in
  let id_map := _build_id_map a merged_graph in
  let incoming := incoming_of a in
  let outgoing := outgoing_of a in
  (* Nodes *)
  let nodes := make_node a id_map incoming outgoing <$> sorted_items (namespaces a) in
  (* Edges *)
  let edge_map := add_reference_edges id_map (references a) ∅ in
  let edge_map := add_import_edges id_map (imports a) edge_map in
  let edges := (map_to_list edge_map).*2 in
  (* Rankings *)
  let most := sorted_desc Node.incoming_references nodes in
  let largest := sorted_desc Node.outgoing_references nodes in
  (a, mkDoc nodes nodes edges (rank_incoming <$> most) (rank_outgoing <$> largest)).

End Finalization.

(** ** Keyword filter *)

(** A [metadata.yaml] record, as far as it is read: its keys, each with a
    list of strings. *)
Definition metadata : Type := gmap string (list string).

(** [set(metadata.get("keywords") or [])] *)
Definition keywords_of (meta : metadata) : gset string :=
  list_to_set (default [] (meta !! "keywords")).

(** The loop of [matches_keywords] over the patterns; the state is
    [(includes, excludes, star)]. *)
Definition classify_pattern (st : list string * list string * bool) (p : string)
    : list string * list string * bool :=
  let '(includes, excludes, star) := st in
  if bool_decide (p = "*") then (includes, excludes, true)
  else if Str.startswith "+" p then ((includes ++ [Str.tail p])%list, excludes, star)
  else if Str.startswith "-" p then (includes, (excludes ++ [Str.tail p])%list, star)
  else ((includes ++ [p])%list, excludes, star).

Definition matches_keywords (meta : metadata) (patterns : list string) : bool :=
  match patterns with
  | [] => true
  | _ =>
      let kws := keywords_of meta in
      let '(includes, excludes, star) := foldl classify_pattern ([], [], false) patterns in
      if star then negb (existsb (λ e, bool_decide (e ∈ kws)) excludes)
      else forallb (λ i, bool_decide (i ∈ kws)) includes
           && negb (existsb (λ e, bool_decide (e ∈ excludes)) (elements kws))
  end.

(** ** The command *)

(** What the file system and the parsers give for one candidate file: its
    path, the [metadata.yaml] next to it, and either the schema ([ET.parse])
    when [_looks_like_xsd] holds, or the graph ([_load_rdf_file]). *)
Inductive FileContent :=
  | XsdFile (parsed : option XsdRoot)
  | RdfFile (parsed : option (list triple)).

Record InputFile := mkFile {
  file_path : string;
  file_meta : option metadata;
  file_content : FileContent
}.

(** [merged_graph += g] *)
Definition merge_triples (merged g : list triple) : list triple :=
  (merged ++ filter (λ t, t ∉ merged) (remove_dups g))%list.

(** The keyword filtering of [analyze_ontologies]. *)
Definition keyword_filter (metadata_by_ns : gmap string metadata)
    (keywords : list string) (doc : ResultDoc) : ResultDoc :=
  match keywords with
  | [] => doc
  | _ =>
      let ok (n : Node.t) : bool :=
        matches_keywords (default ∅ (metadata_by_ns !! Node.namespace n)) keywords in
      let filtered_nodes := List.filter ok (graph_nodes doc) in
      let keep_ids : gset string := list_to_set (Node.id <$> filtered_nodes) in
      let filtered_edges :=
        List.filter (λ e, bool_decide (Edge.source e ∈ keep_ids)
                          && bool_decide (Edge.target e ∈ keep_ids))
                    (graph_edges doc) in
      mkDoc filtered_nodes filtered_nodes filtered_edges
            (most_referenced doc) (largest_consumers doc)
  end.

(** Map metadata.yaml to namespaces: the first file of the namespace that
    has a record. *)
Definition metadata_for (metadata_by_file : gmap string metadata)
    (stats : OntologyStats.t) : option metadata :=
  list_find (λ f, is_Some (metadata_by_file !! f))
            (elements (OntologyStats.files stats))
  ≫= λ '(_, f), metadata_by_file !! f.

Section Command.

Variable split_uri : string → option (string * string).

(** The body of the loop over the files; the state is
    [(merged triples, analyzer, metadata_by_file)]. *)
Definition process_file
    (st : list triple * OntologyAnalyzer * gmap string metadata) (f : InputFile)
    : list triple * OntologyAnalyzer * gmap string metadata :=
  let '(merged, a, metadata_by_file) := st in
  let metadata_by_file :=
    match file_meta f with
    | Some meta => if bool_decide (meta = ∅) then metadata_by_file
                   else <[file_path f := meta]> metadata_by_file
    | None => metadata_by_file
    end in
  match file_content f with
  | XsdFile parsed => (merged, process_xsd a (file_path f) parsed, metadata_by_file)
  | RdfFile None => (merged, a, metadata_by_file)
  | RdfFile (Some g) =>
      let merged := merge_triples merged g in
      match g with
      | [] => (merged, a, metadata_by_file)
      | _ => (merged, process_rdf_graph split_uri a (file_path f) g, metadata_by_file)
      end
  end.

(** The analyzer after all files are processed. *)
Definition run_files (files : list InputFile)
    : list triple * OntologyAnalyzer * gmap string metadata :=
  foldl process_file ([], new_analyzer, ∅) files.

(** [analyze_ontologies], up to the document handed to [write_yaml_file];
    [None] is [typer.Exit(1)].  [prefixes] is what the namespace manager
    of the merged graph lists. *)
Definition analyze_ontologies (files : list InputFile)
    (prefixes : list (string * string)) (keywords : list string)
    : option ResultDoc :=
  match files with
  | [] => None
  | _ =>
      let '(merged, a, metadata_by_file) := run_files files in
      let metadata_by_ns := omap (metadata_for metadata_by_file) (namespaces a) in
      let '(_, result_doc) := build_result_document split_uri a (mkGraph merged prefixes) in
      Some (keyword_filter metadata_by_ns keywords result_doc)
  end.

End Command.

(** A [split_uri] for examples: the split after the last ['#'] or ['/'],
    an exception when there is none or when nothing follows it.  On the
    URIs used below it returns what rdflib returns. *)
Definition sample_split_uri (uri : string) : option (string * string) :=
  let sep := if Str.char_in "#" uri then "#"%char else "/"%char in
  if Str.char_in sep uri then
    match Str.last_segment sep uri with
    | EmptyString => None
    | local => Some (String.app (Str.rsplit1_head sep uri) (String sep EmptyString), local)
    end
  else None.

(** ** Quantities and predicates of the statements *)

(** Sum of [f k v] over the entries of a dictionary. *)
Definition msum `{Countable K} {V} (f : K → V → Z) (m : gmap K V) : Z :=
  map_fold (λ k v acc, f k v + acc) 0 m.

(** Sum of the weights of the reference table over the (source,
    destination) pairs selected by [P]. *)
Definition weight_sum (P : string → string → bool)
    (refs : gmap string (gmap string Z)) : Z :=
  msum (λ src targets, msum (λ dst c, if P src dst then c else 0) targets) refs.

(** Sum of [reference_count] over the edges selected by [P]. *)
Definition edge_total (P : Edge.t → bool) (edges : list Edge.t) : Z :=
  foldr (λ e acc, (if P e then Edge.reference_count e else 0) + acc) 0 edges.

(** Number of pairs of a list selected by [P]. *)
Definition count_pairs (P : string → string → bool) (l : list (string * string)) : Z :=
  foldr (λ sd acc, (if P sd.1 sd.2 then 1 else 0) + acc) 0 l.

(** A namespace has a usable identifier: [id_map.get(ns)] is truthy. *)
Definition has_id (id_map : gmap string string) (ns : string) : bool :=
  truthy (id_map !! ns).

(** Calls of the two registration methods. *)
Inductive RegisterCall :=
  | RegisterReference (raw_src raw_dst : option string) (weight : Z)
  | RegisterImport (raw_src raw_dst : option string).

Definition apply_call (a : OntologyAnalyzer) (c : RegisterCall) : OntologyAnalyzer :=
  match c with
  | RegisterReference raw_src raw_dst weight => _register_reference a raw_src raw_dst weight
  | RegisterImport raw_src raw_dst => _register_import a raw_src raw_dst
  end.

(** No entry from a namespace to itself, in either table. *)
Definition no_self_loops (a : OntologyAnalyzer) : Prop :=
  (∀ s targets, references a !! s = Some targets → targets !! s = None) ∧
  (∀ s dsts, imports a !! s = Some dsts → s ∉ dsts).

(** The namespaces that occur in the two tables. *)
Definition in_reference_table (a : OntologyAnalyzer) (ns : string) : Prop :=
  ns ∈ dom (references a) ∨
  ∃ s targets, references a !! s = Some targets ∧ ns ∈ dom targets.

Definition in_import_table (a : OntologyAnalyzer) (ns : string) : Prop :=
  ns ∈ dom (imports a) ∨
  ∃ s dsts, imports a !! s = Some dsts ∧ ns ∈ dsts.

(** What a run maintains: the sources of the reference table and both ends
    of the import table have a statistics entry; weights are positive;
    every import is also a reference. *)
Record run_inv (a : OntologyAnalyzer) : Prop := mkRunInv {
  inv_ref_src : dom (references a) ⊆ dom (namespaces a);
  inv_imp_src : dom (imports a) ⊆ dom (namespaces a);
  inv_imp_dst : ∀ s dsts, imports a !! s = Some dsts → dsts ⊆ dom (namespaces a);
  inv_weight : ∀ s targets d c,
      references a !! s = Some targets → targets !! d = Some c → 1 ≤ c;
  inv_imp_ref : ∀ s dsts d,
      imports a !! s = Some dsts → d ∈ dsts →
      ∃ targets c, references a !! s = Some targets ∧ targets !! d = Some c
}.

(** The registrations a corpus causes, as (source, destination) pairs, read
    off the input alone. *)
Section Events.

Variable split_uri : string → option (string * string).

(** Both namespaces resolved and different. *)
Definition cross (src dst : option string) : list (string * string) :=
  match src, dst with
  | Some s, Some d => if bool_decide (s = d) then [] else [(s, d)]
  | _, _ => []
  end.

(** The three detection rules on one triple. *)
Definition rule_foreign_predicate (t : triple) : list (string * string) :=
  cross (_get_namespace split_uri t.1.1) (_get_namespace split_uri t.1.2).

Definition rule_foreign_type (t : triple) : list (string * string) :=
  if bool_decide (t.1.2 = RDF_type)
  then cross (_get_namespace split_uri t.1.1) (_get_namespace split_uri t.2)
  else [].

Definition rule_dependency (t : triple) : list (string * string) :=
  if bool_decide (t.1.2 ∈ DEP_PREDICATES)
  then cross (_get_namespace split_uri t.1.1) (_get_namespace split_uri t.2)
  else [].

Definition fired_rules (t : triple) : list (string * string) :=
  (rule_foreign_predicate t ++ rule_foreign_type t ++ rule_dependency t)%list.

(** The [owl:imports] declarations of the declared ontologies of a graph. *)
Definition import_decls (g : list triple) (onto : term) : list (string * string) :=
  if is_URIRef onto then
    imported ← objects g onto OWL_imports;
    if is_URIRef imported
    then cross (_get_namespace split_uri onto) (_get_namespace split_uri imported)
    else []
  else [].

Definition graph_imports (g : list triple) : list (string * string) :=
  subjects g RDF_type OWL_Ontology ≫= import_decls g.

(** The [xs:import] declarations of a schema. *)
Definition xsd_imports (file_path : string) (root : XsdRoot) : list (string * string) :=
  ns ← import_namespaces root;
  cross (normalize_ns (Some (xsd_source file_path root))) (normalize_ns ns).

Definition file_rules (f : InputFile) : list (string * string) :=
  match file_content f with
  | RdfFile (Some g) => g ≫= fired_rules
  | _ => []
  end.

Definition file_imports (f : InputFile) : list (string * string) :=
  match file_content f with
  | RdfFile (Some g) => graph_imports g
  | XsdFile (Some root) => xsd_imports (file_path f) root
  | _ => []
  end.

(** All (triple, rule) pairs that fired, and all import declarations that
    were registered, over the corpus. *)
Definition corpus_rules (files : list InputFile) : list (string * string) :=
  files ≫= file_rules.

Definition corpus_imports (files : list InputFile) : list (string * string) :=
  files ≫= file_imports.

End Events.

(** The table updates behind the two registration methods, for a resolved
    pair. *)
Definition add_ref (s d : string) (w : Z) (a : OntologyAnalyzer) : OntologyAnalyzer :=
  let targets := default ∅ (references a !! s) in
  mkAnalyzer (namespaces a)
    (<[s := <[d := default 0 (targets !! d) + w]> targets]> (references a))
    (imports a).

Definition add_imp (s d : string) (a : OntologyAnalyzer) : OntologyAnalyzer :=
  mkAnalyzer (namespaces a) (references a)
    (<[s := {[d]} ∪ default ∅ (imports a !! s)]> (imports a)).

(** The identifier derived from the last path/fragment segment, before any
    fallback; empty when there is nothing to derive from. *)
Definition derive_short_id (ns : string) : string :=
  Str.replace "." "_" (Str.replace "-" "_"
    (Str.lower (Str.last_segment "#" (Str.last_segment "/" (Str.rstrip "/#" ns))))).

(** The identifiers taken from declared prefixes (step 1 of
    [_build_id_map]) and the namespaces left to step 2, in the order in
    which step 2 visits them. *)
Definition declared_ids (a : OntologyAnalyzer) (merged_graph : Graph) : gmap string string :=
  foldl (use_prefix a) ∅ (graph_prefixes merged_graph).

Definition undeclared (a : OntologyAnalyzer) (merged_graph : Graph) : list string :=
  filter (λ ns, ns ∉ dom (declared_ids a merged_graph))
         (sorted_strings (elements (dom (namespaces a)))).

(** C4 as stated: total and collision-free. *)
Definition id_map_total (a : OntologyAnalyzer) (id_map : gmap string string) : Prop :=
  ∀ ns, ns ∈ dom (namespaces a) → is_Some (id_map !! ns).

Definition id_map_collision_free (a : OntologyAnalyzer) (id_map : gmap string string) : Prop :=
  ∀ n1 n2, n1 ∈ dom (namespaces a) → n2 ∈ dom (namespaces a) → n1 ≠ n2 →
           id_map !! n1 ≠ id_map !! n2.

(** C5 as stated: the k-th namespace, in sorted order, whose derivation is
    empty and which has no declared prefix, receives [ns<k>]. *)
Definition fallback_numbered_by_rank (a : OntologyAnalyzer) (merged_graph : Graph) : Prop :=
  ∀ (k : nat) ns,
    filter (λ ns, derive_short_id ns = "") (undeclared a merged_graph) !! k = Some ns →
    _build_id_map a merged_graph !! ns = Some (ns_name (Z.of_nat k + 1)).

(** Every entry of the edge map carries its key. *)
Definition edge_map_wf (em : gmap (string * string) Edge.t) : Prop :=
  ∀ k e, em !! k = Some e → (Edge.source e, Edge.target e) = k.

(** Sum of [reference_count] over the entries of the edge map whose key is
    selected by [f]. *)
Definition key_total (f : string → string → bool)
    (em : gmap (string * string) Edge.t) : Z :=
  msum (λ k e, if f k.1 k.2 then Edge.reference_count e else 0) em.

(** The entry under a key has its [import] flag set. *)
Definition flagged (em : gmap (string * string) Edge.t) (k : string * string) : Prop :=
  ∃ e, em !! k = Some e ∧ Edge.import e = true.

(** [id_map.get(ns)] where it is known to be usable, and the pairs of
    namespaces that both have a usable identifier. *)
Definition id_of (id_map : gmap string string) (ns : string) : string :=
  default "" (id_map !! ns).

Definition linked (id_map : gmap string string) (s d : string) : bool :=
  has_id id_map s && has_id id_map d.


(** Every key of the statistics store is a normalized namespace: not
    empty, and without a trailing ['/'] or ['#']. *)
Definition keys_normal (a : OntologyAnalyzer) : Prop :=
  ∀ k, k ∈ dom (namespaces a) → k ≠ "" ∧ Str.rstrip "/#" k = k.

(** A step that leaves both tables alone and keeps every statistics
    entry. *)
Record same_tables (a a' : OntologyAnalyzer) : Prop := mkSameTables {
  st_refs : references a' = references a;
  st_imps : imports a' = imports a;
  st_dom : dom (namespaces a) ⊆ dom (namespaces a');
  st_keys : keys_normal a → keys_normal a'
}.

(** A step of the run that registers the pairs [rules] as references and
    the pairs [imps] as imports. *)
Record advances (a a' : OntologyAnalyzer) (rules imps : list (string * string)) : Prop :=
  mkAdvances {
    adv_inv : run_inv a → run_inv a';
    adv_keys : keys_normal a → keys_normal a';
    adv_dom : dom (namespaces a) ⊆ dom (namespaces a');
    adv_weight : ∀ P, weight_sum P (references a')
                      = weight_sum P (references a) + count_pairs P rules + count_pairs P imps
  }.

(** The analyzer after all files are processed. *)
Definition final_analyzer (split_uri : string → option (string * string))
    (files : list InputFile) : OntologyAnalyzer :=
  (run_files split_uri files).1.2.

(** The edge map of [build_result_document] before it is listed. *)
Definition final_edge_map (a : OntologyAnalyzer) (id_map : gmap string string)
    : gmap (string * string) Edge.t :=
  add_import_edges id_map (imports a) (add_reference_edges id_map (references a) ∅).

(** C1 as stated: every namespace of the statistics store and of the two
    tables is the namespace of exactly one node. *)
Definition nodes_cover_tables (a0 : OntologyAnalyzer) (doc : ResultDoc) : Prop :=
  NoDup (Node.namespace <$> graph_nodes doc) ∧
  ∀ ns, ns ∈ dom (namespaces a0) ∨ in_reference_table a0 ns ∨ in_import_table a0 ns →
        ns ∈ Node.namespace <$> graph_nodes doc.

(** C2 as stated: the totals of a node are the sums over the edges that
    point to it and that leave it. *)
Definition totals_match_edges (doc : ResultDoc) : Prop :=
  ∀ n, n ∈ graph_nodes doc →
    Node.incoming_references n
    = edge_total (λ e, bool_decide (Edge.target e = Node.id n)) (graph_edges doc) ∧
    Node.outgoing_references n
    = edge_total (λ e, bool_decide (Edge.source e = Node.id n)) (graph_edges doc).

(** C3 as stated: the edge weights add up to the number of (triple, rule)
    pairs that fired. *)
Definition edges_count_rules (split_uri : string → option (string * string))
    (files : list InputFile) (doc : ResultDoc) : Prop :=
  edge_total (λ _, true) (graph_edges doc) = Z.of_nat (length (corpus_rules split_uri files)).

(** C6 as stated: every pair of the import table has its edge, with a
    positive count and the import flag. *)
Definition import_has_edge (id_map : gmap string string) (doc : ResultDoc)
    (s d : string) : Prop :=
  ∃ e, e ∈ graph_edges doc ∧
       Edge.source e = id_of id_map s ∧ Edge.target e = id_of id_map d ∧
       1 ≤ Edge.reference_count e ∧ Edge.import e = true.

Definition imports_are_edges (a0 : OntologyAnalyzer) (id_map : gmap string string)
    (doc : ResultDoc) : Prop :=
  ∀ s dsts d, imports a0 !! s = Some dsts → d ∈ dsts → import_has_edge id_map doc s d.

(** ** Sample inputs *)

Definition about (subject : string) : triple :=
  (URIRef subject, RDFS_label, Literal "label").

(** Two one-triple files in two directories; the metadata of the first
    carries the keyword [deprecated]. *)
Definition stats_only (keys : list string) : OntologyAnalyzer :=
  mkAnalyzer (list_to_map ((λ ns, (ns, OntologyStats.init ns)) <$> keys)) ∅ ∅.

(** Two ontologies whose namespaces end in the same segment; a class of
    the first is a subclass of a class of the second. *)
Definition colliding_corpus : list InputFile :=
  [ mkFile "a/onto.ttl" None
      (RdfFile (Some [(URIRef "http://a.org/onto#C", RDFS_subClassOf,
                       URIRef "http://b.org/onto#D")]));
    mkFile "b/onto.ttl" None (RdfFile (Some [about "http://b.org/onto#D"])) ].

(** The same with distinct last segments. *)
Definition linked_corpus : list InputFile :=
  [ mkFile "a/one.ttl" None
      (RdfFile (Some [(URIRef "http://a.org/one#C", RDFS_subClassOf,
                       URIRef "http://b.org/two#D")]));
    mkFile "b/two.ttl" None (RdfFile (Some [about "http://b.org/two#D"])) ].

(** One file with one labelled resource. *)
Definition single_corpus : list InputFile :=
  [ mkFile "a/x.ttl" None (RdfFile (Some [about "http://a.org/x"])) ].

(** One schema that imports another namespace. *)
Definition xsd_corpus : list InputFile :=
  [ mkFile "xsd/s.xsd" None
      (XsdFile (Some (mkXsd (Some "http://a.org/main") [Some "http://b.org/types"]))) ].

Definition tagged_corpus : list InputFile :=
  [ mkFile "old/a.ttl" (Some (<["keywords" := ["deprecated"]]> ∅))
      (RdfFile (Some [about "http://a.org/x"]));
    mkFile "new/b.ttl" (Some (<["keywords" := ["energy"]]> ∅))
      (RdfFile (Some [about "http://b.org/y"])) ].

(** One ontology whose header is labelled, and a later graph that labels
    and describes the same ontology differently. *)
Definition described_corpus : list InputFile :=
  [ mkFile "a/one.ttl" None
      (RdfFile (Some [(URIRef "http://a.org/one#self", RDF_type, OWL_Ontology);
                      (URIRef "http://a.org/one#self", RDFS_label, Literal "First")])) ].

Definition first_header : Graph :=
  mkGraph [(URIRef "http://a.org/one#self", RDF_type, OWL_Ontology);
           (URIRef "http://a.org/one#self", RDFS_label, Literal "First")] [].

Definition second_header : Graph :=
  mkGraph [(URIRef "http://a.org/one#self", RDF_type, OWL_Ontology);
           (URIRef "http://a.org/one#self", RDFS_label, Literal "Second");
           (URIRef "http://a.org/one#self", RDFS_comment, Literal "About one")] [].

(** ** Further notions for the properties of the code *)

(** The token a pattern requires, and the token it forbids. *)
Definition include_token (p : string) : option string :=
  if bool_decide (p = "*") then None
  else if Str.startswith "+" p then Some (Str.tail p)
  else if Str.startswith "-" p then None
  else Some p.

Definition exclude_token (p : string) : option string :=
  if bool_decide (p = "*") then None
  else if Str.startswith "+" p then None
  else if Str.startswith "-" p then Some (Str.tail p)
  else None.

(** The weight of a pair in the reference table, 0 when absent, and the
    import set of a namespace, empty when absent. *)
Definition weight_of (a : OntologyAnalyzer) (s d : string) : Z :=
  default 0 (references a !! s ≫= λ targets, targets !! d).

Definition imports_of (a : OntologyAnalyzer) (s : string) : gset string :=
  default ∅ (imports a !! s).

(** The order of a ranking list: totals do not increase. *)
Definition total_ge (x y : Ranked.t) : Prop := Ranked.total y ≤ Ranked.total x.

(** A key of the edge map stems from a pair of [J] whose two namespaces
    have a usable identifier. *)
Definition linked_key (id_map : gmap string string) (J : string → string → Prop)
    (k : string * string) : Prop :=
  ∃ s d, linked id_map s d = true ∧ k = (id_of id_map s, id_of id_map d) ∧ J s d.

Definition keys_from (id_map : gmap string string) (J : string → string → Prop)
    (em : gmap (string * string) Edge.t) : Prop :=
  ∀ k e, em !! k = Some e → linked_key id_map J k.

(** A pair of the reference table, and a pair of the import table. *)
Definition ref_pair (refs : gmap string (gmap string Z)) (s d : string) : Prop :=
  ∃ targets c, refs !! s = Some targets ∧ targets !! d = Some c.

Definition imp_pair (imps : gmap string (gset string)) (s d : string) : Prop :=
  ∃ dsts, imps !! s = Some dsts ∧ d ∈ dsts.

(** What [attach_descriptions_from_graph] may change of a statistics
    entry: a label or a description that was empty. *)
Definition stats_kept (st st' : OntologyStats.t) : Prop :=
  OntologyStats.namespace st' = OntologyStats.namespace st ∧
  OntologyStats.files st' = OntologyStats.files st ∧
  OntologyStats.triples st' = OntologyStats.triples st ∧
  OntologyStats.classes st' = OntologyStats.classes st ∧
  OntologyStats.properties st' = OntologyStats.properties st ∧
  OntologyStats.individuals st' = OntologyStats.individuals st ∧
  (truthy (OntologyStats.label st) = true →
   OntologyStats.label st' = OntologyStats.label st) ∧
  (truthy (OntologyStats.description st) = true →
   OntologyStats.description st' = OntologyStats.description st).

(** The sum of a counter over the statistics store, and over the node
    list. *)
Definition tally (h : OntologyStats.t → Z) (a : OntologyAnalyzer) : Z :=
  msum (λ _ st, h st) (namespaces a).

Definition node_total (h : Node.t → Z) (nodes : list Node.t) : Z :=
  foldr (λ n acc, h n + acc) 0 nodes.

(** The triples of the corpus that are counted: those whose subject is a
    URI reference that resolves to a namespace, and among them those that
    are classified (an [rdf:type] statement with a URI reference as
    object). *)
Definition attributable (split_uri : string → option (string * string))
    (t : triple) : bool :=
  is_URIRef t.1.1 && truthy (_get_namespace split_uri t.1.1).

Definition classified (split_uri : string → option (string * string))
    (t : triple) : bool :=
  bool_decide (t.1.2 = RDF_type) && is_URIRef t.1.1 && is_URIRef t.2
  && truthy (_get_namespace split_uri t.1.1).

Definition file_triples (f : InputFile) : list triple :=
  match file_content f with
  | RdfFile (Some g) => g
  | _ => []
  end.

Definition corpus_triples (files : list InputFile) : list triple :=
  files ≫= file_triples.

Definition count_triples (P : triple → bool) (l : list triple) : Z :=
  foldr (λ t acc, (if P t then 1 else 0) + acc) 0 l.

(** A character that [str.lower] leaves alone and produces from itself
    only. *)
Definition plain (a : ascii) : Prop :=
  Str.lower_ascii a = a ∧ ∀ d, Str.lower_ascii d = a → d = a.

(** ** The download command (celine/ontologies/fetch.py) *)

Module Fetch.

(** The two loops of [matches_keywords] that return [False] at the first
    offending token. *)
Fixpoint none_excluded (kws : gset string) (excludes : list string) : bool :=
  match excludes with
  | [] => true
  | neg :: rest => if bool_decide (neg ∈ kws) then false else none_excluded kws rest
  end.

Fixpoint all_included (kws : gset string) (includes : list string) : bool :=
  match includes with
  | [] => true
  | inc :: rest => if negb (bool_decide (inc ∈ kws)) then false else all_included kws rest
  end.

(** [matches_keywords] of [fetch.py]; an entry of the catalogue is read
    like a [metadata.yaml] record.  The loop over the patterns is the one
    of [analyze.py]. *)
Definition matches_keywords (ontology : metadata) (patterns : list string) : bool :=
  match patterns with
  | [] => true
  | _ =>
      let kws := keywords_of ontology in
      let '(includes, excludes, star) := foldl classify_pattern ([], [], false) patterns in
      if star then none_excluded kws excludes
      else if negb (all_included kws includes) then false
      else none_excluded kws excludes
  end.

(** The name of the directory of an ontology. *)
Definition safe_name (name : string) : string :=
  Str.remove "," (Str.remove ")" (Str.remove "("
    (Str.replace "/" "_" (Str.replace " " "_" (Str.lower name))))).

(** [filtered = [o for o in onts if matches_keywords(o, keywords or [])]] *)
Definition selected (onts : list metadata) (keywords : list string) : list metadata :=
  List.filter (λ o, matches_keywords o keywords) onts.

End Fetch.

(** ** The tree command (celine/ontologies/tree.py) *)

Module Tree.

Definition RDFS_domain := URIRef (RDFS_ns ++ "domain").
Definition RDFS_range := URIRef (RDFS_ns ++ "range").

Record ClassInfo := mkClass {
  class_label : option string;
  class_comment : option string;
  parents : list string
}.

Record PropertyInfo := mkProperty {
  property_label : option string;
  property_comment : option string;
  domain : list string;
  range : list string
}.

Record IndividualInfo := mkIndividual {
  types : list string
}.

Record t := mkTree {
  classes : gmap string ClassInfo;
  properties : gmap string PropertyInfo;
  individuals : gmap string IndividualInfo
}.

(** The members of the set [prop_types]; the loop visits them in the
    order of the set, which the function receives as [ptypes]. *)
Definition prop_types : list term :=
  [RDF_Property; OWL_ObjectProperty; OWL_DatatypeProperty; OWL_AnnotationProperty].

Section TreeBuilder.

(** The truth value of a term ([if val:]): rdflib decides it from the
    value of a literal. *)
Variable term_truthy : term → bool.

(** The loop [for p in (...)] of [get_label] and [get_comment]:
    [next(graph.objects(node, p), None)] is the head of the list. *)
Fixpoint first_value (g : list triple) (node : term) (ps : list term) : option string :=
  match ps with
  | [] => None
  | p :: ps =>
      match head (objects g node p) with
      | Some val => if term_truthy val then Some (str val) else first_value g node ps
      | None => first_value g node ps
      end
  end.

Definition get_label (g : list triple) (node : term) : option string :=
  if negb (is_URIRef node) then None
  else first_value g node [RDFS_label; DCTERMS_title].

Definition get_comment (g : list triple) (node : term) : option string :=
  if negb (is_URIRef node) then None
  else first_value g node [RDFS_comment; DCTERMS_description].

Definition add_class (g : list triple) (classes : gmap string ClassInfo) (cls : term)
    : gmap string ClassInfo :=
  <[str cls := mkClass (get_label g cls) (get_comment g cls)
                       (str <$> objects g cls RDFS_subClassOf)]> classes.

Definition add_property (g : list triple) (properties : gmap string PropertyInfo)
    (p : term) : gmap string PropertyInfo :=
  <[str p := mkProperty (get_label g p) (get_comment g p)
                        (str <$> objects g p RDFS_domain)
                        (str <$> objects g p RDFS_range)]> properties.

(** The body of the loop over [graph.triples((None, RDF.type, None))]. *)
Definition add_individual (g : list triple) (classes : gmap string ClassInfo)
    (properties : gmap string PropertyInfo)
    (individuals : gmap string IndividualInfo) (tr : triple)
    : gmap string IndividualInfo :=
  let '(s, _, o) := tr in
  if is_URIRef s then
    let uri := str s in
    if bool_decide (uri ∉ dom classes) && bool_decide (uri ∉ dom properties)
    then <[uri := mkIndividual (str <$> objects g s RDF_type)]> individuals
    else individuals
  else individuals.

Definition extract_tree (ptypes : list term) (g : list triple) : t :=
  let classes := foldl (add_class g) ∅ (subjects g RDF_type OWL_Class) in
  let properties :=
    foldl (λ properties ptype, foldl (add_property g) properties (subjects g RDF_type ptype))
          ∅ ptypes in
  let individuals :=
    foldl (add_individual g classes properties) ∅
          (filter (λ tr : triple, tr.1.2 = RDF_type) g) in
  mkTree classes properties individuals.

End TreeBuilder.

End Tree.

(** ** Facts on the string primitives *)

Section StrFacts.

Lemma rstrip_cons chars c rest :
  Str.rstrip chars (String c rest) =
  match Str.rstrip chars rest with
  | EmptyString => if Str.char_in c chars then EmptyString else String c EmptyString
  | kept => String c kept
  end.
Proof. reflexivity. Qed.

Lemma rstrip_idem chars s : Str.rstrip chars (Str.rstrip chars s) = Str.rstrip chars s.
Proof.
  induction s as [|c rest IH]; [done|].
  rewrite rstrip_cons.
  destruct (Str.rstrip chars rest) as [|d kept] eqn:E.
  - destruct (Str.char_in c chars) eqn:Hc; [done|].
    rewrite rstrip_cons. simpl. by rewrite Hc.
  - rewrite rstrip_cons, IH. done.
Qed.

Lemma rstrip_all_in chars s : Str.all_in chars s = true → Str.rstrip chars s = "".
Proof.
  induction s as [|c rest IH]; simpl; [done|].
  intros [Hc Hrest]%andb_prop. by rewrite (IH Hrest), Hc.
Qed.

Lemma or_None_Some s r : or_None s = Some r → r = s ∧ s ≠ "".
Proof. destruct s; simpl; [done|]. intros [= <-]. done. Qed.

Lemma normalize_ns_Some ns r :
  normalize_ns ns = Some r → r ≠ "" ∧ Str.rstrip "/#" r = r.
Proof.
  destruct ns as [s|]; simpl; [|done].
  intros [-> Hne]%or_None_Some. split; [done|]. apply rstrip_idem.
Qed.

Lemma normalize_ns_fixed r : r ≠ "" → Str.rstrip "/#" r = r → normalize_ns (Some r) = Some r.
Proof. intros Hne Hr. simpl. rewrite Hr. by destruct r. Qed.

Lemma normalize_ns_idem ns : normalize_ns (normalize_ns ns) = normalize_ns ns.
Proof.
  destruct (normalize_ns ns) as [r|] eqn:E; [|done].
  apply normalize_ns_Some in E as [Hne Hr]. by apply normalize_ns_fixed.
Qed.

End StrFacts.

(** C8. [normalize_ns] is idempotent, and a string made only of ['/'] and
    ['#'] (the empty string included) normalises to [None], never to the
    empty string. *)
Theorem C8_normalize_ns_idempotent :
  (∀ ns : option string, normalize_ns (normalize_ns ns) = normalize_ns ns) ∧
  (∀ s : string, Str.all_in "/#" s = true → normalize_ns (Some s) = None) ∧
  (∀ ns : option string, normalize_ns ns ≠ Some "").
Proof.
  split; [apply normalize_ns_idem|]. split.
  - intros s Hs. simpl. by rewrite (rstrip_all_in _ _ Hs).
  - intros ns E. by apply normalize_ns_Some in E as [? _].
Qed.

Lemma C8_witness :
  Str.all_in "/#" "/#//#" = true ∧ normalize_ns (Some "/#//#") = None.
Proof.
  split; [reflexivity|].
  apply (proj1 (proj2 C8_normalize_ns_idempotent) "/#//#"). reflexivity.
Defined.

(** ** The keyword filter *)

Section KeywordFacts.

Lemma startswith_minus p :
  Str.startswith "-" p = true → ∃ rest, p = String "-" rest.
Proof.
  destruct p as [|c rest]; simpl; [done|].
  intros ->%Ascii.eqb_eq. eauto.
Qed.

Lemma classify_excludes patterns includes excludes star :
  Forall (λ p, Str.startswith "-" p = true) patterns →
  foldl classify_pattern (includes, excludes, star) patterns
  = (includes, (excludes ++ (Str.tail <$> patterns))%list, star).
Proof.
  intros Hall. revert excludes.
  induction Hall as [|p ps Hp _ IH]; intros excludes; simpl.
  - by rewrite app_nil_r.
  - apply startswith_minus in Hp as [rest ->].
    cbn -[foldl]. rewrite bool_decide_eq_false_2 by discriminate.
    rewrite IH. simpl. by rewrite <-app_assoc.
Qed.

Lemma existsb_false_iff {A} (f : A → bool) l :
  existsb f l = false ↔ ∀ x, x ∈ l → f x = false.
Proof.
  induction l as [|y l IH]; simpl.
  - split; [intros _ x Hx; by apply elem_of_nil in Hx|done].
  - rewrite orb_false_iff, IH. split.
    + intros [Hy Hl] x [->|Hx]%elem_of_cons; auto.
    + intros Hall. split; [apply Hall; left|intros x Hx; apply Hall; by right].
Qed.

Lemma insert_desc_perm {A} (key : A → Z) x l : insert_desc key x l ≡ₚ x :: l.
Proof.
  induction l as [|y l IH]; simpl; [done|].
  case_bool_decide; [|done]. rewrite IH. apply Permutation_swap.
Qed.

Lemma sorted_desc_perm {A} (key : A → Z) l : sorted_desc key l ≡ₚ l.
Proof.
  induction l as [|x l IH]; simpl; [done|].
  by rewrite insert_desc_perm, IH.
Qed.

Lemma keyword_filter_rankings metadata_by_ns keywords doc :
  most_referenced (keyword_filter metadata_by_ns keywords doc) = most_referenced doc ∧
  largest_consumers (keyword_filter metadata_by_ns keywords doc) = largest_consumers doc.
Proof. by destruct keywords. Qed.

End KeywordFacts.

(** C10. With a pattern list made only of ['-token'] entries,
    [matches_keywords] holds exactly when no excluded token is in the
    keyword set of the record; nothing has to be included although no ['*']
    was given. *)
Theorem C10_only_excludes (meta : metadata) (patterns : list string) :
  Forall (λ p, Str.startswith "-" p = true) patterns →
  matches_keywords meta patterns = true ↔
  ∀ p, p ∈ patterns → Str.tail p ∉ keywords_of meta.
Proof.
  intros Hall. unfold matches_keywords.
  destruct patterns as [|p ps] eqn:E.
  { split; [|done]. intros _ q Hq. by apply elem_of_nil in Hq. }
  rewrite <-E in *. rewrite (classify_excludes _ _ _ _ Hall). simpl.
  rewrite negb_true_iff, existsb_false_iff.
  split.
  - intros Hno q Hq Hin.
    specialize (Hno (Str.tail q)). rewrite elem_of_elements in Hno.
    apply Hno in Hin. apply bool_decide_eq_false in Hin.
    apply Hin. apply list_elem_of_fmap. eauto.
  - intros Hno e He. apply bool_decide_eq_false.
    intros (q & -> & Hq)%list_elem_of_fmap.
    apply (Hno q Hq). by apply elem_of_elements.
Qed.

Lemma C10_witness :
  matches_keywords (<["keywords" := ["draft"; "energy"]]> ∅) ["-deprecated"; "-old"] = true ↔
  ∀ p, p ∈ ["-deprecated"; "-old"] →
       Str.tail p ∉ keywords_of (<["keywords" := ["draft"; "energy"]]> ∅).
Proof.
  apply (C10_only_excludes (<["keywords" := ["draft"; "energy"]]> ∅) ["-deprecated"; "-old"]).
  repeat constructor.
Defined.

(** C9. The keyword filter replaces [graph.nodes], [graph.edges] and
    [ontologies] only: both ranking lists of the final document are those
    computed before filtering, so every namespace of the unfiltered node
    list, pruned or not, is still listed in both rankings. *)
Theorem C9_rankings_not_filtered split_uri files prefixes keywords doc0 doc :
  analyze_ontologies split_uri files prefixes [] = Some doc0 →
  analyze_ontologies split_uri files prefixes keywords = Some doc →
  most_referenced doc = most_referenced doc0 ∧
  largest_consumers doc = largest_consumers doc0 ∧
  ∀ n, n ∈ graph_nodes doc0 →
    Node.namespace n ∈ (Ranked.namespace <$> most_referenced doc) ∧
    Node.namespace n ∈ (Ranked.namespace <$> largest_consumers doc).
Proof.
  unfold analyze_ontologies. destruct files as [|f fs]; [done|].
  destruct (run_files split_uri (f :: fs)) as [[merged a] metadata_by_file].
  destruct (build_result_document split_uri a (mkGraph merged prefixes))
    as [a' built] eqn:Hbuilt.
  intros [= <-] [= <-].
  destruct (keyword_filter_rankings
              (omap (metadata_for metadata_by_file) (namespaces a)) keywords built)
    as [-> ->].
  do 2 (split; [done|]).
  unfold build_result_document in Hbuilt. injection Hbuilt as _ <-. simpl.
  intros n Hn. split.
  - apply list_elem_of_fmap. exists (rank_incoming n). split; [done|].
    apply list_elem_of_fmap. exists n. split; [done|]. by rewrite sorted_desc_perm.
  - apply list_elem_of_fmap. exists (rank_outgoing n). split; [done|].
    apply list_elem_of_fmap. exists n. split; [done|]. by rewrite sorted_desc_perm.
Qed.

Lemma C9_witness :
  ∃ doc0 doc n,
    analyze_ontologies sample_split_uri tagged_corpus [] [] = Some doc0 ∧
    analyze_ontologies sample_split_uri tagged_corpus [] ["*"; "-deprecated"] = Some doc ∧
    n ∈ graph_nodes doc0 ∧
    (Node.namespace n ∉ (Node.namespace <$> graph_nodes doc)) ∧
    Node.namespace n ∈ (Ranked.namespace <$> most_referenced doc) ∧
    Node.namespace n ∈ (Ranked.namespace <$> largest_consumers doc).
Proof.
  assert (∃ doc0, analyze_ontologies sample_split_uri tagged_corpus [] [] = Some doc0)
    as [doc0 H0] by (eexists; vm_compute; reflexivity).
  assert (∃ doc, analyze_ontologies sample_split_uri tagged_corpus []
                   ["*"; "-deprecated"] = Some doc)
    as [doc H1] by (eexists; vm_compute; reflexivity).
  pose proof (C9_rankings_not_filtered _ _ _ _ _ _ H0 H1) as (_ & _ & Hin).
  vm_compute in H0. injection H0 as <-.
  vm_compute in H1. injection H1 as <-.
  eexists _, _, _. do 2 (split; [vm_compute; reflexivity|]).
  split; [apply list_elem_of_here|].
  split; [|apply (Hin _ (list_elem_of_here _ _))].
  simpl. intros [=]%list_elem_of_singleton.
Defined.

(** ** The registration methods *)

Section RegisterFacts.

Lemma truthy_normalized ns r : normalize_ns ns = Some r → truthy (Some r) = true.
Proof. intros [Hne _]%normalize_ns_Some. by destruct r. Qed.

Lemma normalize_ns_Some_idem ns r : normalize_ns ns = Some r → normalize_ns (Some r) = Some r.
Proof. intros E. rewrite <-E. apply normalize_ns_idem. Qed.

Lemma register_reference_eq a raw_src raw_dst w :
  _register_reference a raw_src raw_dst w =
  match cross (normalize_ns raw_src) (normalize_ns raw_dst) with
  | (s, d) :: _ => add_ref s d w a
  | [] => a
  end.
Proof.
  unfold _register_reference, cross.
  destruct (normalize_ns raw_src) as [s|] eqn:Es; [|done].
  destruct (normalize_ns raw_dst) as [d|] eqn:Ed;
    rewrite (truthy_normalized _ _ Es); [|done].
  rewrite (truthy_normalized _ _ Ed). simpl.
  destruct (decide (s = d)) as [->|Hne].
  - by rewrite !bool_decide_eq_true_2.
  - rewrite !bool_decide_eq_false_2 by congruence. done.
Qed.

Lemma register_import_eq a raw_src raw_dst :
  _register_import a raw_src raw_dst =
  match cross (normalize_ns raw_src) (normalize_ns raw_dst) with
  | (s, d) :: _ => add_ref s d 1 (add_imp s d a)
  | [] => a
  end.
Proof.
  unfold _register_import.
  destruct (normalize_ns raw_src) as [s|] eqn:Es; [|done].
  destruct (normalize_ns raw_dst) as [d|] eqn:Ed;
    rewrite (truthy_normalized _ _ Es); [|done].
  rewrite (truthy_normalized _ _ Ed). simpl.
  destruct (decide (s = d)) as [->|Hne].
  - by rewrite !bool_decide_eq_true_2.
  - rewrite register_reference_eq.
    rewrite <-Es, <-Ed, !normalize_ns_idem, Es, Ed. simpl.
    rewrite !bool_decide_eq_false_2 by congruence. done.
Qed.

Lemma cross_cases src dst :
  cross src dst = [] ∨
  ∃ s d, src = Some s ∧ dst = Some d ∧ s ≠ d ∧ cross src dst = [(s, d)].
Proof.
  destruct src as [s|], dst as [d|]; simpl; auto.
  case_bool_decide; [by left|]. right. by exists s, d.
Qed.

Lemma add_ref_no_self_loops s d w a :
  s ≠ d → no_self_loops a → no_self_loops (add_ref s d w a).
Proof.
  intros Hne [Hrefs Himps]. split; [|done]. simpl.
  intros s' targets. destruct (decide (s = s')) as [<-|Hs].
  - rewrite lookup_insert_eq. intros [= <-].
    rewrite lookup_insert_ne by done.
    destruct (references a !! s) as [t|] eqn:E; simpl; [by eapply Hrefs|done].
  - rewrite lookup_insert_ne by done. apply Hrefs.
Qed.

Lemma add_imp_no_self_loops s d a :
  s ≠ d → no_self_loops a → no_self_loops (add_imp s d a).
Proof.
  intros Hne [Hrefs Himps]. split; [done|]. simpl.
  intros s' dsts. destruct (decide (s = s')) as [<-|Hs].
  - rewrite lookup_insert_eq. intros [= <-].
    destruct (imports a !! s) as [t|] eqn:E; simpl.
    + specialize (Himps _ _ E). set_solver.
    + set_solver.
  - rewrite lookup_insert_ne by done. apply Himps.
Qed.

Lemma apply_call_no_self_loops a c : no_self_loops a → no_self_loops (apply_call a c).
Proof.
  intros Ha. destruct c as [raw_src raw_dst w|raw_src raw_dst]; simpl.
  - rewrite register_reference_eq.
    destruct (cross_cases (normalize_ns raw_src) (normalize_ns raw_dst))
      as [->|(s & d & _ & _ & Hne & ->)]; [done|].
    by apply add_ref_no_self_loops.
  - rewrite register_import_eq.
    destruct (cross_cases (normalize_ns raw_src) (normalize_ns raw_dst))
      as [->|(s & d & _ & _ & Hne & ->)]; [done|].
    by apply add_ref_no_self_loops, add_imp_no_self_loops.
Qed.

Lemma calls_no_self_loops a calls : no_self_loops a → no_self_loops (foldl apply_call a calls).
Proof.
  revert a. induction calls as [|c calls IH]; intros a Ha; simpl; [done|].
  by apply IH, apply_call_no_self_loops.
Qed.

End RegisterFacts.

(** C7. Whatever calls of [_register_reference] and [_register_import] are
    made on a fresh analyzer, the reference table has no entry from a
    namespace to itself and no namespace is in its own import set. *)
Theorem C7_no_self_loops (calls : list RegisterCall) (N : string) :
  let a := foldl apply_call new_analyzer calls in
  (references a !! N ≫= λ targets, targets !! N) = None ∧
  N ∉ default ∅ (imports a !! N).
Proof.
  intros a.
  assert (no_self_loops a) as [Hrefs Himps].
  { apply calls_no_self_loops. split; intros s t; simpl; by rewrite lookup_empty. }
  split.
  - destruct (references a !! N) as [t|] eqn:E; simpl; [by eapply Hrefs|done].
  - destruct (imports a !! N) as [t|] eqn:E; simpl; [by eapply Himps|set_solver].
Qed.

(** ** The identifier map *)

Section IdMapFacts.

Lemma use_prefix_dom a m b :
  dom m ⊆ dom (use_prefix a m b) ∧ dom (use_prefix a m b) ⊆ dom m ∪ dom (namespaces a).
Proof.
  unfold use_prefix. destruct b as [prefix ns].
  destruct (normalize_ns (Some ns)) as [ns_str|]; [|set_solver].
  destruct (truthy (Some ns_str)); simpl; [|set_solver].
  case_bool_decide as Hin; simpl; [|set_solver].
  case_bool_decide; simpl; [set_solver|].
  rewrite dom_insert_L. set_solver.
Qed.

Lemma declared_ids_dom a bindings m :
  dom m ⊆ dom (namespaces a) →
  dom (foldl (use_prefix a) m bindings) ⊆ dom (namespaces a).
Proof.
  revert m. induction bindings as [|b bs IH]; intros m Hm; simpl; [done|].
  apply IH. pose proof (use_prefix_dom a m b). set_solver.
Qed.

Lemma fallback_fold_dom l m c :
  dom (foldl fallback_id (m, c) l).1 = dom m ∪ list_to_set l.
Proof.
  revert m c. induction l as [|x l IH]; intros m c; simpl; [set_solver|].
  case_bool_decide; rewrite IH; [set_solver|].
  rewrite dom_insert_L. set_solver.
Qed.

Lemma fallback_fold_keeps l m c k v :
  m !! k = Some v → (foldl fallback_id (m, c) l).1 !! k = Some v.
Proof.
  revert m c. induction l as [|x l IH]; intros m c Hk; simpl; [done|].
  case_bool_decide as Hx; apply IH; [done|].
  rewrite lookup_insert_ne; [done|].
  intros ->. apply Hx, elem_of_dom. eauto.
Qed.



Lemma sorted_strings_perm l : sorted_strings l ≡ₚ l.
Proof. apply merge_sort_Permutation. Qed.

Lemma build_id_map_dom a merged_graph :
  dom (_build_id_map a merged_graph) = dom (namespaces a).
Proof.
  unfold _build_id_map. rewrite fallback_fold_dom.
  pose proof (declared_ids_dom a (graph_prefixes merged_graph) ∅) as Hdecl.
  apply set_eq. intros ns. rewrite elem_of_union, elem_of_list_to_set.
  rewrite sorted_strings_perm, elem_of_elements. set_solver.
Qed.

Lemma make_short_id_derive ns k :
  _make_short_id ns k =
  match derive_short_id ns with
  | EmptyString => ns_name k
  | short => short
  end.
Proof.
  unfold _make_short_id, derive_short_id.
  by destruct (Str.rstrip "/#" ns).
Qed.

End IdMapFacts.

(** C4 (amended). The identifier map is total: its keys are exactly the
    namespaces with a statistics entry.  Nothing keeps two namespaces from
    receiving the same identifier. *)
Theorem C4_id_map_total (a : OntologyAnalyzer) (merged_graph : Graph) :
  id_map_total a (_build_id_map a merged_graph) ∧
  dom (_build_id_map a merged_graph) = dom (namespaces a).
Proof.
  split; [|apply build_id_map_dom].
  intros ns Hns. apply elem_of_dom. by rewrite build_id_map_dom.
Qed.

Lemma C4_witness :
  is_Some (_build_id_map (stats_only ["http://a.org/onto"; "http://b.org/onto"])
             (mkGraph [] [("b", "http://b.org/onto#")]) !! "http://a.org/onto").
Proof.
  apply (proj1 (C4_id_map_total
                  (stats_only ["http://a.org/onto"; "http://b.org/onto"])
                  (mkGraph [] [("b", "http://b.org/onto#")]))).
  vm_compute. reflexivity.
Defined.

(** C4 fails as stated: two ontologies whose namespaces end in the same
    segment receive the same identifier. *)
Lemma C4_counterexample :
  let a := (run_files sample_split_uri colliding_corpus).1.2 in
  ¬ (id_map_total a (_build_id_map a (mkGraph [] [])) ∧
     id_map_collision_free a (_build_id_map a (mkGraph [] []))).
Proof.
  intros a [_ Hfree].
  apply (Hfree "http://a.org/onto" "http://b.org/onto"); [| |done|];
    vm_compute; reflexivity.
Qed.


(** On a store whose keys were not written by [_ensure_ns] (no run
    produces it) the counter is seen to count derived identifiers too:
    the only namespace that takes the fallback is numbered 2. *)
Lemma fallback_counter_counts_derived :
  ¬ fallback_numbered_by_rank (stats_only ["!a"; "#"]) (mkGraph [] []).
Proof.
  intros Hclaim. specialize (Hclaim 0%nat "#").
  assert (_build_id_map (stats_only ["!a"; "#"]) (mkGraph [] []) !! "#" = Some "ns2")
    as Hcode by (vm_compute; reflexivity).
  rewrite Hcode in Hclaim.
  assert (Some "ns2" = Some (ns_name (Z.of_nat 0 + 1))) as Habs
    by (apply Hclaim; vm_compute; reflexivity).
  vm_compute in Habs. discriminate.
Qed.

(** ** Sums over dictionaries *)

Section SumFacts.

Context `{Countable K} {V : Type}.
Implicit Types (f g : K → V → Z) (m : gmap K V).

Lemma msum_empty f : msum f (∅ : gmap K V) = 0.
Proof. unfold msum. by rewrite map_fold_empty. Qed.

Lemma msum_insert f m k v :
  m !! k = None → msum f (<[k := v]> m) = f k v + msum f m.
Proof.
  intros Hk. unfold msum. rewrite map_fold_insert_L; [done| |done].
  intros. lia.
Qed.

Lemma msum_delete f m k v :
  m !! k = Some v → msum f m = f k v + msum f (delete k m).
Proof.
  intros Hk. rewrite <-(insert_delete_id m k v) at 1 by done.
  apply msum_insert, lookup_delete_eq.
Qed.

Lemma msum_insert_Some f m k v v0 :
  m !! k = Some v0 → msum f (<[k := v]> m) = f k v + msum f m - f k v0.
Proof.
  intros Hk. rewrite <-insert_delete_eq, msum_insert by apply lookup_delete_eq.
  rewrite (msum_delete f m k v0) by done. lia.
Qed.

Lemma msum_ext f g m :
  (∀ k v, m !! k = Some v → f k v = g k v) → msum f m = msum g m.
Proof.
  induction m as [|k v m Hk IH] using map_ind; intros Hfg.
  - by rewrite !msum_empty.
  - rewrite !msum_insert by done. rewrite IH, (Hfg k v).
    + done.
    + apply lookup_insert_eq.
    + intros k' v' Hk'. apply Hfg. rewrite lookup_insert_ne; [done|].
      intros ->. congruence.
Qed.

Lemma msum_zero f m : (∀ k v, m !! k = Some v → f k v = 0) → msum f m = 0.
Proof.
  intros Hz. rewrite (msum_ext f (λ _ _, 0)) by done. clear Hz.
  induction m as [|k v m Hk IH] using map_ind.
  - apply msum_empty.
  - rewrite msum_insert by done. lia.
Qed.

Lemma msum_plus f g m : msum (λ k v, f k v + g k v) m = msum f m + msum g m.
Proof.
  induction m as [|k v m Hk IH] using map_ind.
  - by rewrite !msum_empty.
  - rewrite !msum_insert by done. lia.
Qed.

Lemma msum_nonneg f m : (∀ k v, m !! k = Some v → 0 ≤ f k v) → 0 ≤ msum f m.
Proof.
  induction m as [|k v m Hk IH] using map_ind; intros Hpos.
  - by rewrite msum_empty.
  - rewrite msum_insert by done.
    assert (0 ≤ f k v) by (apply Hpos, lookup_insert_eq).
    assert (0 ≤ msum f m); [|lia].
    apply IH. intros k' v' Hk'. apply Hpos. rewrite lookup_insert_ne; [done|].
    intros ->. congruence.
Qed.

Lemma msum_entry_le f m k v :
  (∀ k v, m !! k = Some v → 0 ≤ f k v) → m !! k = Some v → f k v ≤ msum f m.
Proof.
  intros Hpos Hk. rewrite (msum_delete f m k v) by done.
  assert (0 ≤ msum f (delete k m)); [|lia].
  apply msum_nonneg. intros k' v' Hk'. apply (Hpos k' v').
  apply lookup_delete_Some in Hk'. tauto.
Qed.

Lemma msum_at_key (h : V → Z) m k :
  msum (λ k' v, if bool_decide (k' = k) then h v else 0) m
  = from_option h 0 (m !! k).
Proof.
  destruct (m !! k) as [v|] eqn:Hk; simpl.
  - rewrite (msum_delete _ m k v) by done. rewrite bool_decide_eq_true_2 by done.
    rewrite msum_zero; [lia|].
    intros k' v' Hk'. apply lookup_delete_Some in Hk' as [Hne _].
    by rewrite bool_decide_eq_false_2.
  - apply msum_zero. intros k' v' Hk'.
    rewrite bool_decide_eq_false_2; [done|]. intros ->. congruence.
Qed.

Lemma msum_values (h : V → Z) m :
  msum (λ _ v, h v) m = foldr (λ v acc, h v + acc) 0 (map_to_list m).*2.
Proof.
  unfold msum. rewrite map_fold_foldr.
  induction (map_to_list m) as [|[k v] l IH]; simpl; [done|]. by rewrite IH.
Qed.

End SumFacts.

(** ** The reference table as a weighted relation *)

Section TableFacts.

Implicit Types (P : string → string → bool) (refs : gmap string (gmap string Z)).

Lemma weight_sum_empty P : weight_sum P ∅ = 0.
Proof. apply msum_empty. Qed.

Lemma weight_sum_add_ref P s d w a :
  weight_sum P (references (add_ref s d w a))
  = weight_sum P (references a) + (if P s d then w else 0).
Proof.
  unfold add_ref, weight_sum. simpl.
  destruct (references a !! s) as [t|] eqn:Es; simpl.
  - rewrite (msum_insert_Some _ _ _ _ t) by done.
    destruct (t !! d) as [c|] eqn:Ed; simpl.
    + rewrite (msum_insert_Some _ _ _ _ c) by done. destruct (P s d); lia.
    + rewrite msum_insert by done. destruct (P s d); lia.
  - rewrite msum_insert by done.
    rewrite msum_insert by apply lookup_empty. rewrite msum_empty, lookup_empty.
    simpl. destruct (P s d); lia.
Qed.

Lemma weight_sum_entry_le P refs s t d c :
  (∀ s t d c, refs !! s = Some t → t !! d = Some c → 0 ≤ c) →
  refs !! s = Some t → t !! d = Some c → P s d = true →
  c ≤ weight_sum P refs.
Proof.
  intros Hpos Hs Hd HP. unfold weight_sum.
  etrans; [|apply (msum_entry_le _ refs s t); [|done]].
  - etrans; [|apply (msum_entry_le _ t d c); [|done]].
    + simpl. by rewrite HP.
    + intros d' c' Hd'. destruct (P s d'); [by eapply Hpos|done].
  - intros s' t' Hs'. apply msum_nonneg.
    intros d' c' Hd'. destruct (P s' d'); [by eapply Hpos|done].
Qed.

(** The weights leaving one namespace. *)
Lemma weight_sum_source refs N :
  weight_sum (λ s _, bool_decide (s = N)) refs = sum_values (default ∅ (refs !! N)).
Proof.
  unfold weight_sum. change sum_values with (msum (λ (_ : string) (c : Z), c)).
  destruct (refs !! N) as [t|] eqn:E; simpl.
  - rewrite (msum_delete _ refs N t) by done.
    rewrite (msum_ext _ (λ _ c, c) t)
      by (intros; by rewrite bool_decide_eq_true_2).
    rewrite (msum_zero _ (delete N refs)); [lia|].
    intros s' t' [Hne _]%lookup_delete_Some. apply msum_zero.
    intros. by rewrite bool_decide_eq_false_2.
  - rewrite msum_empty. apply msum_zero.
    intros s' t' Hs'. apply msum_zero. intros.
    rewrite bool_decide_eq_false_2; [done|]. intros ->. congruence.
Qed.

Lemma weight_sum_ext P Q refs :
  (∀ s t d c, refs !! s = Some t → t !! d = Some c → P s d = Q s d) →
  weight_sum P refs = weight_sum Q refs.
Proof.
  intros HPQ. apply msum_ext. intros s t Hs. apply msum_ext.
  intros d c Hd. by rewrite (HPQ s t d c).
Qed.

Lemma weight_sum_split P Q refs :
  weight_sum P refs
  = weight_sum (λ s d, P s d && Q s d) refs + weight_sum (λ s d, P s d && negb (Q s d)) refs.
Proof.
  unfold weight_sum. rewrite <-msum_plus. apply msum_ext. intros s t _.
  rewrite <-msum_plus. apply msum_ext. intros d c _.
  destruct (P s d), (Q s d); simpl; lia.
Qed.

End TableFacts.

(** ** Incoming and outgoing totals *)

Section TotalsFacts.

Lemma add_incoming_fold (incoming : gmap string Z) (targets : gmap string Z) N :
  map_fold add_incoming incoming targets !! N
  = (λ v, v + msum (λ d c, if bool_decide (d = N) then c else 0) targets)
      <$> incoming !! N.
Proof.
  apply (map_fold_weak_ind (λ r (t : gmap string Z),
    r !! N = (λ v, v + msum (λ d c, if bool_decide (d = N) then c else 0) t)
               <$> incoming !! N)).
  - rewrite msum_empty. destruct (incoming !! N); simpl; [f_equal; lia|done].
  - intros d c t r Hd IH. rewrite msum_insert by done.
    unfold add_incoming. destruct (decide (d = N)) as [->|Hne].
    + rewrite bool_decide_eq_true_2 by done. rewrite IH.
      destruct (incoming !! N) as [v|]; simpl.
      * rewrite lookup_insert_eq. f_equal. lia.
      * by rewrite IH.
    + rewrite bool_decide_eq_false_2 by done.
      destruct (r !! d); [rewrite lookup_insert_ne by done|]; rewrite IH;
        destruct (incoming !! N); simpl; try done; f_equal; lia.
Qed.

Lemma incoming_of_lookup a N :
  incoming_of a !! N
  = (λ _, weight_sum (λ _ d, bool_decide (d = N)) (references a)) <$> namespaces a !! N.
Proof.
  unfold incoming_of.
  apply (map_fold_weak_ind (λ r (m : gmap string (gmap string Z)),
    r !! N = (λ _, weight_sum (λ _ d, bool_decide (d = N)) m) <$> namespaces a !! N)).
  - rewrite lookup_fmap, weight_sum_empty. by destruct (namespaces a !! N).
  - intros s t m r Hs IH. rewrite add_incoming_fold, IH.
    unfold weight_sum. rewrite msum_insert by done.
    destruct (namespaces a !! N); simpl; [f_equal; lia|done].
Qed.

Lemma outgoing_of_lookup a N :
  outgoing_of a !! N
  = (λ _, weight_sum (λ s _, bool_decide (s = N)) (references a)) <$> namespaces a !! N.
Proof.
  unfold outgoing_of. rewrite map_lookup_imap, weight_sum_source.
  by destruct (namespaces a !! N).
Qed.

End TotalsFacts.

(** ** The edge map *)

Section EdgeFacts.

Implicit Types (f : string → string → bool) (em : gmap (string * string) Edge.t).

Lemma key_total_add_count f i j c em :
  key_total f (upd_edge (Edge.add_count c) i j em)
  = key_total f em + (if f i j then c else 0).
Proof.
  unfold key_total, upd_edge.
  destruct (em !! (i, j)) as [e|] eqn:E; simpl.
  - rewrite (msum_insert_Some _ _ _ _ e) by done. simpl. destruct (f i j); lia.
  - rewrite msum_insert by done. simpl. destruct (f i j); lia.
Qed.

Lemma key_total_set_import f i j em :
  key_total f (upd_edge Edge.set_import i j em) = key_total f em.
Proof.
  unfold key_total, upd_edge.
  destruct (em !! (i, j)) as [e|] eqn:E; simpl.
  - rewrite (msum_insert_Some _ _ _ _ e) by done. simpl. lia.
  - rewrite msum_insert by done. simpl. destruct (f i j); lia.
Qed.

Lemma upd_edge_wf (g : Edge.t → Edge.t) i j em :
  (∀ e, Edge.source (g e) = Edge.source e ∧ Edge.target (g e) = Edge.target e) →
  edge_map_wf em → edge_map_wf (upd_edge g i j em).
Proof.
  intros Hg Hwf k e. unfold upd_edge.
  destruct (decide (k = (i, j))) as [->|Hne].
  - rewrite lookup_insert_eq. intros [= <-].
    destruct (Hg (default (Edge.mk i j 0 false) (em !! (i, j)))) as [-> ->].
    destruct (em !! (i, j)) as [e0|] eqn:E; simpl; [by apply Hwf|done].
  - rewrite lookup_insert_ne by done. apply Hwf.
Qed.

Lemma flagged_set_import i j em k :
  flagged em k → flagged (upd_edge Edge.set_import i j em) k.
Proof.
  intros (e & Hk & He). unfold flagged, upd_edge.
  destruct (decide (k = (i, j))) as [->|Hne].
  - rewrite lookup_insert_eq. eexists. split; [done|]. done.
  - rewrite lookup_insert_ne by done. eauto.
Qed.

Lemma flagged_here i j em : flagged (upd_edge Edge.set_import i j em) (i, j).
Proof. unfold flagged, upd_edge. rewrite lookup_insert_eq. eauto. Qed.

Lemma has_id_false_linked id_map s d : has_id id_map s = false → linked id_map s d = false.
Proof. unfold linked. by intros ->. Qed.

(** The loop over the reference table. *)
Lemma add_reference_edges_targets f id_map s (targets : gmap string Z) em :
  key_total f
    (map_fold (λ dst_ns ref_count edge_map,
         if negb (truthy (id_map !! dst_ns)) then edge_map
         else upd_edge (Edge.add_count ref_count) (default "" (id_map !! s))
                (default "" (id_map !! dst_ns)) edge_map) em targets)
  = key_total f em
    + msum (λ d c, if has_id id_map d && f (id_of id_map s) (id_of id_map d)
                   then c else 0) targets.
Proof.
  apply (map_fold_weak_ind (λ r (t : gmap string Z),
    key_total f r = key_total f em
      + msum (λ d c, if has_id id_map d && f (id_of id_map s) (id_of id_map d)
                     then c else 0) t)).
  - rewrite msum_empty. lia.
  - intros d c t r Hd IH. rewrite msum_insert by done. unfold has_id at 1.
    destruct (truthy (id_map !! d)); simpl.
    + rewrite key_total_add_count, IH. unfold id_of. lia.
    + rewrite IH. lia.
Qed.

Lemma add_reference_edges_total f id_map refs em :
  key_total f (add_reference_edges id_map refs em)
  = key_total f em
    + weight_sum (λ s d, linked id_map s d && f (id_of id_map s) (id_of id_map d)) refs.
Proof.
  unfold add_reference_edges.
  apply (map_fold_weak_ind (λ r (m : gmap string (gmap string Z)),
    key_total f r = key_total f em
      + weight_sum (λ s d, linked id_map s d && f (id_of id_map s) (id_of id_map d)) m)).
  - rewrite weight_sum_empty. lia.
  - intros s t m r Hs IH. unfold weight_sum. rewrite msum_insert by done.
    fold (weight_sum (λ s d, linked id_map s d && f (id_of id_map s) (id_of id_map d)) m).
    destruct (truthy (id_map !! s)) eqn:Hid; simpl.
    + rewrite add_reference_edges_targets, IH.
      rewrite (msum_ext
                 (λ d c, if linked id_map s d && f (id_of id_map s) (id_of id_map d)
                         then c else 0)
                 (λ d c, if has_id id_map d && f (id_of id_map s) (id_of id_map d)
                         then c else 0) t); [lia|].
      intros d c _. unfold linked, has_id at 1. by rewrite Hid.
    + rewrite IH, (msum_zero _ t); [lia|].
      intros d c _. unfold linked, has_id at 1. by rewrite Hid.
Qed.

Lemma add_reference_edges_wf id_map refs em :
  edge_map_wf em → edge_map_wf (add_reference_edges id_map refs em).
Proof.
  intros Hwf. unfold add_reference_edges.
  apply (map_fold_weak_ind (λ r (_ : gmap string (gmap string Z)), edge_map_wf r));
    [done|].
  intros s t _ r _ Hr. destruct (truthy (id_map !! s)); simpl; [|done].
  apply (map_fold_weak_ind (λ r' (_ : gmap string Z), edge_map_wf r')); [done|].
  intros d c _ r' _ Hr'. destruct (truthy (id_map !! d)); simpl; [|done].
  by apply upd_edge_wf.
Qed.

(** The loop over the import table. *)
Lemma add_import_edges_targets id_map s (dsts : gset string) em :
  let em' := set_fold (λ dst_ns edge_map,
                 if negb (truthy (id_map !! dst_ns)) then edge_map
                 else upd_edge Edge.set_import (default "" (id_map !! s))
                        (default "" (id_map !! dst_ns)) edge_map) em dsts in
  (∀ f, key_total f em' = key_total f em) ∧
  (edge_map_wf em → edge_map_wf em') ∧
  (∀ k, flagged em k → flagged em' k) ∧
  (∀ d, d ∈ dsts → has_id id_map d = true → flagged em' (id_of id_map s, id_of id_map d)).
Proof.
  apply (set_fold_ind_L (λ r (X : gset string),
    (∀ f, key_total f r = key_total f em) ∧
    (edge_map_wf em → edge_map_wf r) ∧
    (∀ k, flagged em k → flagged r k) ∧
    (∀ d, d ∈ X → has_id id_map d = true → flagged r (id_of id_map s, id_of id_map d)))).
  - repeat split; done.
  - intros d X r Hd (Htot & Hwf & Hmono & Hflag).
    unfold has_id in *. destruct (truthy (id_map !! d)) eqn:Hid; simpl.
    + repeat split.
      * intros f. by rewrite key_total_set_import.
      * intros Hem. apply upd_edge_wf; [done|auto].
      * intros k Hk. by apply flagged_set_import, Hmono.
      * intros d' [->%elem_of_singleton|Hd']%elem_of_union Hid'.
        -- apply flagged_here.
        -- by apply flagged_set_import, Hflag.
    + repeat split; try done.
      intros d' [->%elem_of_singleton|Hd']%elem_of_union Hid'; [congruence|].
      by apply Hflag.
Qed.

Lemma add_import_edges_spec id_map (imps : gmap string (gset string)) em :
  let em' := add_import_edges id_map imps em in
  (∀ f, key_total f em' = key_total f em) ∧
  (edge_map_wf em → edge_map_wf em') ∧
  (∀ k, flagged em k → flagged em' k) ∧
  (∀ s dsts d, imps !! s = Some dsts → d ∈ dsts → linked id_map s d = true →
               flagged em' (id_of id_map s, id_of id_map d)).
Proof.
  unfold add_import_edges.
  apply (map_fold_weak_ind (λ r (m : gmap string (gset string)),
    (∀ f, key_total f r = key_total f em) ∧
    (edge_map_wf em → edge_map_wf r) ∧
    (∀ k, flagged em k → flagged r k) ∧
    (∀ s dsts d, m !! s = Some dsts → d ∈ dsts → linked id_map s d = true →
                 flagged r (id_of id_map s, id_of id_map d)))).
  - repeat split; done.
  - intros s dsts m r Hs (Htot & Hwf & Hmono & Hflag).
    destruct (truthy (id_map !! s)) eqn:Hid; simpl.
    + destruct (add_import_edges_targets id_map s dsts r)
        as (Htot' & Hwf' & Hmono' & Hflag').
      repeat split.
      * intros f. by rewrite Htot', Htot.
      * auto.
      * auto.
      * intros s' dsts' d. destruct (decide (s = s')) as [<-|Hne].
        -- rewrite lookup_insert_eq. intros [= <-] Hd [_ Hd']%andb_prop.
           by apply Hflag'.
        -- rewrite lookup_insert_ne by done. intros Hs' Hd Hl.
           by eapply Hmono', Hflag.
    + repeat split; try done.
      intros s' dsts' d. destruct (decide (s = s')) as [<-|Hne].
      * rewrite lookup_insert_eq. intros _ _ Hl.
        unfold linked, has_id in Hl. by rewrite Hid in Hl.
      * rewrite lookup_insert_ne by done. apply Hflag.
Qed.

(** From keys to the fields of the listed edges. *)
Lemma edge_total_key_total (P : Edge.t → bool) f em :
  edge_map_wf em →
  (∀ e, P e = f (Edge.source e) (Edge.target e)) →
  edge_total P (map_to_list em).*2 = key_total f em.
Proof.
  intros Hwf HP. unfold edge_total, key_total.
  rewrite <-(msum_values (λ e, if P e then Edge.reference_count e else 0)).
  apply msum_ext. intros k e Hk. rewrite HP, <-(Hwf k e Hk). done.
Qed.

End EdgeFacts.

(** ** Steps of a run *)

Section StepFacts.

Lemma count_pairs_app P l1 l2 :
  count_pairs P (l1 ++ l2) = count_pairs P l1 + count_pairs P l2.
Proof. induction l1 as [|x l1 IH]; simpl; [done|]. rewrite IH. lia. Qed.

Lemma count_pairs_length l : count_pairs (λ _ _, true) l = Z.of_nat (length l).
Proof. induction l as [|x l IH]; simpl length; simpl count_pairs; lia. Qed.

Lemma same_tables_refl a : same_tables a a.
Proof. by split. Qed.

Lemma same_tables_trans a1 a2 a3 :
  same_tables a1 a2 → same_tables a2 a3 → same_tables a1 a3.
Proof.
  intros [R1 I1 D1 K1] [R2 I2 D2 K2]. split; [congruence|congruence|set_solver|auto].
Qed.

Lemma same_tables_run_inv a a' : same_tables a a' → run_inv a → run_inv a'.
Proof.
  intros [HR HI HD _] [H1 H2 H3 H4 H5]. split; rewrite ?HR, ?HI.
  - set_solver.
  - set_solver.
  - intros s dsts Hs. specialize (H3 s dsts Hs). set_solver.
  - done.
  - done.
Qed.

Lemma same_tables_advances a a' : same_tables a a' → advances a a' [] [].
Proof.
  intros Hst. split.
  - by apply same_tables_run_inv.
  - apply Hst.
  - apply Hst.
  - intros P. rewrite (st_refs _ _ Hst). simpl. lia.
Qed.

Lemma advances_refl a : advances a a [] [].
Proof. apply same_tables_advances, same_tables_refl. Qed.

Lemma advances_trans a1 a2 a3 r1 i1 r2 i2 :
  advances a1 a2 r1 i1 → advances a2 a3 r2 i2 →
  advances a1 a3 (r1 ++ r2) (i1 ++ i2).
Proof.
  intros [V1 K1 D1 W1] [V2 K2 D2 W2]. split; [auto|auto|set_solver|].
  intros P. rewrite W2, W1, !count_pairs_app. lia.
Qed.

Lemma advances_after_same a1 a2 a3 r i :
  same_tables a1 a2 → advances a2 a3 r i → advances a1 a3 r i.
Proof.
  intros H12 H23.
  apply (advances_trans _ _ _ [] [] r i (same_tables_advances _ _ H12) H23).
Qed.

(** [_ensure_ns] and [update_stats] *)
Lemma ensure_ns_spec a raw a1 k :
  _ensure_ns a raw = (a1, k) →
  same_tables a a1 ∧ k ∈ dom (namespaces a1) ∧
  (∀ r, normalize_ns raw = Some r → k = r).
Proof.
  unfold _ensure_ns.
  set (ns := match normalize_ns match raw with Some _ => raw | None => Some "unknown" end
             with Some (String c r) => String c r | _ => "unknown" end).
  assert (∀ r, normalize_ns raw = Some r → ns = r) as Hkey.
  { intros r Hr. destruct raw as [x|]; [|done]. subst ns. rewrite Hr.
    apply normalize_ns_Some in Hr as [Hne _]. by destruct r. }
  assert (ns ≠ "" ∧ Str.rstrip "/#" ns = ns) as Hnormal.
  { subst ns.
    destruct (normalize_ns match raw with Some _ => raw | None => Some "unknown" end)
      as [[|c r]|] eqn:E; [done| |done].
    by apply normalize_ns_Some in E. }
  destruct (decide (ns ∈ dom (namespaces a))) as [Hin|Hnew]; intros [= <- <-].
  - split; [apply same_tables_refl|]. split; [done|]. exact Hkey.
  - split; [|split; [|exact Hkey]].
    + split; simpl; [done|done|rewrite dom_insert_L; set_solver|].
      intros Hkeys k0. simpl. rewrite dom_insert_L.
      intros [->%elem_of_singleton|Hold]%elem_of_union; [done|by apply Hkeys].
    + simpl. rewrite dom_insert_L. set_solver.
Qed.

Lemma update_stats_same f k a : same_tables a (update_stats f k a).
Proof.
  split; simpl; [done|done|by rewrite dom_alter_L|].
  intros Hkeys k0. simpl. rewrite dom_alter_L. apply Hkeys.
Qed.

(** [add_ref] and [add_imp] on the invariant of a run *)
Lemma add_ref_keeps s d w a s' t' d' c' :
  references a !! s' = Some t' → t' !! d' = Some c' →
  ∃ t'' c'', references (add_ref s d w a) !! s' = Some t'' ∧ t'' !! d' = Some c''.
Proof.
  intros Hs' Hd'. unfold add_ref. simpl.
  destruct (decide (s = s')) as [<-|Hne].
  - rewrite lookup_insert_eq, Hs'. simpl.
    destruct (decide (d = d')) as [<-|Hd].
    + eexists _, _. split; [reflexivity|]. apply lookup_insert_eq.
    + eexists _, c'. split; [reflexivity|]. by rewrite lookup_insert_ne.
  - rewrite lookup_insert_ne by done. eauto.
Qed.

Lemma add_ref_here s d w a :
  ∃ t c, references (add_ref s d w a) !! s = Some t ∧ t !! d = Some c.
Proof.
  unfold add_ref. simpl. rewrite lookup_insert_eq.
  eexists _, _. split; [done|]. apply lookup_insert_eq.
Qed.

Lemma add_ref_weight s d a :
  (∀ s t d c, references a !! s = Some t → t !! d = Some c → 1 ≤ c) →
  ∀ s' t' d' c', references (add_ref s d 1 a) !! s' = Some t' → t' !! d' = Some c' → 1 ≤ c'.
Proof.
  intros Hw s' t' d' c'. unfold add_ref. simpl.
  destruct (decide (s = s')) as [<-|Hne].
  - rewrite lookup_insert_eq. intros [= <-].
    destruct (decide (d = d')) as [<-|Hd].
    + rewrite lookup_insert_eq. intros [= <-].
      destruct (references a !! s) as [t|] eqn:Es; simpl.
      * destruct (t !! d) as [c|] eqn:Ed; simpl; [|lia].
        specialize (Hw _ _ _ _ Es Ed). lia.
      * rewrite lookup_empty. simpl. lia.
    + rewrite lookup_insert_ne by done.
      destruct (references a !! s) as [t|] eqn:Es; simpl; [by apply (Hw s)|].
      by rewrite lookup_empty.
  - rewrite lookup_insert_ne by done. apply (Hw s').
Qed.

Lemma add_ref_run_inv s d a :
  s ∈ dom (namespaces a) → run_inv a → run_inv (add_ref s d 1 a).
Proof.
  intros Hs [H1 H2 H3 H4 H5]. split.
  - unfold add_ref. simpl. rewrite dom_insert_L. set_solver.
  - done.
  - done.
  - by apply add_ref_weight.
  - intros s' dsts d' Hs' Hd'.
    destruct (H5 s' dsts d' Hs' Hd') as (t & c & Ht & Hc).
    by eapply add_ref_keeps.
Qed.

Lemma add_imp_ref_run_inv s d a :
  s ∈ dom (namespaces a) → d ∈ dom (namespaces a) →
  run_inv a → run_inv (add_ref s d 1 (add_imp s d a)).
Proof.
  intros Hs Hd [H1 H2 H3 H4 H5]. split.
  - unfold add_ref, add_imp. simpl. rewrite dom_insert_L. set_solver.
  - unfold add_ref, add_imp. simpl. rewrite dom_insert_L. set_solver.
  - unfold add_ref, add_imp. simpl. intros s' dsts.
    destruct (decide (s = s')) as [<-|Hne].
    + rewrite lookup_insert_eq. intros [= <-].
      destruct (imports a !! s) as [old|] eqn:E; simpl.
      * specialize (H3 _ _ E). set_solver.
      * set_solver.
    + rewrite lookup_insert_ne by done. apply H3.
  - apply (add_ref_weight s d (add_imp s d a)). exact H4.
  - intros s' dsts d'. change (imports (add_ref s d 1 (add_imp s d a)))
      with (<[s := {[d]} ∪ default ∅ (imports a !! s)]> (imports a)).
    destruct (decide (s = s')) as [<-|Hne].
    + rewrite lookup_insert_eq. intros [= <-].
      intros [->%elem_of_singleton|Hold]%elem_of_union; [apply add_ref_here|].
      destruct (imports a !! s) as [old|] eqn:E; simpl in Hold; [|set_solver].
      destruct (H5 s old d' E Hold) as (t & c & Ht & Hc).
      by apply (add_ref_keeps s d 1 (add_imp s d a) s t d' c).
    + rewrite lookup_insert_ne by done. intros Hs' Hd'.
      destruct (H5 s' dsts d' Hs' Hd') as (t & c & Ht & Hc).
      by apply (add_ref_keeps s d 1 (add_imp s d a) s' t d' c).
Qed.

(** The registration methods as steps *)
Lemma register_reference_advances a x y :
  (∀ r, normalize_ns x = Some r → r ∈ dom (namespaces a)) →
  advances a (_register_reference a x y 1) (cross (normalize_ns x) (normalize_ns y)) [].
Proof.
  intros Hsrc. rewrite register_reference_eq.
  destruct (cross_cases (normalize_ns x) (normalize_ns y))
    as [->|(s & d & Hs & Hd & Hne & ->)]; [apply advances_refl|].
  split.
  - apply add_ref_run_inv. by apply Hsrc.
  - done.
  - done.
  - intros P. rewrite weight_sum_add_ref. simpl. destruct (P s d); lia.
Qed.

Lemma register_import_advances a x y :
  (∀ r, normalize_ns x = Some r → r ∈ dom (namespaces a)) →
  (∀ r, normalize_ns y = Some r → r ∈ dom (namespaces a)) →
  advances a (_register_import a x y) [] (cross (normalize_ns x) (normalize_ns y)).
Proof.
  intros Hsrc Hdst. rewrite register_import_eq.
  destruct (cross_cases (normalize_ns x) (normalize_ns y))
    as [->|(s & d & Hs & Hd & Hne & ->)]; [apply advances_refl|].
  split.
  - apply add_imp_ref_run_inv; auto.
  - done.
  - done.
  - intros P. rewrite weight_sum_add_ref. simpl. destruct (P s d); lia.
Qed.

End StepFacts.

(** ** Processing of the files *)

Section RunFacts.

Variable split_uri : string → option (string * string).

Lemma get_namespace_normalized t :
  normalize_ns (_get_namespace split_uri t) = _get_namespace split_uri t.
Proof.
  destruct t as [uri| |]; simpl; try done.
  destruct (split_uri uri) as [[ns local]|]; [apply (normalize_ns_idem (Some ns))|].
  destruct (Str.char_in "#" uri); [apply (normalize_ns_idem (Some _))|].
  destruct (Str.char_in "/" uri); [apply (normalize_ns_idem (Some _))|done].
Qed.

Lemma get_namespace_guard t :
  (if is_URIRef t then _get_namespace split_uri t else None) = _get_namespace split_uri t.
Proof. by destruct t. Qed.

Lemma truthy_normal x :
  normalize_ns x = x → truthy x = match x with Some _ => true | None => false end.
Proof. destruct x as [r|]; [|done]. apply truthy_normalized. Qed.

Lemma cross_None_r x : cross x None = [].
Proof. by destruct x. Qed.

Lemma cross_same x : cross x x = [].
Proof. destruct x; simpl; [|done]. by rewrite bool_decide_eq_true_2. Qed.

Lemma bind_const_nil {X Y} (l : list X) : l ≫= (λ _, @nil Y) = [].
Proof. by induction l. Qed.

Lemma advances_foldl {X} (D : gset string) (step : OntologyAnalyzer → X → OntologyAnalyzer)
    (r i : X → list (string * string)) l a :
  (∀ a x, D ⊆ dom (namespaces a) → advances a (step a x) (r x) (i x)) →
  D ⊆ dom (namespaces a) →
  advances a (foldl step a l) (l ≫= r) (l ≫= i).
Proof.
  intros Hstep. revert a. induction l as [|x l IH]; intros a HD; simpl.
  - apply advances_refl.
  - pose proof (Hstep a x HD) as Hx.
    apply (advances_trans _ _ _ _ _ _ _ Hx). apply IH.
    pose proof (adv_dom _ _ _ _ Hx). set_solver.
Qed.

Lemma advances_foldl_rules {X} (step : OntologyAnalyzer → X → OntologyAnalyzer)
    (r : X → list (string * string)) l a :
  (∀ a x, advances a (step a x) (r x) []) →
  advances a (foldl step a l) (l ≫= r) [].
Proof.
  intros Hstep.
  pose proof (advances_foldl ∅ step r (λ _, []) l a) as Hfold.
  rewrite bind_const_nil in Hfold. apply Hfold; [|set_solver].
  intros a' x _. apply Hstep.
Qed.

Lemma advances_foldl_imps {X} (D : gset string) (step : OntologyAnalyzer → X → OntologyAnalyzer)
    (i : X → list (string * string)) l a :
  (∀ a x, D ⊆ dom (namespaces a) → advances a (step a x) [] (i x)) →
  D ⊆ dom (namespaces a) →
  advances a (foldl step a l) [] (l ≫= i).
Proof.
  intros Hstep HD.
  pose proof (advances_foldl D step (λ _, []) i l a) as Hfold.
  rewrite bind_const_nil in Hfold. by apply Hfold.
Qed.

(** A registration under the guard of a detection rule. *)
Lemma guarded_register_advances (g : bool) a x y :
  normalize_ns x = x → normalize_ns y = y →
  (∀ r, x = Some r → r ∈ dom (namespaces a)) →
  advances a
    (if g && truthy x && truthy y && negb (bool_decide (x = y))
     then _register_reference a x y 1 else a)
    (if g then cross x y else []) [].
Proof.
  intros Hx Hy Hsrc. destruct g; simpl; [|apply advances_refl].
  assert ((if truthy x && truthy y && negb (bool_decide (x = y))
           then _register_reference a x y 1 else a) = _register_reference a x y 1) as ->.
  { destruct (truthy x && truthy y && negb (bool_decide (x = y))) eqn:Hc; [done|].
    rewrite register_reference_eq, Hx, Hy.
    rewrite (truthy_normal x Hx), (truthy_normal y Hy) in Hc.
    destruct x as [s|]; [|done]. destruct y as [d|]; [|done]. simpl in Hc.
    apply negb_false_iff, bool_decide_eq_true in Hc as [= ->].
    by rewrite cross_same. }
  rewrite <-Hx, <-Hy at 2. apply register_reference_advances.
  intros r. rewrite Hx. apply Hsrc.
Qed.

Lemma process_dependencies_advances a s p o :
  (∀ r, _get_namespace split_uri s = Some r → r ∈ dom (namespaces a)) →
  advances a (_process_dependencies_for_triple split_uri a s p o)
           (fired_rules split_uri (s, p, o)) [].
Proof.
  intros Hsrc. unfold _process_dependencies_for_triple.
  rewrite !get_namespace_guard.
  pose proof (get_namespace_normalized s) as Hs.
  pose proof (get_namespace_normalized p) as Hp.
  pose proof (get_namespace_normalized o) as Ho.
  pose proof (guarded_register_advances true a _ _ Hs Hp Hsrc) as H1.
  simpl in H1.
  set (a1 := if truthy (_get_namespace split_uri s) && truthy (_get_namespace split_uri p)
                && negb (bool_decide (_get_namespace split_uri s = _get_namespace split_uri p))
             then _register_reference a (_get_namespace split_uri s)
                    (_get_namespace split_uri p) 1 else a) in *.
  assert (∀ r, _get_namespace split_uri s = Some r → r ∈ dom (namespaces a1)) as Hsrc1.
  { intros r Hr. apply (adv_dom _ _ _ _ H1). by apply Hsrc. }
  pose proof (guarded_register_advances (bool_decide (p = RDF_type)) a1 _ _ Hs Ho Hsrc1)
    as H2.
  set (a2 := if bool_decide (p = RDF_type) && truthy (_get_namespace split_uri s)
                && truthy (_get_namespace split_uri o)
                && negb (bool_decide (_get_namespace split_uri s = _get_namespace split_uri o))
             then _register_reference a1 (_get_namespace split_uri s)
                    (_get_namespace split_uri o) 1 else a1) in *.
  assert (∀ r, _get_namespace split_uri s = Some r → r ∈ dom (namespaces a2)) as Hsrc2.
  { intros r Hr. apply (adv_dom _ _ _ _ H2). by apply Hsrc1. }
  pose proof (guarded_register_advances (bool_decide (p ∈ DEP_PREDICATES)) a2 _ _ Hs Ho Hsrc2)
    as H3.
  exact (advances_trans _ _ _ _ _ _ _ H1 (advances_trans _ _ _ _ _ _ _ H2 H3)).
Qed.

Lemma ensured_source a x a1 k :
  normalize_ns x = x → _ensure_ns a x = (a1, k) →
  ∀ r, x = Some r → r ∈ dom (namespaces a1).
Proof.
  intros Hx [_ [Hk Hkey]]%ensure_ns_spec r ->. by rewrite <-(Hkey r Hx).
Qed.

Lemma count_subject_same file_str a s :
  same_tables a (count_subject split_uri file_str a s) ∧
  ∀ r, _get_namespace split_uri s = Some r →
       r ∈ dom (namespaces (count_subject split_uri file_str a s)).
Proof.
  unfold count_subject. destruct (is_URIRef s) eqn:Hu.
  - pose proof (get_namespace_normalized s) as Hs.
    rewrite (truthy_normal _ Hs).
    destruct (_get_namespace split_uri s) as [r0|] eqn:E; [|split; [apply same_tables_refl|done]].
    destruct (_ensure_ns a (Some r0)) as [a1 k] eqn:Hens.
    pose proof (ensured_source _ _ _ _ Hs Hens r0 eq_refl) as Hr0.
    apply ensure_ns_spec in Hens as (Hst & _ & _).
    split.
    + eapply same_tables_trans; [exact Hst|apply update_stats_same].
    + intros r [= <-]. by apply (st_dom _ _ (update_stats_same _ k a1)).
  - split; [apply same_tables_refl|]. intros r. by destruct s.
Qed.

Lemma classify_subject_same a s p o :
  same_tables a (classify_subject split_uri a s p o).
Proof.
  unfold classify_subject.
  destruct (bool_decide (p = RDF_type) && is_URIRef s && is_URIRef o);
    [|apply same_tables_refl].
  destruct (truthy (_get_namespace split_uri s)); [|apply same_tables_refl].
  destruct (_ensure_ns a (_get_namespace split_uri s)) as [a1 k] eqn:Hens.
  apply ensure_ns_spec in Hens as (Hst & _ & _).
  eapply same_tables_trans; [exact Hst|].
  repeat case_bool_decide; apply update_stats_same.
Qed.

Lemma process_triple_advances file_str a t :
  advances a (process_triple split_uri file_str a t) (fired_rules split_uri t) [].
Proof.
  destruct t as [[s p] o]. unfold process_triple.
  destruct (count_subject_same file_str a s) as [H1 Hsrc].
  pose proof (classify_subject_same (count_subject split_uri file_str a s) s p o) as H2.
  apply (advances_after_same _ _ _ _ _ (same_tables_trans _ _ _ H1 H2)).
  apply process_dependencies_advances.
  intros r Hr. apply (st_dom _ _ H2). by apply Hsrc.
Qed.

Lemma process_import_advances onto_ns a imported :
  normalize_ns onto_ns = onto_ns →
  (∀ r, onto_ns = Some r → r ∈ dom (namespaces a)) →
  advances a (process_import split_uri onto_ns a imported) []
    (if is_URIRef imported
     then cross onto_ns (_get_namespace split_uri imported) else []).
Proof.
  intros Honto Hsrc. unfold process_import.
  destruct (is_URIRef imported); [|apply advances_refl].
  pose proof (get_namespace_normalized imported) as Himp.
  destruct (_ensure_ns a (_get_namespace split_uri imported)) as [a1 k] eqn:Hens.
  pose proof (ensured_source _ _ _ _ Himp Hens) as Hdst.
  apply ensure_ns_spec in Hens as (Hst & _ & _).
  apply (advances_after_same _ _ _ _ _ Hst).
  rewrite <-Honto, <-Himp at 2. apply register_import_advances.
  - intros r. rewrite Honto. intros Hr. apply (st_dom _ _ Hst). by apply Hsrc.
  - intros r. rewrite Himp. apply Hdst.
Qed.

Lemma process_ontology_advances file_str g a onto :
  advances a (process_ontology split_uri file_str g a onto) []
           (import_decls split_uri g onto).
Proof.
  unfold process_ontology, import_decls.
  destruct (is_URIRef onto); simpl; [|apply advances_refl].
  pose proof (get_namespace_normalized onto) as Honto.
  destruct (_ensure_ns a (_get_namespace split_uri onto)) as [a1 k] eqn:Hens.
  pose proof (ensured_source _ _ _ _ Honto Hens) as Hsrc.
  apply ensure_ns_spec in Hens as (Hst & _ & _).
  apply (advances_after_same _ _ _ _ _
           (same_tables_trans _ _ _ Hst
              (update_stats_same (OntologyStats.add_file file_str) k a1))).
  apply (advances_foldl_imps
           (match _get_namespace split_uri onto with Some r => {[r]} | None => ∅ end)).
  - intros a' imported HD. apply process_import_advances; [done|].
    intros r Hr. rewrite Hr in HD. set_solver.
  - destruct (_get_namespace split_uri onto) as [r|] eqn:E; [|set_solver].
    pose proof (Hsrc r eq_refl). simpl. rewrite dom_alter_L. set_solver.
Qed.

Lemma process_rdf_graph_advances a file_path g :
  advances a (process_rdf_graph split_uri a file_path g)
           (g ≫= fired_rules split_uri) (graph_imports split_uri g).
Proof.
  unfold process_rdf_graph, graph_imports.
  rewrite <-(app_nil_r (g ≫= fired_rules split_uri)).
  rewrite <-(app_nil_l (subjects g RDF_type OWL_Ontology ≫= import_decls split_uri g)).
  eapply advances_trans.
  - apply advances_foldl_rules. intros a' t. apply process_triple_advances.
  - apply (advances_foldl_imps ∅); [|set_solver].
    intros a' onto _. apply process_ontology_advances.
Qed.

Lemma process_xsd_import_advances tns a ns :
  (∀ r, normalize_ns (Some tns) = Some r → r ∈ dom (namespaces a)) →
  advances a (process_xsd_import tns a ns) []
           (cross (normalize_ns (Some tns)) (normalize_ns ns)).
Proof.
  intros Hsrc. unfold process_xsd_import.
  pose proof (normalize_ns_idem ns) as Hns.
  rewrite (truthy_normal _ Hns).
  destruct (normalize_ns ns) as [d|] eqn:E;
    [|rewrite cross_None_r; apply advances_refl].
  destruct (_ensure_ns a (Some d)) as [a1 k] eqn:Hens.
  pose proof (ensured_source _ _ _ _ Hns Hens d eq_refl) as Hdst.
  apply ensure_ns_spec in Hens as (Hst & _ & _).
  apply (advances_after_same _ _ _ _ _ Hst).
  pose proof (register_import_advances a1 (Some tns) (Some d)) as Hreg.
  rewrite Hns in Hreg. apply Hreg.
  - intros r Hr. apply (st_dom _ _ Hst). by apply Hsrc.
  - by intros r [= <-].
Qed.

Lemma process_xsd_advances a file_path parsed :
  advances a (process_xsd a file_path parsed) []
    (match parsed with Some root => xsd_imports file_path root | None => [] end).
Proof.
  destruct parsed as [root|]; simpl; [|apply advances_refl].
  unfold xsd_imports.
  destruct (_ensure_ns a (Some (xsd_source file_path root))) as [a1 k] eqn:Hens.
  apply ensure_ns_spec in Hens as (Hst & Hk & Hkey).
  apply (advances_after_same _ _ _ _ _
           (same_tables_trans _ _ _ Hst
              (update_stats_same (OntologyStats.add_file file_path) k a1))).
  apply (advances_foldl_imps
           (match normalize_ns (Some (xsd_source file_path root)) with
            | Some r => {[r]} | None => ∅ end)).
  - intros a' ns HD. apply process_xsd_import_advances.
    intros r Hr. rewrite Hr in HD. set_solver.
  - destruct (normalize_ns (Some (xsd_source file_path root))) as [r|] eqn:E; [|set_solver].
    rewrite <-(Hkey r eq_refl). simpl. rewrite dom_alter_L. set_solver.
Qed.

Lemma process_file_advances st f :
  advances st.1.2 (process_file split_uri st f).1.2
           (file_rules split_uri f) (file_imports split_uri f).
Proof.
  destruct st as [[merged a] metadata_by_file].
  unfold process_file, file_rules, file_imports.
  destruct (file_content f) as [parsed|[g|]]; simpl.
  - apply process_xsd_advances.
  - destruct g as [|t g]; [apply advances_refl|].
    apply process_rdf_graph_advances.
  - apply advances_refl.
Qed.

Lemma run_files_advances_from st files :
  advances st.1.2 (foldl (process_file split_uri) st files).1.2
           (corpus_rules split_uri files) (corpus_imports split_uri files).
Proof.
  revert st. induction files as [|f files IH]; intros st; [apply advances_refl|].
  apply (advances_trans _ _ _ _ _ _ _ (process_file_advances st f)). apply IH.
Qed.

Lemma new_analyzer_run_inv : run_inv new_analyzer.
Proof.
  split; simpl; set_solver.
Qed.

Lemma final_analyzer_advances files :
  advances new_analyzer (final_analyzer split_uri files)
           (corpus_rules split_uri files) (corpus_imports split_uri files).
Proof. apply (run_files_advances_from ([], new_analyzer, ∅)). Qed.

Lemma final_analyzer_run_inv files : run_inv (final_analyzer split_uri files).
Proof. apply (adv_inv _ _ _ _ (final_analyzer_advances files)), new_analyzer_run_inv. Qed.

(** [attach_descriptions_from_graph] only touches the statistics store. *)
Lemma attach_description_same merged a onto :
  same_tables a (attach_description split_uri merged a onto).
Proof.
  unfold attach_description. destruct (is_URIRef onto); simpl; [|apply same_tables_refl].
  destruct (_ensure_ns a (_get_namespace split_uri onto)) as [a1 k] eqn:Hens.
  apply ensure_ns_spec in Hens as (Hst & _ & _).
  eapply same_tables_trans; [exact Hst|].
  destruct (first_nonempty _ _ _) as [|l0 ?];
    destruct (first_nonempty _ _ _) as [|d0 ?];
    repeat (first [apply same_tables_refl | apply update_stats_same
                  | eapply same_tables_trans; [apply update_stats_same|]]).
Qed.

Lemma attach_descriptions_same a merged_graph :
  same_tables a (attach_descriptions_from_graph split_uri a merged_graph).
Proof.
  unfold attach_descriptions_from_graph.
  generalize (subjects (graph_triples merged_graph) RDF_type OWL_Ontology).
  intros l. revert a. induction l as [|onto l IH]; intros a; [apply same_tables_refl|].
  simpl. eapply same_tables_trans; [apply attach_description_same|apply IH].
Qed.

End RunFacts.

(** ** The result document *)

Section DocFacts.

Variable split_uri : string → option (string * string).

Lemma build_result_document_fields a0 merged_graph :
  let a := (build_result_document split_uri a0 merged_graph).1 in
  let doc := (build_result_document split_uri a0 merged_graph).2 in
  let id_map := _build_id_map a merged_graph in
  a = attach_descriptions_from_graph split_uri a0 merged_graph ∧
  graph_nodes doc
  = (make_node a id_map (incoming_of a) (outgoing_of a) <$> sorted_items (namespaces a)) ∧
  graph_edges doc = (map_to_list (final_edge_map a id_map)).*2.
Proof. done. Qed.

Lemma sorted_items_perm {V} (m : gmap string V) : sorted_items m ≡ₚ map_to_list m.
Proof. apply merge_sort_Permutation. Qed.

Lemma node_namespaces a id_map incoming outgoing :
  Node.namespace <$> (make_node a id_map incoming outgoing <$> sorted_items (namespaces a))
  ≡ₚ (map_to_list (namespaces a)).*1.
Proof.
  rewrite <-list_fmap_compose, <-(sorted_items_perm (namespaces a)).
  assert (Node.namespace ∘ make_node a id_map incoming outgoing
            <$> sorted_items (namespaces a)
          = (sorted_items (namespaces a)).*1) as ->; [|done].
  apply list_fmap_ext. by intros _ [ns stats] _.
Qed.

Lemma node_of_item a id_map incoming outgoing n :
  n ∈ (make_node a id_map incoming outgoing <$> sorted_items (namespaces a)) →
  ∃ ns stats, namespaces a !! ns = Some stats ∧
              n = make_node a id_map incoming outgoing (ns, stats).
Proof.
  intros ([ns stats] & -> & Hin)%list_elem_of_fmap.
  rewrite sorted_items_perm in Hin. apply elem_of_map_to_list in Hin. eauto.
Qed.

Lemma final_edge_map_wf a id_map : edge_map_wf (final_edge_map a id_map).
Proof.
  unfold final_edge_map.
  destruct (add_import_edges_spec id_map (imports a)
              (add_reference_edges id_map (references a) ∅)) as (_ & Hwf & _).
  apply Hwf, add_reference_edges_wf. intros k e. by rewrite lookup_empty.
Qed.

Lemma final_edge_map_total f a id_map :
  key_total f (final_edge_map a id_map)
  = weight_sum (λ s d, linked id_map s d && f (id_of id_map s) (id_of id_map d))
               (references a).
Proof.
  unfold final_edge_map.
  destruct (add_import_edges_spec id_map (imports a)
              (add_reference_edges id_map (references a) ∅)) as (Htot & _).
  rewrite Htot, add_reference_edges_total.
  unfold key_total at 1. rewrite msum_empty. lia.
Qed.

Lemma has_id_Some id_map ns :
  has_id id_map ns = true ↔ ∃ i, id_map !! ns = Some i ∧ i ≠ "".
Proof.
  unfold has_id. destruct (id_map !! ns) as [[|c i]|]; simpl; split;
    try done; try (intros (j & [= <-] & Hj); done); try (intros (j & [=] & _)).
  intros _. eauto.
Qed.

End DocFacts.

(** C1 (amended). After any run, the node list has one node per namespace
    of the statistics store and no namespace twice; this covers both ends
    of every import and the source of every reference.  The destination of
    a reference need not have a node. *)
Theorem C1_nodes_cover_registered split_uri files merged_graph :
  let a0 := final_analyzer split_uri files in
  let doc := (build_result_document split_uri a0 merged_graph).2 in
  NoDup (Node.namespace <$> graph_nodes doc) ∧
  ∀ ns, ns ∈ dom (namespaces a0) ∨ in_import_table a0 ns ∨ ns ∈ dom (references a0) →
        ns ∈ Node.namespace <$> graph_nodes doc.
Proof.
  intros a0 doc.
  destruct (build_result_document_fields split_uri a0 merged_graph) as (Ha & Hnodes & _).
  fold doc in Hnodes. rewrite Hnodes.
  split; [rewrite node_namespaces; apply NoDup_fst_map_to_list|].
  pose proof (attach_descriptions_same split_uri a0 merged_graph) as Hst.
  rewrite <-Ha in Hst.
  pose proof (final_analyzer_run_inv split_uri files) as Hinv. fold a0 in Hinv.
  intros ns Hns.
  assert (ns ∈ dom (namespaces a0)) as Hreg.
  { destruct Hns as [Hns|[[Hns|(s & dsts & Hs & Hd)]|Hns]].
    - done.
    - by apply (inv_imp_src _ Hinv).
    - by apply (inv_imp_dst _ Hinv s dsts).
    - by apply (inv_ref_src _ Hinv). }
  apply (st_dom _ _ Hst), elem_of_dom in Hreg as [stats Hstats].
  rewrite node_namespaces.
  apply list_elem_of_fmap. exists (ns, stats). split; [done|].
  by apply elem_of_map_to_list.
Qed.

Lemma C1_witness :
  "http://b.org/types" ∈
    Node.namespace <$> graph_nodes
      (build_result_document sample_split_uri
         (final_analyzer sample_split_uri xsd_corpus) (mkGraph [] [])).2.
Proof.
  apply (proj2 (C1_nodes_cover_registered sample_split_uri xsd_corpus (mkGraph [] []))).
  right. left. right. exists "http://a.org/main", {["http://b.org/types"]}.
  split; [vm_compute; reflexivity|]. by apply elem_of_singleton.
Defined.

(** C1 fails as stated: the namespace of the predicate of a triple enters
    the reference table as a destination, but has no statistics entry and
    no node. *)
Lemma C1_counterexample :
  ¬ nodes_cover_tables (final_analyzer sample_split_uri single_corpus)
      (build_result_document sample_split_uri
         (final_analyzer sample_split_uri single_corpus) (mkGraph [] [])).2.
Proof.
  intros [_ Hcover].
  specialize (Hcover "http://www.w3.org/2000/01/rdf-schema").
  assert (bool_decide ("http://www.w3.org/2000/01/rdf-schema" ∈
            Node.namespace <$> graph_nodes
              (build_result_document sample_split_uri
                 (final_analyzer sample_split_uri single_corpus) (mkGraph [] [])).2)
          = false) as Hno by (vm_compute; reflexivity).
  apply bool_decide_eq_false in Hno. apply Hno, Hcover.
  right. left. right.
  exists "http://a.org", {["http://www.w3.org/2000/01/rdf-schema" := 1]}.
  split; [vm_compute; reflexivity|].
  rewrite dom_singleton_L. by apply elem_of_singleton.
Qed.

Section ConservationFacts.

Variable split_uri : string → option (string * string).

Lemma final_weight_sum P files :
  weight_sum P (references (final_analyzer split_uri files))
  = count_pairs P (corpus_rules split_uri files)
    + count_pairs P (corpus_imports split_uri files).
Proof.
  rewrite (adv_weight _ _ _ _ (final_analyzer_advances split_uri files) P).
  simpl. rewrite weight_sum_empty. lia.
Qed.

Lemma built_tables a0 merged_graph :
  same_tables a0 (build_result_document split_uri a0 merged_graph).1.
Proof. apply attach_descriptions_same. Qed.

Lemma edge_total_built (P : Edge.t → bool) f a0 merged_graph :
  (∀ e, P e = f (Edge.source e) (Edge.target e)) →
  let a := (build_result_document split_uri a0 merged_graph).1 in
  let id_map := _build_id_map a merged_graph in
  edge_total P (graph_edges (build_result_document split_uri a0 merged_graph).2)
  = weight_sum (λ s d, linked id_map s d && f (id_of id_map s) (id_of id_map d))
               (references a0).
Proof.
  intros HP a id_map.
  destruct (build_result_document_fields split_uri a0 merged_graph) as (_ & _ & ->).
  rewrite (edge_total_key_total P f) by (apply final_edge_map_wf || done).
  rewrite final_edge_map_total.
  by rewrite (st_refs _ _ (built_tables a0 merged_graph)).
Qed.

End ConservationFacts.

(** C3 (amended).  The weights of the reference table add up to the number
    of (triple, rule) pairs that fired plus the number of import
    declarations that were registered; the edge list carries, of these,
    the ones whose source and destination both have a usable identifier. *)
Theorem C3_edge_weight_conservation split_uri files merged_graph :
  let a0 := final_analyzer split_uri files in
  let a := (build_result_document split_uri a0 merged_graph).1 in
  let doc := (build_result_document split_uri a0 merged_graph).2 in
  let id_map := _build_id_map a merged_graph in
  weight_sum (λ _ _, true) (references a0)
  = Z.of_nat (length (corpus_rules split_uri files))
    + Z.of_nat (length (corpus_imports split_uri files)) ∧
  edge_total (λ _, true) (graph_edges doc)
  = count_pairs (linked id_map) (corpus_rules split_uri files)
    + count_pairs (linked id_map) (corpus_imports split_uri files).
Proof.
  intros a0 a doc id_map. split.
  - unfold a0. by rewrite final_weight_sum, !count_pairs_length.
  - unfold doc. rewrite (edge_total_built split_uri (λ _, true) (λ _ _, true)) by done.
    fold a id_map. unfold a0. rewrite <-final_weight_sum.
    apply weight_sum_ext. intros. apply andb_true_r.
Qed.

(** C3 fails as stated: one rule fires on the only triple, towards the
    namespace of its predicate, which has no node; the edge list is
    empty. *)
Lemma C3_counterexample :
  ¬ edges_count_rules sample_split_uri single_corpus
      (build_result_document sample_split_uri
         (final_analyzer sample_split_uri single_corpus) (mkGraph [] [])).2.
Proof. unfold edges_count_rules. vm_compute. discriminate. Qed.

(** After any run, every pair of the import table whose two namespaces
    have a non-empty identifier has its edge in the edge list, with a
    reference count of at least 1 and the import flag set. *)
Lemma linked_import_has_edge split_uri files merged_graph s dsts d :
  let a0 := final_analyzer split_uri files in
  let a := (build_result_document split_uri a0 merged_graph).1 in
  let doc := (build_result_document split_uri a0 merged_graph).2 in
  let id_map := _build_id_map a merged_graph in
  imports a0 !! s = Some dsts → d ∈ dsts →
  has_id id_map s = true → has_id id_map d = true →
  import_has_edge id_map doc s d.
Proof.
  intros a0 a doc id_map Hs Hd His Hid.
  pose proof (built_tables split_uri a0 merged_graph) as Hst. fold a in Hst.
  pose proof (final_analyzer_run_inv split_uri files) as Hinv. fold a0 in Hinv.
  destruct (add_import_edges_spec id_map (imports a)
              (add_reference_edges id_map (references a) ∅)) as (_ & _ & _ & Hflag).
  fold (final_edge_map a id_map) in Hflag.
  destruct (Hflag s dsts d) as (e & He & Himp).
  { by rewrite (st_imps _ _ Hst). }
  { done. }
  { unfold linked. by rewrite His, Hid. }
  exists e.
  pose proof (final_edge_map_wf a id_map _ _ He) as [= Hsrc Htgt].
  split; [|split; [done|split; [done|split; [|done]]]].
  - unfold doc.
    destruct (build_result_document_fields split_uri a0 merged_graph) as (_ & _ & ->).
    apply list_elem_of_fmap. exists ((id_of id_map s, id_of id_map d), e).
    split; [done|]. by apply elem_of_map_to_list.
  - destruct (inv_imp_ref _ Hinv s dsts d Hs Hd) as (t & c & Ht & Hc).
    pose proof (inv_weight _ Hinv s t d c Ht Hc) as Hc1.
    assert (Edge.reference_count e
            = key_total (λ i j, bool_decide ((i, j) = (id_of id_map s, id_of id_map d)))
                        (final_edge_map a id_map)) as ->.
    { unfold key_total.
      rewrite (msum_ext _ (λ k e, if bool_decide (k = (id_of id_map s, id_of id_map d))
                                  then Edge.reference_count e else 0))
        by (by intros [i j] ? _).
      by rewrite msum_at_key, He. }
    rewrite final_edge_map_total, (st_refs _ _ Hst).
    etrans; [exact Hc1|].
    apply (weight_sum_entry_le _ _ s t d c); [|done|done|].
    + intros s' t' d' c' Hs' Hd'.
      pose proof (inv_weight _ Hinv s' t' d' c' Hs' Hd'). lia.
    + unfold linked. rewrite His, Hid. simpl. by apply bool_decide_eq_true.
Qed.

(** A namespace manager that binds the empty prefix to the destination of
    an import gives it the empty identifier, and the edge is skipped. *)
Lemma empty_prefix_drops_edge :
  let a0 := final_analyzer sample_split_uri xsd_corpus in
  let merged_graph := mkGraph [] [("", "http://b.org/types")] in
  ¬ imports_are_edges a0
      (_build_id_map (build_result_document sample_split_uri a0 merged_graph).1 merged_graph)
      (build_result_document sample_split_uri a0 merged_graph).2.
Proof.
  intros a0 merged_graph Hclaim.
  destruct (Hclaim "http://a.org/main" {["http://b.org/types"]} "http://b.org/types")
    as (e & He & _).
  - vm_compute. reflexivity.
  - by apply elem_of_singleton.
  - vm_compute in He. by apply elem_of_nil in He.
Qed.

(** ** Identifiers are not empty *)

Section IdentifierFacts.

Lemma make_short_id_nonempty ns k : _make_short_id ns k ≠ "".
Proof. rewrite make_short_id_derive. by destruct (derive_short_id ns). Qed.

Lemma fallback_fold_nonempty l (m : gmap string string) c :
  (∀ k v, m !! k = Some v → v ≠ "") →
  ∀ k v, (foldl fallback_id (m, c) l).1 !! k = Some v → v ≠ "".
Proof.
  revert m c. induction l as [|x l IH]; intros m c Hm; simpl; [done|].
  case_bool_decide; apply IH; [exact Hm|].
  intros k v [[_ <-]|[_ Hk]]%lookup_insert_Some;
    [apply make_short_id_nonempty|by eapply Hm].
Qed.

Lemma use_prefix_fold_nonempty a (bs : list (string * string)) (m : gmap string string) :
  (∀ b, b ∈ bs → b.1 ≠ "") →
  (∀ k v, m !! k = Some v → v ≠ "") →
  ∀ k v, foldl (use_prefix a) m bs !! k = Some v → v ≠ "".
Proof.
  revert m. induction bs as [|[prefix ns] bs IH]; intros m Hbs Hm; [exact Hm|].
  cbn [foldl].
  apply IH; [intros b Hb; by apply Hbs, list_elem_of_further|].
  assert (prefix ≠ "") as Hprefix by apply (Hbs (prefix, ns)), list_elem_of_here.
  unfold use_prefix.
  destruct (normalize_ns (Some ns)) as [ns_str|]; [|exact Hm].
  destruct (truthy (Some ns_str) && bool_decide (ns_str ∈ dom (namespaces a))
            && negb (bool_decide (ns_str ∈ dom m))); [|exact Hm].
  intros k v [[_ <-]|[_ Hk]]%lookup_insert_Some; [done|by eapply Hm].
Qed.

Lemma build_id_map_nonempty a merged_graph ns :
  (∀ b, b ∈ graph_prefixes merged_graph → b.1 ≠ "") →
  ns ∈ dom (namespaces a) →
  has_id (_build_id_map a merged_graph) ns = true.
Proof.
  intros Hbs Hns. rewrite <-(build_id_map_dom a merged_graph) in Hns.
  apply elem_of_dom in Hns as [v Hv]. apply has_id_Some. exists v. split; [done|].
  revert Hv. unfold _build_id_map. apply fallback_fold_nonempty.
  apply use_prefix_fold_nonempty; [done|]. intros k v'. by rewrite lookup_empty.
Qed.

End IdentifierFacts.

(** C6. After any run, every pair of the import table has its edge in the
    edge list, with a reference count of at least 1 and the import flag
    set.  The merged graph that [analyze_ontologies] hands over is created
    empty and filled with [+=], which copies triples only: its namespace
    manager lists the bindings every graph starts with, none of which has
    the empty prefix.  That is the hypothesis on [graph_prefixes]. *)
Theorem C6_imports_are_edges split_uri files merged_graph :
  (∀ b, b ∈ graph_prefixes merged_graph → b.1 ≠ "") →
  let a0 := final_analyzer split_uri files in
  let a := (build_result_document split_uri a0 merged_graph).1 in
  let doc := (build_result_document split_uri a0 merged_graph).2 in
  imports_are_edges a0 (_build_id_map a merged_graph) doc.
Proof.
  intros Hbs a0 a doc s dsts d Hs Hd.
  pose proof (built_tables split_uri a0 merged_graph) as Hst. fold a in Hst.
  pose proof (final_analyzer_run_inv split_uri files) as Hinv. fold a0 in Hinv.
  apply (linked_import_has_edge split_uri files merged_graph s dsts d Hs Hd).
  - apply build_id_map_nonempty; [done|].
    apply (st_dom _ _ Hst), (inv_imp_src _ Hinv), elem_of_dom. eauto.
  - apply build_id_map_nonempty; [done|].
    by apply (st_dom _ _ Hst), (inv_imp_dst _ Hinv s dsts Hs).
Qed.

Lemma C6_witness :
  import_has_edge
    (_build_id_map (build_result_document sample_split_uri
                      (final_analyzer sample_split_uri xsd_corpus)
                      (mkGraph [] [("owl", OWL_ns); ("t", "http://b.org/types#")])).1
                   (mkGraph [] [("owl", OWL_ns); ("t", "http://b.org/types#")]))
    (build_result_document sample_split_uri
       (final_analyzer sample_split_uri xsd_corpus)
       (mkGraph [] [("owl", OWL_ns); ("t", "http://b.org/types#")])).2
    "http://a.org/main" "http://b.org/types".
Proof.
  apply (C6_imports_are_edges sample_split_uri xsd_corpus
           (mkGraph [] [("owl", OWL_ns); ("t", "http://b.org/types#")]))
    with (dsts := {["http://b.org/types"]}).
  - intros b Hb. simpl in Hb.
    repeat (apply elem_of_cons in Hb as [->|Hb]); [done|done|by apply elem_of_nil in Hb].
  - vm_compute. reflexivity.
  - by apply elem_of_singleton.
Defined.

(** C2 (amended).  After any run, when the identifiers are non-empty and
    no two namespaces share one, the incoming total of a node is the sum
    of [reference_count] over the edges that point to its identifier, and
    its outgoing total is the sum over the edges that leave its identifier
    plus the weight of its references to namespaces without a statistics
    entry, which have no edge. *)
Theorem C2_reference_totals split_uri files merged_graph :
  let a0 := final_analyzer split_uri files in
  let a := (build_result_document split_uri a0 merged_graph).1 in
  let doc := (build_result_document split_uri a0 merged_graph).2 in
  let id_map := _build_id_map a merged_graph in
  (∀ n1 n2 i, id_map !! n1 = Some i → id_map !! n2 = Some i → n1 = n2) →
  (∀ ns, id_map !! ns ≠ Some "") →
  ∀ n, n ∈ graph_nodes doc →
    Node.incoming_references n
    = edge_total (λ e, bool_decide (Edge.target e = Node.id n)) (graph_edges doc) ∧
    Node.outgoing_references n
    = edge_total (λ e, bool_decide (Edge.source e = Node.id n)) (graph_edges doc)
      + weight_sum (λ s d, bool_decide (s = Node.namespace n)
                           && negb (bool_decide (d ∈ dom (namespaces a))))
                   (references a0).
Proof.
  intros a0 a doc id_map Hinj Hne n Hn.
  pose proof (built_tables split_uri a0 merged_graph) as Hst. fold a in Hst.
  pose proof (final_analyzer_run_inv split_uri files) as Hinv. fold a0 in Hinv.
  destruct (build_result_document_fields split_uri a0 merged_graph) as (_ & Hnodes & _).
  fold a doc id_map in Hnodes. rewrite Hnodes in Hn.
  apply node_of_item in Hn as (ns & stats & Hstats & ->).
  assert (∀ x, has_id id_map x = bool_decide (x ∈ dom (namespaces a))) as Hhas.
  { intros x. unfold id_map. rewrite <-(build_id_map_dom a merged_graph). fold id_map.
    destruct (has_id id_map x) eqn:Hx; symmetry.
    - apply has_id_Some in Hx as (i & Hi & _).
      apply bool_decide_eq_true, elem_of_dom. eauto.
    - apply bool_decide_eq_false. intros [i Hi]%elem_of_dom.
      assert (has_id id_map x = true); [|congruence].
      apply has_id_Some. exists i. split; [done|]. intros ->. by apply (Hne x). }
  assert (∀ x y, has_id id_map x = true → has_id id_map y = true →
                 id_of id_map x = id_of id_map y → x = y) as Hid_inj.
  { intros x y (i & Hi & _)%has_id_Some (j & Hj & _)%has_id_Some.
    unfold id_of. rewrite Hi, Hj. simpl. intros ->. by eapply Hinj. }
  assert (has_id id_map ns = true) as Hns.
  { rewrite Hhas. apply bool_decide_eq_true, elem_of_dom. eauto. }
  assert (∀ s t, references a0 !! s = Some t → has_id id_map s = true) as Hsrc.
  { intros s t Hs. rewrite Hhas. apply bool_decide_eq_true.
    apply (st_dom _ _ Hst), (inv_ref_src _ Hinv), elem_of_dom. eauto. }
  assert (Node.id (make_node a id_map (incoming_of a) (outgoing_of a) (ns, stats))
          = id_of id_map ns) as Hid
    by (simpl; unfold id_of; rewrite lookup_total_alt; reflexivity).
  rewrite Hid. simpl Node.incoming_references. simpl Node.outgoing_references.
  simpl Node.namespace.
  assert (default 0 (incoming_of a !! ns)
          = weight_sum (λ _ d, bool_decide (d = ns)) (references a0)) as ->
    by (by rewrite incoming_of_lookup, Hstats, (st_refs _ _ Hst)).
  assert (default 0 (outgoing_of a !! ns)
          = weight_sum (λ s _, bool_decide (s = ns)) (references a0)) as ->
    by (by rewrite outgoing_of_lookup, Hstats, (st_refs _ _ Hst)).
  unfold doc.
  rewrite (edge_total_built split_uri _ (λ _ j, bool_decide (j = id_of id_map ns))) by done.
  rewrite (edge_total_built split_uri _ (λ i _, bool_decide (i = id_of id_map ns))) by done.
  fold a id_map. split.
  - apply weight_sum_ext. intros s t d c Hs Hd.
    unfold linked. rewrite (Hsrc s t Hs). simpl.
    destruct (decide (d = ns)) as [->|Hdn].
    + by rewrite Hns, !bool_decide_eq_true_2.
    + rewrite bool_decide_eq_false_2 by done.
      destruct (has_id id_map d) eqn:Hd'; simpl; [|done].
      symmetry. apply bool_decide_eq_false. intros Heq. by apply Hdn, Hid_inj.
  - rewrite (weight_sum_split (λ s _, bool_decide (s = ns))
               (λ _ d, bool_decide (d ∈ dom (namespaces a)))).
    f_equal. apply weight_sum_ext. intros s t d c Hs Hd.
    unfold linked. rewrite (Hsrc s t Hs), <-Hhas. simpl.
    destruct (has_id id_map d); [|by rewrite !andb_false_r].
    rewrite !andb_true_r.
    destruct (decide (s = ns)) as [->|Hsn].
    + by rewrite !bool_decide_eq_true_2.
    + rewrite bool_decide_eq_false_2 by done.
      symmetry. apply bool_decide_eq_false. intros Heq.
      apply Hsn, Hid_inj; [by eapply Hsrc|done|done].
Qed.

Lemma C2_witness :
  let a0 := final_analyzer sample_split_uri linked_corpus in
  let a := (build_result_document sample_split_uri a0 (mkGraph [] [])).1 in
  let doc := (build_result_document sample_split_uri a0 (mkGraph [] [])).2 in
  Forall (λ n,
      Node.incoming_references n
      = edge_total (λ e, bool_decide (Edge.target e = Node.id n)) (graph_edges doc) ∧
      Node.outgoing_references n
      = edge_total (λ e, bool_decide (Edge.source e = Node.id n)) (graph_edges doc)
        + weight_sum (λ s d, bool_decide (s = Node.namespace n)
                             && negb (bool_decide (d ∈ dom (namespaces a))))
                     (references a0))
    (graph_nodes doc).
Proof.
  intros a0 a doc. apply Forall_forall.
  assert (_build_id_map a (mkGraph [] [])
          = <["http://a.org/one" := "one"]> {["http://b.org/two" := "two"]}) as Hmap
    by (vm_compute; reflexivity).
  apply (C2_reference_totals sample_split_uri linked_corpus (mkGraph [] [])).
  - fold a0 a. rewrite Hmap. intros n1 n2 i.
    rewrite !lookup_insert_Some, !lookup_singleton_Some.
    intros [[<- <-]|[_ [<- <-]]] [[<- ?]|[_ [<- ?]]]; done.
  - fold a0 a. rewrite Hmap. intros ns.
    rewrite lookup_insert_Some, lookup_singleton_Some.
    intros [[_ ?]|[_ [_ ?]]]; done.
Defined.

(** C2 fails as stated, in two ways.  The outgoing total counts the
    reference to the namespace of a predicate, which has no node and no
    edge; and when two namespaces share an identifier, the edges of one
    are summed into the totals of the other. *)
Lemma C2_counterexample :
  ¬ totals_match_edges
      (build_result_document sample_split_uri
         (final_analyzer sample_split_uri single_corpus) (mkGraph [] [])).2 ∧
  ¬ totals_match_edges
      (build_result_document sample_split_uri
         (final_analyzer sample_split_uri colliding_corpus) (mkGraph [] [])).2.
Proof.
  split; intros Hclaim; apply Forall_forall in Hclaim; vm_compute in Hclaim;
    apply Forall_cons in Hclaim as [[Hin Hout] _]; discriminate.
Qed.

(** ** The fallback of [_make_short_id] on the keys of a run *)

Section FallbackFacts.

Variable split_uri : string → option (string * string).



Lemma char_in_nonempty sep s : Str.char_in sep s = true → s ≠ "".
Proof. by destruct s. Qed.








End FallbackFacts.



(** ** Examples *)

Example normalize_ns_strips : normalize_ns (Some "http://a.org/onto#/") = Some "http://a.org/onto".
Proof. reflexivity. Qed.

Example normalize_ns_empty : normalize_ns (Some "") = None.
Proof. reflexivity. Qed.

Example get_namespace_hash :
  _get_namespace sample_split_uri (URIRef "http://a.org/onto#C") = Some "http://a.org/onto".
Proof. reflexivity. Qed.

Example get_namespace_literal : _get_namespace sample_split_uri (Literal "x") = None.
Proof. reflexivity. Qed.

Example make_short_id_owl : _make_short_id "http://www.w3.org/2002/07/owl" 7 = "owl".
Proof. reflexivity. Qed.

Example make_short_id_dots : _make_short_id "http://purl.org/My-Vocab.v2" 7 = "my_vocab_v2".
Proof. reflexivity. Qed.

Example make_short_id_fallback : _make_short_id "#" 7 = "ns7".
Proof. vm_compute. reflexivity. Qed.

Example matches_star_excluded :
  matches_keywords (<["keywords" := ["deprecated"; "energy"]]> ∅) ["*"; "-deprecated"] = false.
Proof. vm_compute. reflexivity. Qed.

Example matches_literal_token :
  matches_keywords (<["keywords" := ["energy"]]> ∅) ["energy"; "-deprecated"] = true.
Proof. vm_compute. reflexivity. Qed.

Example xsd_corpus_edges :
  graph_edges (build_result_document sample_split_uri
                 (final_analyzer sample_split_uri xsd_corpus) (mkGraph [] [])).2
  = [Edge.mk "main" "types" 1 true].
Proof. vm_compute. reflexivity. Qed.

Example sorted_desc_stable :
  sorted_desc snd [("a", 1); ("b", 2); ("c", 1); ("d", 2)]
  = [("b", 2); ("d", 2); ("a", 1); ("c", 1)].
Proof. reflexivity. Qed.

(** ** Further properties of the keyword patterns *)

Section PatternFacts.

Lemma star_in_cons p ps :
  bool_decide ("*" ∈ p :: ps) = bool_decide (p = "*") || bool_decide ("*" ∈ ps).
Proof.
  destruct (decide (p = "*")) as [->|Hp].
  - rewrite (bool_decide_eq_true_2 ("*" = "*")) by done.
    by rewrite (bool_decide_eq_true_2 ("*" ∈ "*" :: ps)) by left.
  - rewrite (bool_decide_eq_false_2 (p = "*")) by done. simpl.
    apply bool_decide_ext. rewrite elem_of_cons. naive_solver.
Qed.

Lemma classify_pattern_tokens includes excludes star p :
  classify_pattern (includes, excludes, star) p
  = ((includes ++ option_list (include_token p))%list,
     (excludes ++ option_list (exclude_token p))%list,
     star || bool_decide (p = "*")).
Proof.
  unfold classify_pattern, include_token, exclude_token.
  destruct (bool_decide (p = "*")); simpl.
  { by rewrite !app_nil_r, orb_true_r. }
  rewrite orb_false_r.
  destruct (Str.startswith "+" p); simpl; [by rewrite app_nil_r|].
  destruct (Str.startswith "-" p); simpl; by rewrite app_nil_r.
Qed.

Lemma omap_cons_tokens (f : string → option string) p ps :
  omap f (p :: ps) = (option_list (f p) ++ omap f ps)%list.
Proof. simpl. by destruct (f p). Qed.

Lemma classify_fold ps includes excludes star :
  foldl classify_pattern (includes, excludes, star) ps
  = ((includes ++ omap include_token ps)%list,
     (excludes ++ omap exclude_token ps)%list,
     star || bool_decide ("*" ∈ ps)).
Proof.
  revert includes excludes star.
  induction ps as [|p ps IH]; intros includes excludes star.
  - cbn [foldl omap list_omap].
    rewrite !app_nil_r, (bool_decide_eq_false_2 ("*" ∈ [])), orb_false_r; [done|].
    apply not_elem_of_nil.
  - cbn [foldl]. rewrite classify_pattern_tokens, IH.
    by rewrite star_in_cons, !omap_cons_tokens, <-!app_assoc, orb_assoc.
Qed.

Lemma none_in_keywords (kws : gset string) (excludes : list string) :
  existsb (λ e, bool_decide (e ∈ kws)) excludes = false ↔
  ∀ t, t ∈ excludes → t ∉ kws.
Proof.
  rewrite existsb_false_iff. apply forall_proper. intros t.
  by rewrite bool_decide_eq_false.
Qed.

Lemma no_keyword_excluded (kws : gset string) (excludes : list string) :
  existsb (λ e, bool_decide (e ∈ excludes)) (elements kws) = false ↔
  ∀ t, t ∈ excludes → t ∉ kws.
Proof.
  rewrite existsb_false_iff. split.
  - intros Hno t Ht Hk. apply elem_of_elements in Hk.
    specialize (Hno t Hk). by apply bool_decide_eq_false in Hno.
  - intros Hno t Ht. apply bool_decide_eq_false. intros Hex.
    apply (Hno t Hex). by apply elem_of_elements.
Qed.

Lemma all_in_keywords (kws : gset string) (includes : list string) :
  forallb (λ i, bool_decide (i ∈ kws)) includes = true ↔
  ∀ t, t ∈ includes → t ∈ kws.
Proof.
  induction includes as [|i includes IH]; simpl.
  - split; [intros _ t Ht; by apply elem_of_nil in Ht|done].
  - rewrite andb_true_iff, IH, bool_decide_eq_true. split.
    + intros [Hi Hrest] t [->|Ht]%elem_of_cons; auto.
    + intros Hall. split; [apply Hall; left|intros t Ht; apply Hall; by right].
Qed.

Lemma tokens_of_patterns (f : string → option string) (ps : list string)
    (Q : string → Prop) :
  (∀ t, t ∈ omap f ps → Q t) ↔ (∀ p t, p ∈ ps → f p = Some t → Q t).
Proof.
  split.
  - intros H p t Hp Hf. apply H, list_elem_of_omap. eauto.
  - intros H t (p & Hp & Hf)%list_elem_of_omap. eauto.
Qed.

End PatternFacts.

(** X1. [matches_keywords] holds exactly when the pattern list is empty, or
    when no forbidden token ([-token]) is a keyword of the record and,
    unless ['*'] is among the patterns, every required token ([+token] or a
    bare token) is one. *)
Theorem matches_keywords_spec (meta : metadata) (patterns : list string) :
  matches_keywords meta patterns = true ↔
  patterns = [] ∨
  ((∀ p t, p ∈ patterns → exclude_token p = Some t → t ∉ keywords_of meta) ∧
   ("*" ∈ patterns ∨
    ∀ p t, p ∈ patterns → include_token p = Some t → t ∈ keywords_of meta)).
Proof.
  unfold matches_keywords. destruct patterns as [|p ps] eqn:E.
  { split; [by left|done]. }
  rewrite <-E. rewrite classify_fold. cbn [app orb].
  assert (patterns ≠ []) as Hne by (by rewrite E).
  clear E. rewrite <-!tokens_of_patterns.
  destruct (bool_decide ("*" ∈ patterns)) eqn:Hstar.
  - apply bool_decide_eq_true in Hstar.
    rewrite negb_true_iff, none_in_keywords. naive_solver.
  - apply bool_decide_eq_false in Hstar.
    rewrite andb_true_iff, negb_true_iff, all_in_keywords, no_keyword_excluded.
    naive_solver.
Qed.

(** ** Further properties of the accumulator *)

Section AccumulatorFacts.

Lemma weight_of_add_ref s0 d0 w a s d :
  weight_of (add_ref s0 d0 w a) s d
  = weight_of a s d + (if bool_decide (s = s0 ∧ d = d0) then w else 0).
Proof.
  unfold weight_of, add_ref. simpl.
  destruct (decide (s = s0)) as [->|Hs].
  - rewrite lookup_insert_eq. simpl.
    destruct (decide (d = d0)) as [->|Hd].
    + rewrite lookup_insert_eq, bool_decide_eq_true_2 by done. simpl.
      by destruct (references a !! s0).
    + rewrite lookup_insert_ne, bool_decide_eq_false_2 by naive_solver.
      destruct (references a !! s0); simpl; [lia|]. rewrite lookup_empty. simpl. lia.
  - rewrite lookup_insert_ne, bool_decide_eq_false_2 by naive_solver. lia.
Qed.

Lemma elem_of_cross_cases src dst s d :
  (s, d) ∈ cross src dst ↔ src = Some s ∧ dst = Some d ∧ s ≠ d.
Proof.
  destruct src as [s0|], dst as [d0|]; simpl;
    try (rewrite elem_of_nil; naive_solver).
  case_bool_decide.
  - rewrite elem_of_nil. naive_solver.
  - rewrite list_elem_of_singleton. naive_solver.
Qed.

Lemma imports_of_add_imp s0 d0 a s d :
  d ∈ imports_of (add_imp s0 d0 a) s ↔ d ∈ imports_of a s ∨ (s = s0 ∧ d = d0).
Proof.
  unfold imports_of, add_imp. simpl.
  destruct (decide (s = s0)) as [->|Hs].
  - rewrite lookup_insert_eq. simpl. set_solver.
  - rewrite lookup_insert_ne by done. naive_solver.
Qed.

Lemma add_imp_twice s d a : imports (add_imp s d (add_imp s d a)) = imports (add_imp s d a).
Proof.
  unfold add_imp. simpl. rewrite lookup_insert_eq, insert_insert_eq. simpl.
  f_equal. set_solver.
Qed.

End AccumulatorFacts.

(** The body of the loop over the triples leaves the analyzer as it was
    when the subject does not resolve to a namespace (a blank node, a
    literal, a URI that cannot be split). *)
Lemma process_triple_unattributable split_uri file_str a s p o :
  _get_namespace split_uri s = None →
  process_triple split_uri file_str a (s, p, o) = a.
Proof.
  intros Hs.
  unfold process_triple, count_subject, classify_subject,
    _process_dependencies_for_triple.
  rewrite !get_namespace_guard, Hs. simpl.
  rewrite !andb_false_r. simpl.
  by destruct (is_URIRef s), (bool_decide (p = RDF_type)), (is_URIRef o).
Qed.

Lemma subject_in_graph (g : list triple) (p o s : term) :
  s ∈ subjects g p o → ∃ t, t ∈ g ∧ t.1.1 = s.
Proof.
  unfold subjects. intros (t & -> & [_ Hin]%list_elem_of_filter)%list_elem_of_fmap.
  by exists t.
Qed.

(** X2. Triples whose subject does not resolve to a namespace (a blank
    node, a literal, a URI that cannot be split) add nothing in the loop
    over the triples: on a graph all of whose subjects are unresolved,
    [process_rdf_graph] does what its [owl:Ontology] loop does alone (a
    URI reference typed as ontology is still filed, under ["unknown"]);
    when no subject is a URI reference the analyzer is left as it was. *)
Theorem process_rdf_graph_unattributable split_uri a file_path g :
  (∀ t, t ∈ g → _get_namespace split_uri t.1.1 = None) →
  process_rdf_graph split_uri a file_path g
  = foldl (process_ontology split_uri file_path g) a (subjects g RDF_type OWL_Ontology) ∧
  ((∀ t, t ∈ g → is_URIRef t.1.1 = false) →
   process_rdf_graph split_uri a file_path g = a).
Proof.
  intros Hg.
  assert (∀ l, (∀ t, t ∈ l → _get_namespace split_uri t.1.1 = None) →
               foldl (process_triple split_uri file_path) a l = a) as Hloop.
  { intros l. induction l as [|[[s p] o] l IH]; intros Hl; [done|]. cbn [foldl].
    rewrite process_triple_unattributable
      by apply (Hl (s, p, o)), list_elem_of_here.
    apply IH. intros t Ht. by apply Hl, list_elem_of_further. }
  assert (process_rdf_graph split_uri a file_path g
          = foldl (process_ontology split_uri file_path g) a
                  (subjects g RDF_type OWL_Ontology)) as Hfirst.
  { unfold process_rdf_graph. by rewrite Hloop. }
  split; [done|]. intros Hblank. rewrite Hfirst.
  assert (∀ onto, onto ∈ subjects g RDF_type OWL_Ontology → is_URIRef onto = false)
    as Hontos.
  { intros onto (t & Ht & <-)%subject_in_graph. by apply Hblank. }
  revert Hontos. generalize (subjects g RDF_type OWL_Ontology).
  intros l. induction l as [|onto l IH]; intros Hl; [done|]. cbn [foldl].
  unfold process_ontology at 2. rewrite (Hl onto) by apply list_elem_of_here. simpl.
  apply IH. intros o Ho. by apply Hl, list_elem_of_further.
Qed.

Lemma process_rdf_graph_unattributable_witness :
  process_rdf_graph sample_split_uri (final_analyzer sample_split_uri linked_corpus)
    "a/x.ttl" [(BNode "b0", RDF_type, OWL_Ontology); (BNode "b0", RDFS_label, Literal "x")]
  = final_analyzer sample_split_uri linked_corpus.
Proof.
  apply (process_rdf_graph_unattributable sample_split_uri
           (final_analyzer sample_split_uri linked_corpus) "a/x.ttl"
           [(BNode "b0", RDF_type, OWL_Ontology); (BNode "b0", RDFS_label, Literal "x")]).
  - intros t Ht.
    repeat (apply elem_of_cons in Ht as [->|Ht]); [done|done|by apply elem_of_nil in Ht].
  - intros t Ht.
    repeat (apply elem_of_cons in Ht as [->|Ht]); [done|done|by apply elem_of_nil in Ht].
Defined.

(** The ontology loop is not idle on unresolved subjects: a URI reference
    that cannot be split, typed as ontology, is filed under ["unknown"]. *)
Example unresolved_ontology_is_filed :
  is_Some (namespaces (process_rdf_graph sample_split_uri new_analyzer "a/x.ttl"
                         [(URIRef "abc", RDF_type, OWL_Ontology)]) !! "unknown").
Proof. vm_compute. eauto. Qed.

(** X3. Whatever [split_uri] does, a namespace returned by
    [_get_namespace] belongs to a URI reference, is not empty and has no
    trailing ['/'] or ['#']. *)
Theorem get_namespace_resolved split_uri t r :
  _get_namespace split_uri t = Some r →
  is_URIRef t = true ∧ r ≠ "" ∧ Str.rstrip "/#" r = r.
Proof.
  intros Hr. split; [by destruct t|].
  pose proof (get_namespace_normalized split_uri t) as Hn.
  rewrite Hr in Hn. by apply normalize_ns_Some in Hn.
Qed.

Lemma get_namespace_resolved_witness :
  is_URIRef (URIRef "http://a.org/onto#C") = true ∧
  "http://a.org/onto" ≠ "" ∧ Str.rstrip "/#" "http://a.org/onto" = "http://a.org/onto".
Proof.
  apply (get_namespace_resolved sample_split_uri (URIRef "http://a.org/onto#C")).
  reflexivity.
Defined.

(** X4. [_register_reference] adds [weight] to the entry of the normalized
    pair when both ends resolve and differ, and changes nothing else:
    every other weight, the statistics store and the import table stay;
    when an end is missing or both are equal the analyzer is returned as
    it was. *)
Theorem register_reference_weight a raw_src raw_dst weight :
  let a' := _register_reference a raw_src raw_dst weight in
  namespaces a' = namespaces a ∧ imports a' = imports a ∧
  (cross (normalize_ns raw_src) (normalize_ns raw_dst) = [] → a' = a) ∧
  ∀ s d, weight_of a' s d
         = weight_of a s d
           + (if bool_decide (normalize_ns raw_src = Some s ∧ normalize_ns raw_dst = Some d
                              ∧ s ≠ d)
              then weight else 0).
Proof.
  intros a'. subst a'. rewrite register_reference_eq.
  destruct (cross_cases (normalize_ns raw_src) (normalize_ns raw_dst))
    as [Hnil|(s0 & d0 & Hs & Hd & Hne & Hcross)].
  - rewrite Hnil. repeat split; try done. intros s d.
    rewrite bool_decide_eq_false_2; [lia|].
    rewrite <-elem_of_cross_cases, Hnil. apply not_elem_of_nil.
  - rewrite Hcross. repeat split; try done. intros s d.
    rewrite weight_of_add_ref, Hs, Hd. f_equal.
    destruct (decide (s = s0 ∧ d = d0)) as [[-> ->]|Hno].
    + by rewrite !bool_decide_eq_true_2.
    + rewrite !bool_decide_eq_false_2; [done| |done]. naive_solver.
Qed.

(** X5. [_register_import] puts the destination in the import set of the
    source and adds 1 to the weight of the pair, when both ends resolve
    and differ; nothing else changes.  Registering the same import again
    leaves the import table as it is (the weight grows again). *)
Theorem register_import_effect a raw_src raw_dst :
  let a' := _register_import a raw_src raw_dst in
  namespaces a' = namespaces a ∧
  imports (_register_import a' raw_src raw_dst) = imports a' ∧
  ∀ s d,
    (d ∈ imports_of a' s ↔
       d ∈ imports_of a s ∨
       (normalize_ns raw_src = Some s ∧ normalize_ns raw_dst = Some d ∧ s ≠ d)) ∧
    weight_of a' s d
    = weight_of a s d
      + (if bool_decide (normalize_ns raw_src = Some s ∧ normalize_ns raw_dst = Some d
                         ∧ s ≠ d)
         then 1 else 0).
Proof.
  intros a'. subst a'. rewrite !register_import_eq.
  destruct (cross_cases (normalize_ns raw_src) (normalize_ns raw_dst))
    as [Hnil|(s0 & d0 & Hs & Hd & Hne & Hcross)].
  - rewrite Hnil. repeat split; try done.
    + by left.
    + intros [?|Hin]; [done|]. apply elem_of_cross_cases in Hin.
      rewrite Hnil in Hin. by apply elem_of_nil in Hin.
    + rewrite bool_decide_eq_false_2; [lia|].
      rewrite <-elem_of_cross_cases, Hnil. apply not_elem_of_nil.
  - rewrite Hcross. split; [done|]. split; [apply add_imp_twice|].
    intros s d. rewrite Hs, Hd. split.
    + change (imports_of (add_ref s0 d0 1 (add_imp s0 d0 a)) s)
        with (imports_of (add_imp s0 d0 a) s).
      rewrite imports_of_add_imp. naive_solver.
    + rewrite weight_of_add_ref. f_equal.
      destruct (decide (s = s0 ∧ d = d0)) as [[-> ->]|Hno].
      * by rewrite !bool_decide_eq_true_2.
      * rewrite !bool_decide_eq_false_2; [done| |done]. naive_solver.
Qed.

(** X6. [_ensure_ns] never touches an existing statistics entry: the
    entries that were there are unchanged, a missing one is created with
    all counters at zero, the tables are left alone, and a second call
    with the same argument changes nothing.  The key is ["unknown"] when
    the argument does not normalize to a namespace. *)
Theorem ensure_ns_keeps a raw_ns :
  let a' := (_ensure_ns a raw_ns).1 in
  let k := (_ensure_ns a raw_ns).2 in
  k = default "unknown" (normalize_ns raw_ns) ∧
  references a' = references a ∧ imports a' = imports a ∧
  (∀ k' st, namespaces a !! k' = Some st → namespaces a' !! k' = Some st) ∧
  (namespaces a !! k = None → namespaces a' = <[k := OntologyStats.init k]> (namespaces a)) ∧
  _ensure_ns a' raw_ns = (a', k).
Proof.
  unfold _ensure_ns.
  set (ns := match normalize_ns match raw_ns with Some _ => raw_ns | None => Some "unknown" end
             with Some (String c r) => String c r | _ => "unknown" end).
  assert (ns = default "unknown" (normalize_ns raw_ns)) as Hns.
  { subst ns. destruct raw_ns as [x|]; [|done].
    destruct (normalize_ns (Some x)) as [r|] eqn:E; [|done].
    apply normalize_ns_Some in E as [Hne _]. by destruct r. }
  destruct (decide (ns ∈ dom (namespaces a))) as [Hin|Hnew]; simpl.
  - repeat split; try done.
    + intros Hnone. by apply not_elem_of_dom in Hnone.
    + by rewrite decide_True.
  - repeat split; try done.
    + intros k' st Hk'. rewrite lookup_insert_ne; [done|].
      intros <-. apply Hnew, elem_of_dom. eauto.
    + rewrite decide_True; [done|]. simpl. rewrite dom_insert_L. set_solver.
Qed.

(** ** Order of the node list and of the rankings *)

Section OrderFacts.

Global Instance item_le_total {V} : Total (@item_le V).
Proof. intros x y. unfold item_le. apply (total String.le). Qed.

Lemma insert_desc_sorted {A} (key : A → Z) x l :
  StronglySorted (λ a b, key b ≤ key a) l →
  StronglySorted (λ a b, key b ≤ key a) (insert_desc key x l).
Proof.
  induction l as [|y l IH]; intros Hl; simpl.
  - repeat constructor.
  - apply StronglySorted_cons in Hl as [Hy Hl]. case_bool_decide as Hlt.
    + apply StronglySorted_cons. split; [|by apply IH].
      rewrite insert_desc_perm. constructor; [lia|done].
    + apply StronglySorted_cons. split; [|by apply StronglySorted_cons].
      constructor; [lia|]. eapply Forall_impl; [exact Hy|]. simpl. intros z Hz. lia.
Qed.

Lemma sorted_desc_sorted {A} (key : A → Z) l :
  StronglySorted (λ a b, key b ≤ key a) (sorted_desc key l).
Proof.
  induction l as [|x l IH]; simpl; [constructor|]. by apply insert_desc_sorted.
Qed.

Lemma insert_desc_filter {A} (key : A → Z) v x (l : list A) :
  filter (λ y, key y = v) (insert_desc key x l) = filter (λ y, key y = v) (x :: l).
Proof.
  induction l as [|y l IH]; simpl; [done|].
  case_bool_decide as Hlt; [|done].
  rewrite (filter_cons _ y), IH, !(filter_cons _ x), (filter_cons _ y).
  destruct (decide (key x = v)), (decide (key y = v)); try done. lia.
Qed.

Lemma sorted_desc_filter {A} (key : A → Z) v (l : list A) :
  filter (λ y, key y = v) (sorted_desc key l) = filter (λ y, key y = v) l.
Proof.
  induction l as [|x l IH]; simpl; [done|].
  by rewrite insert_desc_filter, !filter_cons, IH.
Qed.

Lemma filter_fmap_total {A B} (f : A → B) (g : B → Z) (h : A → Z) v (l : list A) :
  (∀ x, g (f x) = h x) →
  filter (λ y, g y = v) (f <$> l) = f <$> filter (λ x, h x = v) l.
Proof.
  intros Hgh. induction l as [|x l IH]; [done|].
  rewrite fmap_cons, !filter_cons, IH, Hgh.
  by destruct (decide (h x = v)).
Qed.

End OrderFacts.

(** X7. Each ranking lists every node once, by non-increasing total, and
    nodes of equal total keep the order of the node list (the sort is
    stable). *)
Theorem rankings_sorted_stable split_uri a0 merged_graph :
  let doc := (build_result_document split_uri a0 merged_graph).2 in
  (most_referenced doc ≡ₚ rank_incoming <$> graph_nodes doc ∧
   StronglySorted total_ge (most_referenced doc) ∧
   ∀ v, filter (λ r, Ranked.total r = v) (most_referenced doc)
        = rank_incoming <$> filter (λ n, Node.incoming_references n = v) (graph_nodes doc)) ∧
  (largest_consumers doc ≡ₚ rank_outgoing <$> graph_nodes doc ∧
   StronglySorted total_ge (largest_consumers doc) ∧
   ∀ v, filter (λ r, Ranked.total r = v) (largest_consumers doc)
        = rank_outgoing <$> filter (λ n, Node.outgoing_references n = v) (graph_nodes doc)).
Proof.
  intros doc. unfold doc, build_result_document. simpl.
  split; (split; [by rewrite sorted_desc_perm|split]).
  - apply (StronglySorted_fmap _ (λ a b, Node.incoming_references b ≤ Node.incoming_references a));
      [done|apply sorted_desc_sorted].
  - intros v. rewrite (filter_fmap_total _ _ Node.incoming_references) by done.
    by rewrite sorted_desc_filter.
  - apply (StronglySorted_fmap _ (λ a b, Node.outgoing_references b ≤ Node.outgoing_references a));
      [done|apply sorted_desc_sorted].
  - intros v. rewrite (filter_fmap_total _ _ Node.outgoing_references) by done.
    by rewrite sorted_desc_filter.
Qed.

(** X8. The node list is in increasing order of namespace, without
    repetition, and every node carries the statistics stored under its
    namespace. *)
Theorem nodes_sorted_by_namespace split_uri a0 merged_graph :
  let a := (build_result_document split_uri a0 merged_graph).1 in
  let doc := (build_result_document split_uri a0 merged_graph).2 in
  Sorted String.le (Node.namespace <$> graph_nodes doc) ∧
  NoDup (Node.namespace <$> graph_nodes doc) ∧
  ontologies doc = graph_nodes doc ∧
  ∀ n, n ∈ graph_nodes doc →
    ∃ stats, namespaces a !! Node.namespace n = Some stats ∧
             Node.triples n = OntologyStats.triples stats ∧
             Node.classes n = OntologyStats.classes stats ∧
             Node.properties n = OntologyStats.properties stats ∧
             Node.individuals n = OntologyStats.individuals stats.
Proof.
  intros a doc.
  destruct (build_result_document_fields split_uri a0 merged_graph) as (_ & Hnodes & _).
  fold a doc in Hnodes. rewrite Hnodes. split; [|split; [|split; [done|]]].
  - rewrite <-list_fmap_compose.
    apply (Sorted_fmap _ item_le); [by intros [??] [??]|].
    apply Sorted_merge_sort, _.
  - rewrite node_namespaces. apply NoDup_fst_map_to_list.
  - intros n (ns & stats & Hstats & ->)%node_of_item. by exists stats.
Qed.

(** X9. For any state of the analyzer, the incoming total of a node is the
    sum of the weights of the reference table whose destination is the
    namespace of the node, and its outgoing total is the sum of the
    weights whose source it is. *)
Theorem node_totals_are_table_sums split_uri a0 merged_graph n :
  let doc := (build_result_document split_uri a0 merged_graph).2 in
  n ∈ graph_nodes doc →
  Node.incoming_references n
  = weight_sum (λ _ d, bool_decide (d = Node.namespace n)) (references a0) ∧
  Node.outgoing_references n
  = weight_sum (λ s _, bool_decide (s = Node.namespace n)) (references a0).
Proof.
  intros doc Hn.
  pose proof (built_tables split_uri a0 merged_graph) as Hst.
  destruct (build_result_document_fields split_uri a0 merged_graph) as (_ & Hnodes & _).
  fold doc in Hnodes. rewrite Hnodes in Hn.
  set (a := (build_result_document split_uri a0 merged_graph).1) in *.
  apply node_of_item in Hn as (ns & stats & Hstats & ->).
  cbn [make_node Node.incoming_references Node.outgoing_references Node.namespace].
  rewrite incoming_of_lookup, outgoing_of_lookup, Hstats, (st_refs _ _ Hst). done.
Qed.

(** ** Where the edges come from *)

Section EdgeOriginFacts.

Implicit Types (em : gmap (string * string) Edge.t) (J : string → string → Prop).

Lemma keys_from_mono id_map J J' em :
  (∀ s d, J s d → J' s d) → keys_from id_map J em → keys_from id_map J' em.
Proof.
  intros HJ Hem k e Hk. destruct (Hem k e Hk) as (s & d & Hl & -> & Hsd).
  exists s, d. auto.
Qed.

Lemma upd_edge_keys_from id_map J (g : Edge.t → Edge.t) s d em :
  linked id_map s d = true → J s d →
  keys_from id_map J em →
  keys_from id_map J (upd_edge g (id_of id_map s) (id_of id_map d) em).
Proof.
  intros Hl Hsd Hem k e. unfold upd_edge.
  destruct (decide (k = (id_of id_map s, id_of id_map d))) as [->|Hne].
  - intros _. by exists s, d.
  - rewrite lookup_insert_ne by done. apply Hem.
Qed.

Lemma ref_targets_keys id_map J s0 (targets : gmap string Z) em :
  has_id id_map s0 = true →
  keys_from id_map J em →
  keys_from id_map (λ s d, J s d ∨ (s = s0 ∧ is_Some (targets !! d)))
    (map_fold (λ dst_ns ref_count edge_map,
         if negb (truthy (id_map !! dst_ns)) then edge_map
         else upd_edge (Edge.add_count ref_count) (default "" (id_map !! s0))
                (default "" (id_map !! dst_ns)) edge_map) em targets).
Proof.
  intros Hs0 Hem.
  apply (map_fold_weak_ind (λ r (t : gmap string Z),
           keys_from id_map (λ s d, J s d ∨ (s = s0 ∧ is_Some (t !! d))) r)).
  - eapply keys_from_mono; [|exact Hem]. auto.
  - intros d0 c0 t r Hd0 IH.
    assert (keys_from id_map (λ s d, J s d ∨ (s = s0 ∧ is_Some (<[d0:=c0]> t !! d))) r)
      as IH'.
    { eapply keys_from_mono; [|exact IH]. intros s d [?|[-> Hd]]; [by left|right].
      split; [done|]. rewrite lookup_insert_is_Some.
      destruct (decide (d0 = d)); [by left|by right]. }
    destruct (truthy (id_map !! d0)) eqn:Hd; simpl; [|done].
    apply (upd_edge_keys_from id_map _ _ s0 d0); [|right|done].
    + unfold linked, has_id in *. by rewrite Hs0, Hd.
    + split; [done|]. rewrite lookup_insert_eq. eauto.
Qed.

Lemma add_reference_edges_keys id_map J0 refs em :
  keys_from id_map J0 em →
  keys_from id_map (λ s d, J0 s d ∨ ref_pair refs s d)
            (add_reference_edges id_map refs em).
Proof.
  intros Hem. unfold add_reference_edges.
  apply (map_fold_weak_ind (λ r (m : gmap string (gmap string Z)),
           keys_from id_map (λ s d, J0 s d ∨ ref_pair m s d) r)).
  - eapply keys_from_mono; [|exact Hem]. auto.
  - intros s0 t0 m r Hs0 Hr.
    assert (∀ s d, J0 s d ∨ ref_pair m s d → J0 s d ∨ ref_pair (<[s0:=t0]> m) s d) as Hgrow.
    { intros s d [?|(t & c & Ht & Hc)]; [by left|right].
      exists t, c. split; [|done]. rewrite lookup_insert_ne; [done|]. congruence. }
    destruct (truthy (id_map !! s0)) eqn:Hid; simpl;
      [|by eapply keys_from_mono; [exact Hgrow|]].
    eapply keys_from_mono; [|apply (ref_targets_keys id_map _ s0 t0 r Hid Hr)].
    intros s d [Hold|[-> [c Hc]]]; [by apply Hgrow|right].
    exists t0, c. by rewrite lookup_insert_eq.
Qed.

Lemma imp_targets_keys id_map J s0 (dsts : gset string) em :
  has_id id_map s0 = true →
  keys_from id_map J em →
  keys_from id_map (λ s d, J s d ∨ (s = s0 ∧ d ∈ dsts))
    (set_fold (λ dst_ns edge_map,
         if negb (truthy (id_map !! dst_ns)) then edge_map
         else upd_edge Edge.set_import (default "" (id_map !! s0))
                (default "" (id_map !! dst_ns)) edge_map) em dsts).
Proof.
  intros Hs0 Hem.
  apply (set_fold_ind_L (λ r (X : gset string),
           keys_from id_map (λ s d, J s d ∨ (s = s0 ∧ d ∈ X)) r)).
  - eapply keys_from_mono; [|exact Hem]. auto.
  - intros d0 X r Hd0 IH.
    assert (keys_from id_map (λ s d, J s d ∨ (s = s0 ∧ d ∈ {[d0]} ∪ X)) r) as IH'.
    { eapply keys_from_mono; [|exact IH]. intros s d [?|[-> Hd]]; [by left|right].
      split; [done|set_solver]. }
    destruct (truthy (id_map !! d0)) eqn:Hd; simpl; [|done].
    apply (upd_edge_keys_from id_map _ _ s0 d0); [|right|done].
    + unfold linked, has_id in *. by rewrite Hs0, Hd.
    + split; [done|set_solver].
Qed.

Lemma add_import_edges_keys id_map J0 (imps : gmap string (gset string)) em :
  keys_from id_map J0 em →
  keys_from id_map (λ s d, J0 s d ∨ imp_pair imps s d)
            (add_import_edges id_map imps em).
Proof.
  intros Hem. unfold add_import_edges.
  apply (map_fold_weak_ind (λ r (m : gmap string (gset string)),
           keys_from id_map (λ s d, J0 s d ∨ imp_pair m s d) r)).
  - eapply keys_from_mono; [|exact Hem]. auto.
  - intros s0 t0 m r Hs0 Hr.
    assert (∀ s d, J0 s d ∨ imp_pair m s d → J0 s d ∨ imp_pair (<[s0:=t0]> m) s d) as Hgrow.
    { intros s d [?|(t & Ht & Hc)]; [by left|right].
      exists t. split; [|done]. rewrite lookup_insert_ne; [done|]. congruence. }
    destruct (truthy (id_map !! s0)) eqn:Hid; simpl;
      [|by eapply keys_from_mono; [exact Hgrow|]].
    eapply keys_from_mono; [|apply (imp_targets_keys id_map _ s0 t0 r Hid Hr)].
    intros s d [Hold|[-> Hd]]; [by apply Hgrow|right].
    exists t0. by rewrite lookup_insert_eq.
Qed.

Lemma final_edge_map_keys a id_map :
  keys_from id_map (λ s d, ref_pair (references a) s d ∨ imp_pair (imports a) s d)
            (final_edge_map a id_map).
Proof.
  unfold final_edge_map.
  eapply keys_from_mono;
    [|apply add_import_edges_keys, (add_reference_edges_keys id_map (λ _ _, False))].
  - intros s d [[[]|?]|?]; auto.
  - intros k e. by rewrite lookup_empty.
Qed.

(** The import flag is set by the second loop only. *)
Lemma flagged_add_count c i j em k :
  flagged (upd_edge (Edge.add_count c) i j em) k → flagged em k.
Proof.
  unfold flagged, upd_edge. intros (e & He & Hflag).
  destruct (decide (k = (i, j))) as [->|Hne].
  - rewrite lookup_insert_eq in He. injection He as <-.
    destruct (em !! (i, j)) as [e0|]; simpl in Hflag; [eauto|done].
  - rewrite lookup_insert_ne in He by done. eauto.
Qed.

Lemma add_reference_edges_unflagged id_map refs em k :
  flagged (add_reference_edges id_map refs em) k → flagged em k.
Proof.
  unfold add_reference_edges. revert k.
  apply (map_fold_weak_ind (λ r (_ : gmap string (gmap string Z)),
           ∀ k, flagged r k → flagged em k)); [done|].
  intros s0 t0 m r _ IH.
  destruct (truthy (id_map !! s0)); simpl; [|done].
  apply (map_fold_weak_ind (λ r' (_ : gmap string Z),
           ∀ k, flagged r' k → flagged em k)); [done|].
  intros d0 c0 t r' _ IH' k.
  destruct (truthy (id_map !! d0)); simpl; [|by apply IH'].
  intros Hk%flagged_add_count. by apply IH'.
Qed.

Lemma flagged_set_import_inv i j em k :
  flagged (upd_edge Edge.set_import i j em) k → k = (i, j) ∨ flagged em k.
Proof.
  unfold flagged, upd_edge. intros (e & He & Hflag).
  destruct (decide (k = (i, j))) as [->|Hne]; [by left|right].
  rewrite lookup_insert_ne in He by done. eauto.
Qed.

Lemma imp_targets_flags id_map s0 (dsts : gset string) em k :
  flagged (set_fold (λ dst_ns edge_map,
         if negb (truthy (id_map !! dst_ns)) then edge_map
         else upd_edge Edge.set_import (default "" (id_map !! s0))
                (default "" (id_map !! dst_ns)) edge_map) em dsts) k →
  flagged em k ∨
  ∃ d, d ∈ dsts ∧ has_id id_map d = true ∧ k = (id_of id_map s0, id_of id_map d).
Proof.
  revert k.
  apply (set_fold_ind_L (λ r (X : gset string),
           ∀ k, flagged r k → flagged em k ∨
                ∃ d, d ∈ X ∧ has_id id_map d = true
                     ∧ k = (id_of id_map s0, id_of id_map d))).
  { intros k. by left. }
  intros d0 X r Hd0 IH k.
  assert (flagged r k → flagged em k ∨
          ∃ d, d ∈ {[d0]} ∪ X ∧ has_id id_map d = true
               ∧ k = (id_of id_map s0, id_of id_map d)) as IH'.
  { intros Hk. destruct (IH k Hk) as [?|(d & ? & ? & ?)]; [by left|right].
    exists d. split; [set_solver|done]. }
  destruct (truthy (id_map !! d0)) eqn:Hd; simpl; [|done].
  intros [->|Hk]%flagged_set_import_inv; [right|by apply IH'].
  exists d0. split; [set_solver|]. by split.
Qed.

Lemma add_import_edges_flag_origin id_map (imps : gmap string (gset string)) em k :
  flagged (add_import_edges id_map imps em) k →
  flagged em k ∨ linked_key id_map (imp_pair imps) k.
Proof.
  unfold add_import_edges. revert k.
  apply (map_fold_weak_ind (λ r (m : gmap string (gset string)),
           ∀ k, flagged r k → flagged em k ∨ linked_key id_map (imp_pair m) k)).
  { intros k. by left. }
  intros s0 t0 m r Hs0 IH.
  assert (∀ k, linked_key id_map (imp_pair m) k →
               linked_key id_map (imp_pair (<[s0:=t0]> m)) k) as Hgrow.
  { intros k (s & d & Hl & -> & t & Ht & Hd). exists s, d. split; [done|]. split; [done|].
    exists t. split; [|done]. rewrite lookup_insert_ne; [done|]. congruence. }
  assert (∀ k, flagged r k →
               flagged em k ∨ linked_key id_map (imp_pair (<[s0:=t0]> m)) k) as IH'.
  { intros k Hk. destruct (IH k Hk); auto. }
  destruct (truthy (id_map !! s0)) eqn:Hid; simpl; [|done].
  intros k [Hk|(d & Hd & Hhas & ->)]%imp_targets_flags; [by apply IH'|right].
  exists s0, d. split; [unfold linked, has_id in *; by rewrite Hid, Hhas|].
  split; [done|]. exists t0. by rewrite lookup_insert_eq.
Qed.

Lemma final_edge_map_flag_origin a id_map k :
  flagged (final_edge_map a id_map) k → linked_key id_map (imp_pair (imports a)) k.
Proof.
  unfold final_edge_map.
  intros [Hk%add_reference_edges_unflagged|Hk]%add_import_edges_flag_origin; [|done].
  destruct Hk as (e & He & _). by rewrite lookup_empty in He.
Qed.

End EdgeOriginFacts.

(** ** The edge list *)

Section EdgeListFacts.

Variable split_uri : string → option (string * string).

Lemma edge_of_list a id_map e :
  e ∈ (map_to_list (final_edge_map a id_map)).*2 →
  final_edge_map a id_map !! (Edge.source e, Edge.target e) = Some e.
Proof.
  intros ([k e'] & -> & Hin)%list_elem_of_fmap. simpl.
  apply elem_of_map_to_list in Hin.
  by rewrite (final_edge_map_wf a id_map _ _ Hin).
Qed.

Lemma edge_list_keys a id_map :
  (λ e, (Edge.source e, Edge.target e)) <$> (map_to_list (final_edge_map a id_map)).*2
  = (map_to_list (final_edge_map a id_map)).*1.
Proof.
  rewrite <-list_fmap_compose. apply list_fmap_ext.
  intros i [k e] Hi. simpl.
  apply list_elem_of_lookup_2, elem_of_map_to_list in Hi.
  apply (final_edge_map_wf a id_map _ _ Hi).
Qed.

Lemma edge_count_at_key (em : gmap (string * string) Edge.t) k e :
  em !! k = Some e →
  Edge.reference_count e = key_total (λ i j, bool_decide ((i, j) = k)) em.
Proof.
  intros He. unfold key_total.
  rewrite (msum_ext _ (λ k' e', if bool_decide (k' = k)
                                then Edge.reference_count e' else 0))
    by (by intros [i j] ? _).
  by rewrite msum_at_key, He.
Qed.

Lemma node_for_id a merged_graph incoming outgoing ns :
  has_id (_build_id_map a merged_graph) ns = true →
  ∃ n, n ∈ (make_node a (_build_id_map a merged_graph) incoming outgoing
              <$> sorted_items (namespaces a)) ∧
       Node.namespace n = ns ∧ Node.id n = id_of (_build_id_map a merged_graph) ns.
Proof.
  intros (i & Hi & _)%has_id_Some.
  assert (ns ∈ dom (namespaces a)) as [stats Hstats]%elem_of_dom.
  { rewrite <-(build_id_map_dom a merged_graph). apply elem_of_dom. eauto. }
  exists (make_node a (_build_id_map a merged_graph) incoming outgoing (ns, stats)).
  split; [|split; [done|]].
  - apply list_elem_of_fmap. exists (ns, stats). split; [done|].
    rewrite sorted_items_perm. by apply elem_of_map_to_list.
  - simpl. unfold id_of. rewrite lookup_total_alt. reflexivity.
Qed.

Lemma id_of_nonempty id_map ns : has_id id_map ns = true → id_of id_map ns ≠ "".
Proof. intros (i & Hi & Hne)%has_id_Some. unfold id_of. by rewrite Hi. Qed.

End EdgeListFacts.

(** X10. For any state of the analyzer, no two edges of the document have
    the same (source, target), and every edge joins two nodes of the node
    list: its ends are their identifiers, they are not empty, and the pair
    of their namespaces is in the reference table or in the import
    table. *)
Theorem edges_join_nodes split_uri a0 merged_graph :
  let doc := (build_result_document split_uri a0 merged_graph).2 in
  NoDup ((λ e, (Edge.source e, Edge.target e)) <$> graph_edges doc) ∧
  ∀ e, e ∈ graph_edges doc →
    Edge.source e ≠ "" ∧ Edge.target e ≠ "" ∧
    ∃ n1 n2, n1 ∈ graph_nodes doc ∧ n2 ∈ graph_nodes doc ∧
      Node.id n1 = Edge.source e ∧ Node.id n2 = Edge.target e ∧
      (ref_pair (references a0) (Node.namespace n1) (Node.namespace n2) ∨
       imp_pair (imports a0) (Node.namespace n1) (Node.namespace n2)).
Proof.
  intros doc.
  pose proof (built_tables split_uri a0 merged_graph) as Hst.
  destruct (build_result_document_fields split_uri a0 merged_graph)
    as (_ & Hnodes & Hedges).
  fold doc in Hnodes, Hedges. rewrite Hnodes, Hedges.
  set (a := (build_result_document split_uri a0 merged_graph).1) in *.
  set (id_map := _build_id_map a merged_graph).
  split; [rewrite edge_list_keys; apply NoDup_fst_map_to_list|].
  intros e He%edge_of_list.
  destruct (final_edge_map_keys a id_map _ _ He) as (s & d & Hl & [= Hsrc Htgt] & Hpair).
  apply andb_true_iff in Hl as [Hs Hd].
  rewrite Hsrc, Htgt.
  split; [by apply id_of_nonempty|]. split; [by apply id_of_nonempty|].
  destruct (node_for_id a merged_graph (incoming_of a) (outgoing_of a) s Hs)
    as (n1 & Hn1 & Hns1 & Hid1).
  destruct (node_for_id a merged_graph (incoming_of a) (outgoing_of a) d Hd)
    as (n2 & Hn2 & Hns2 & Hid2).
  exists n1, n2. do 4 (split; [done|]).
  rewrite (st_refs _ _ Hst), (st_imps _ _ Hst) in Hpair. by rewrite Hns1, Hns2.
Qed.

(** X11. For any state of the analyzer, the import flag is set only on the
    edge of a pair of the import table: an edge with [import = true] joins
    the identifiers of a source and a destination of a declared import. *)
Theorem import_flag_sound split_uri a0 merged_graph e :
  let a := (build_result_document split_uri a0 merged_graph).1 in
  let doc := (build_result_document split_uri a0 merged_graph).2 in
  let id_map := _build_id_map a merged_graph in
  e ∈ graph_edges doc → Edge.import e = true →
  ∃ s d, imp_pair (imports a0) s d ∧
         has_id id_map s = true ∧ has_id id_map d = true ∧
         Edge.source e = id_of id_map s ∧ Edge.target e = id_of id_map d.
Proof.
  intros a doc id_map He Himp.
  pose proof (built_tables split_uri a0 merged_graph) as Hst. fold a in Hst.
  destruct (build_result_document_fields split_uri a0 merged_graph) as (_ & _ & Hedges).
  fold doc a id_map in Hedges. rewrite Hedges in He. apply edge_of_list in He.
  destruct (final_edge_map_flag_origin a id_map (Edge.source e, Edge.target e))
    as (s & d & Hl & [= Hsrc Htgt] & Hpair); [by exists e|].
  apply andb_true_iff in Hl as [Hs Hd].
  exists s, d. rewrite <-(st_imps _ _ Hst). done.
Qed.

(** X12. For any state of the analyzer, the reference count of an edge is
    the sum of the weights of all the pairs of the reference table whose
    two namespaces have a non-empty identifier and are carried to the ends
    of the edge; pairs of namespaces that share identifiers are merged
    into one edge. *)
Theorem edge_count_is_pair_sum split_uri a0 merged_graph e :
  let a := (build_result_document split_uri a0 merged_graph).1 in
  let doc := (build_result_document split_uri a0 merged_graph).2 in
  let id_map := _build_id_map a merged_graph in
  e ∈ graph_edges doc →
  Edge.reference_count e
  = weight_sum (λ s d, linked id_map s d
                       && bool_decide ((id_of id_map s, id_of id_map d)
                                       = (Edge.source e, Edge.target e)))
               (references a0).
Proof.
  intros a doc id_map He.
  pose proof (built_tables split_uri a0 merged_graph) as Hst. fold a in Hst.
  destruct (build_result_document_fields split_uri a0 merged_graph) as (_ & _ & Hedges).
  fold doc a id_map in Hedges. rewrite Hedges in He. apply edge_of_list in He.
  rewrite (edge_count_at_key _ _ _ He), final_edge_map_total.
  by rewrite (st_refs _ _ Hst).
Qed.

(** X13. After any run, every edge of the document has a reference count
    of at least 1: an edge that stems from an import alone does not occur,
    because every registered import is also counted as a reference. *)
Theorem run_edges_counted split_uri files merged_graph e :
  let a0 := final_analyzer split_uri files in
  let doc := (build_result_document split_uri a0 merged_graph).2 in
  e ∈ graph_edges doc → 1 ≤ Edge.reference_count e.
Proof.
  intros a0 doc He.
  pose proof (built_tables split_uri a0 merged_graph) as Hst.
  pose proof (final_analyzer_run_inv split_uri files) as Hinv. fold a0 in Hinv.
  destruct (build_result_document_fields split_uri a0 merged_graph) as (_ & _ & Hedges).
  fold doc in Hedges. rewrite Hedges in He.
  set (a := (build_result_document split_uri a0 merged_graph).1) in *.
  set (id_map := _build_id_map a merged_graph) in *.
  apply edge_of_list in He.
  destruct (final_edge_map_keys a id_map _ _ He) as (s & d & Hl & Hk & Hpair).
  rewrite (edge_count_at_key _ _ _ He), final_edge_map_total, (st_refs _ _ Hst).
  assert (ref_pair (references a0) s d) as (t & c & Ht & Hc).
  { rewrite (st_refs _ _ Hst), (st_imps _ _ Hst) in Hpair.
    destruct Hpair as [?|(dsts & Hs & Hd)]; [done|].
    apply (inv_imp_ref _ Hinv s dsts d Hs Hd). }
  etrans; [exact (inv_weight _ Hinv s t d c Ht Hc)|].
  apply (weight_sum_entry_le _ _ s t d c); [|done|done|].
  - intros s' t' d' c' Hs' Hd'.
    pose proof (inv_weight _ Hinv s' t' d' c' Hs' Hd'). lia.
  - rewrite Hl. simpl. by apply bool_decide_eq_true.
Qed.

(** ** Instances of the properties above *)

Lemma register_reference_weight_witness :
  _register_reference new_analyzer None (Some "http://b.org/two") 1 = new_analyzer.
Proof.
  apply (proj1 (proj2 (proj2
           (register_reference_weight new_analyzer None (Some "http://b.org/two") 1)))).
  reflexivity.
Defined.

Lemma ensure_ns_keeps_witness :
  namespaces (_ensure_ns (stats_only ["http://a.org/one"]) (Some "http://b.org/two/")).1
    !! "http://a.org/one"
  = Some (OntologyStats.init "http://a.org/one").
Proof.
  apply (proj1 (proj2 (proj2 (proj2
           (ensure_ns_keeps (stats_only ["http://a.org/one"]) (Some "http://b.org/two/")))))).
  vm_compute. reflexivity.
Defined.

Lemma nodes_sorted_by_namespace_witness :
  ∃ n stats,
    n ∈ graph_nodes (build_result_document sample_split_uri
                       (final_analyzer sample_split_uri linked_corpus) (mkGraph [] [])).2 ∧
    namespaces (build_result_document sample_split_uri
                  (final_analyzer sample_split_uri linked_corpus) (mkGraph [] [])).1
      !! Node.namespace n = Some stats ∧
    Node.triples n = OntologyStats.triples stats.
Proof.
  assert (∃ n rest,
            graph_nodes (build_result_document sample_split_uri
                           (final_analyzer sample_split_uri linked_corpus)
                           (mkGraph [] [])).2 = n :: rest)
    as (n & rest & Hn) by (eexists _, _; vm_compute; reflexivity).
  assert (n ∈ graph_nodes (build_result_document sample_split_uri
                             (final_analyzer sample_split_uri linked_corpus)
                             (mkGraph [] [])).2) as Hin
    by (rewrite Hn; apply list_elem_of_here).
  pose proof (proj2 (proj2 (proj2
                (nodes_sorted_by_namespace sample_split_uri
                   (final_analyzer sample_split_uri linked_corpus) (mkGraph [] [])))) n Hin)
    as Hstats.
  destruct Hstats as (stats & Hstats & Htriples & _).
  exists n, stats. split; [exact Hin|]. split; [exact Hstats|exact Htriples].
Defined.

Lemma node_totals_are_table_sums_witness :
  ∃ n,
    n ∈ graph_nodes (build_result_document sample_split_uri
                       (final_analyzer sample_split_uri linked_corpus) (mkGraph [] [])).2 ∧
    Node.incoming_references n
    = weight_sum (λ _ d, bool_decide (d = Node.namespace n))
                 (references (final_analyzer sample_split_uri linked_corpus)) ∧
    Node.outgoing_references n
    = weight_sum (λ s _, bool_decide (s = Node.namespace n))
                 (references (final_analyzer sample_split_uri linked_corpus)).
Proof.
  assert (∃ n rest,
            graph_nodes (build_result_document sample_split_uri
                           (final_analyzer sample_split_uri linked_corpus)
                           (mkGraph [] [])).2 = n :: rest)
    as (n & rest & Hn) by (eexists _, _; vm_compute; reflexivity).
  assert (n ∈ graph_nodes (build_result_document sample_split_uri
                             (final_analyzer sample_split_uri linked_corpus)
                             (mkGraph [] [])).2) as Hin
    by (rewrite Hn; apply list_elem_of_here).
  exists n. split; [exact Hin|].
  exact (node_totals_are_table_sums sample_split_uri
           (final_analyzer sample_split_uri linked_corpus) (mkGraph [] []) n Hin).
Defined.

Lemma edges_join_nodes_witness :
  ∃ e,
    e ∈ graph_edges (build_result_document sample_split_uri
                       (final_analyzer sample_split_uri linked_corpus) (mkGraph [] [])).2 ∧
    Edge.source e ≠ "" ∧ Edge.target e ≠ "".
Proof.
  assert (∃ e rest,
            graph_edges (build_result_document sample_split_uri
                           (final_analyzer sample_split_uri linked_corpus)
                           (mkGraph [] [])).2 = e :: rest)
    as (e & rest & He) by (eexists _, _; vm_compute; reflexivity).
  assert (e ∈ graph_edges (build_result_document sample_split_uri
                             (final_analyzer sample_split_uri linked_corpus)
                             (mkGraph [] [])).2) as Hin
    by (rewrite He; apply list_elem_of_here).
  pose proof (proj2 (edges_join_nodes sample_split_uri
                       (final_analyzer sample_split_uri linked_corpus) (mkGraph [] []))
                e Hin) as Hends.
  destruct Hends as (Hsrc & Htgt & _).
  exists e. split; [exact Hin|]. split; [exact Hsrc|exact Htgt].
Defined.

Lemma import_flag_sound_witness :
  ∃ s d, imp_pair (imports (final_analyzer sample_split_uri xsd_corpus)) s d ∧
         "main" = id_of (_build_id_map
                           (build_result_document sample_split_uri
                              (final_analyzer sample_split_uri xsd_corpus)
                              (mkGraph [] [])).1 (mkGraph [] [])) s.
Proof.
  assert (Edge.mk "main" "types" 1 true
            ∈ graph_edges (build_result_document sample_split_uri
                             (final_analyzer sample_split_uri xsd_corpus)
                             (mkGraph [] [])).2) as Hin.
  { assert (graph_edges (build_result_document sample_split_uri
                           (final_analyzer sample_split_uri xsd_corpus)
                           (mkGraph [] [])).2 = [Edge.mk "main" "types" 1 true]) as ->
      by (vm_compute; reflexivity).
    apply list_elem_of_here. }
  pose proof (import_flag_sound sample_split_uri
                (final_analyzer sample_split_uri xsd_corpus) (mkGraph [] [])
                (Edge.mk "main" "types" 1 true) Hin eq_refl) as Hflag.
  destruct Hflag as (s & d & Hpair & _ & _ & Hsrc & _).
  exists s, d. split; [exact Hpair|exact Hsrc].
Defined.

Lemma edge_count_is_pair_sum_witness :
  1 = weight_sum
        (λ s d, linked (_build_id_map
                          (build_result_document sample_split_uri
                             (final_analyzer sample_split_uri xsd_corpus)
                             (mkGraph [] [])).1 (mkGraph [] [])) s d
                && bool_decide
                     ((id_of (_build_id_map
                                (build_result_document sample_split_uri
                                   (final_analyzer sample_split_uri xsd_corpus)
                                   (mkGraph [] [])).1 (mkGraph [] [])) s,
                       id_of (_build_id_map
                                (build_result_document sample_split_uri
                                   (final_analyzer sample_split_uri xsd_corpus)
                                   (mkGraph [] [])).1 (mkGraph [] [])) d)
                      = ("main", "types")))
        (references (final_analyzer sample_split_uri xsd_corpus)).
Proof.
  apply (edge_count_is_pair_sum sample_split_uri
           (final_analyzer sample_split_uri xsd_corpus) (mkGraph [] [])
           (Edge.mk "main" "types" 1 true)).
  assert (graph_edges (build_result_document sample_split_uri
                         (final_analyzer sample_split_uri xsd_corpus)
                         (mkGraph [] [])).2 = [Edge.mk "main" "types" 1 true]) as ->
    by (vm_compute; reflexivity).
  apply list_elem_of_here.
Defined.

Lemma run_edges_counted_witness :
  Edge.mk "main" "types" 1 true
    ∈ graph_edges (build_result_document sample_split_uri
                     (final_analyzer sample_split_uri xsd_corpus) (mkGraph [] [])).2 ∧
  1 ≤ Edge.reference_count (Edge.mk "main" "types" 1 true).
Proof.
  assert (Edge.mk "main" "types" 1 true
            ∈ graph_edges (build_result_document sample_split_uri
                             (final_analyzer sample_split_uri xsd_corpus)
                             (mkGraph [] [])).2) as Hin.
  { assert (graph_edges (build_result_document sample_split_uri
                           (final_analyzer sample_split_uri xsd_corpus)
                           (mkGraph [] [])).2 = [Edge.mk "main" "types" 1 true]) as ->
      by (vm_compute; reflexivity).
    apply list_elem_of_here. }
  split; [exact Hin|].
  exact (run_edges_counted sample_split_uri xsd_corpus (mkGraph [] []) _ Hin).
Defined.

(** ** The filtered document *)

Section FilterFacts.

Variable split_uri : string → option (string * string).

Lemma bool_filter_sublist {A} (f : A → bool) (l : list A) : List.filter f l `sublist_of` l.
Proof.
  induction l as [|x l IH]; simpl; [constructor|].
  destruct (f x); by constructor.
Qed.

Lemma elem_of_bool_filter {A} (f : A → bool) (l : list A) x :
  x ∈ List.filter f l ↔ x ∈ l ∧ f x = true.
Proof. rewrite !list_elem_of_In. apply filter_In. Qed.

Lemma built_edge_ends a0 merged_graph e :
  let doc := (build_result_document split_uri a0 merged_graph).2 in
  e ∈ graph_edges doc →
  Edge.source e ∈ (Node.id <$> graph_nodes doc) ∧
  Edge.target e ∈ (Node.id <$> graph_nodes doc).
Proof.
  intros doc.
  destruct (build_result_document_fields split_uri a0 merged_graph)
    as (_ & Hnodes & Hedges).
  fold doc in Hnodes, Hedges. rewrite Hnodes, Hedges.
  set (a := (build_result_document split_uri a0 merged_graph).1) in *.
  set (id_map := _build_id_map a merged_graph).
  intros He%edge_of_list.
  destruct (final_edge_map_keys a id_map _ _ He) as (s & d & Hl & [= Hsrc Htgt] & _).
  apply andb_true_iff in Hl as [Hs Hd].
  destruct (node_for_id a merged_graph (incoming_of a) (outgoing_of a) s Hs)
    as (n1 & Hn1 & _ & Hid1).
  destruct (node_for_id a merged_graph (incoming_of a) (outgoing_of a) d Hd)
    as (n2 & Hn2 & _ & Hid2).
  split; apply list_elem_of_fmap; [exists n1|exists n2].
  - split; [rewrite Hid1; exact Hsrc|exact Hn1].
  - split; [rewrite Hid2; exact Htgt|exact Hn2].
Qed.

Lemma keyword_filter_closed metadata_by_ns keywords doc :
  ontologies doc = graph_nodes doc →
  (∀ e, e ∈ graph_edges doc →
        Edge.source e ∈ (Node.id <$> graph_nodes doc) ∧
        Edge.target e ∈ (Node.id <$> graph_nodes doc)) →
  let doc' := keyword_filter metadata_by_ns keywords doc in
  ontologies doc' = graph_nodes doc' ∧
  graph_nodes doc' `sublist_of` graph_nodes doc ∧
  graph_edges doc' `sublist_of` graph_edges doc ∧
  ∀ e, e ∈ graph_edges doc' ↔
       e ∈ graph_edges doc ∧
       Edge.source e ∈ (Node.id <$> graph_nodes doc') ∧
       Edge.target e ∈ (Node.id <$> graph_nodes doc').
Proof.
  intros Honto Hends. destruct keywords as [|k ks]; simpl.
  - do 3 (split; [done|]). intros e. specialize (Hends e). tauto.
  - split; [done|]. split; [apply bool_filter_sublist|].
    split; [apply bool_filter_sublist|].
    intros e. rewrite elem_of_bool_filter, andb_true_iff, !bool_decide_eq_true.
    by rewrite !elem_of_list_to_set.
Qed.

End FilterFacts.

(** X14. The document that [analyze_ontologies] returns is closed under
    the keyword filter: [ontologies] is the node list, the nodes and the
    edges are those of the unfiltered document in the same order, and an
    edge is kept exactly when both of its ends are identifiers of kept
    nodes; so no edge of the final document points outside its node
    list. *)
Theorem filtered_document_closed split_uri files prefixes keywords doc0 doc :
  analyze_ontologies split_uri files prefixes [] = Some doc0 →
  analyze_ontologies split_uri files prefixes keywords = Some doc →
  ontologies doc = graph_nodes doc ∧
  graph_nodes doc `sublist_of` graph_nodes doc0 ∧
  graph_edges doc `sublist_of` graph_edges doc0 ∧
  ∀ e, e ∈ graph_edges doc ↔
       e ∈ graph_edges doc0 ∧
       Edge.source e ∈ (Node.id <$> graph_nodes doc) ∧
       Edge.target e ∈ (Node.id <$> graph_nodes doc).
Proof.
  unfold analyze_ontologies. destruct files as [|f fs]; [done|].
  destruct (run_files split_uri (f :: fs)) as [[merged a] metadata_by_file].
  pose proof (built_edge_ends split_uri a (mkGraph merged prefixes)) as Hends.
  pose proof (build_result_document_fields split_uri a (mkGraph merged prefixes)) as Hf.
  destruct (build_result_document split_uri a (mkGraph merged prefixes))
    as [a' built] eqn:Hbuilt.
  intros [= <-] [= <-].
  apply keyword_filter_closed; [|exact Hends].
  unfold build_result_document in Hbuilt. by injection Hbuilt as _ <-.
Qed.

Lemma filtered_document_closed_witness :
  ∃ doc0 doc,
    analyze_ontologies sample_split_uri tagged_corpus [] [] = Some doc0 ∧
    analyze_ontologies sample_split_uri tagged_corpus [] ["*"; "-deprecated"] = Some doc ∧
    ontologies doc = graph_nodes doc ∧
    graph_nodes doc `sublist_of` graph_nodes doc0.
Proof.
  assert (∃ doc0, analyze_ontologies sample_split_uri tagged_corpus [] [] = Some doc0)
    as [doc0 H0] by (eexists; vm_compute; reflexivity).
  assert (∃ doc, analyze_ontologies sample_split_uri tagged_corpus []
                   ["*"; "-deprecated"] = Some doc)
    as [doc H1] by (eexists; vm_compute; reflexivity).
  pose proof (filtered_document_closed _ _ _ _ _ _ H0 H1) as Hclosed.
  destruct Hclosed as (Honto & Hnodes & _).
  exists doc0, doc. split; [exact H0|]. split; [exact H1|]. split; [exact Honto|exact Hnodes].
Defined.

(** ** The download command *)

Section FetchFacts.

Lemma none_excluded_existsb (kws : gset string) (excludes : list string) :
  Fetch.none_excluded kws excludes = negb (existsb (λ e, bool_decide (e ∈ kws)) excludes).
Proof.
  induction excludes as [|neg rest IH]; simpl; [done|].
  by destruct (bool_decide (neg ∈ kws)).
Qed.

Lemma all_included_forallb (kws : gset string) (includes : list string) :
  Fetch.all_included kws includes = forallb (λ i, bool_decide (i ∈ kws)) includes.
Proof.
  induction includes as [|inc rest IH]; simpl; [done|].
  by destruct (bool_decide (inc ∈ kws)).
Qed.

Lemma existsb_excluded_swap (kws : gset string) (excludes : list string) :
  existsb (λ e, bool_decide (e ∈ excludes)) (elements kws)
  = existsb (λ e, bool_decide (e ∈ kws)) excludes.
Proof.
  pose proof (none_in_keywords kws excludes) as H1.
  pose proof (no_keyword_excluded kws excludes) as H2.
  destruct (existsb (λ e, bool_decide (e ∈ excludes)) (elements kws)),
           (existsb (λ e, bool_decide (e ∈ kws)) excludes); try done.
  - exact (proj2 H2 (proj1 H1 eq_refl)).
  - symmetry. exact (proj2 H1 (proj1 H2 eq_refl)).
Qed.

Lemma eqb_lower_ascii (c a : ascii) :
  Str.lower_ascii a = a → (∀ d, Str.lower_ascii d = a → d = a) →
  Ascii.eqb (Str.lower_ascii c) a = Ascii.eqb c a.
Proof.
  intros Ha Hinj. destruct (Ascii.eqb_spec c a) as [->|Hne].
  - rewrite Ha. apply Ascii.eqb_refl.
  - apply Ascii.eqb_neq. intros Hc. by apply Hne, Hinj.
Qed.

Lemma lower_ascii_idem c : Str.lower_ascii (Str.lower_ascii c) = Str.lower_ascii c.
Proof. by destruct c as [[] [] [] [] [] [] [] []]. Qed.

Lemma lower_idem s : Str.lower (Str.lower s) = Str.lower s.
Proof. induction s as [|c s IH]; simpl; [done|]. by rewrite lower_ascii_idem, IH. Qed.

Lemma plain_separators a : a ∈ [" "; "/"; "("; ")"; ","; "_"]%char → plain a.
Proof.
  intros Ha. repeat (apply elem_of_cons in Ha as [->|Ha]);
    [..|by apply elem_of_nil in Ha];
    (split; [done|]); intros [[] [] [] [] [] [] [] []]; by intros [=].
Qed.

Lemma lower_replace a b s :
  plain a → plain b →
  Str.lower (Str.replace a b s) = Str.replace a b (Str.lower s).
Proof.
  intros [Ha Hinj] [Hb _]. induction s as [|c s IH]; simpl; [done|].
  rewrite IH, (eqb_lower_ascii c a) by done.
  destruct (Ascii.eqb c a); [by rewrite Hb|done].
Qed.

Lemma lower_remove a s :
  plain a → Str.lower (Str.remove a s) = Str.remove a (Str.lower s).
Proof.
  intros [Ha Hinj]. induction s as [|c s IH]; simpl; [done|].
  rewrite (eqb_lower_ascii c a) by done.
  destruct (Ascii.eqb c a); simpl; by rewrite IH.
Qed.

Lemma char_in_replace_other c a b s :
  c ≠ b → Str.char_in c s = false → Str.char_in c (Str.replace a b s) = false.
Proof.
  intros Hcb. induction s as [|d s IH]; simpl; [done|].
  destruct (Ascii.eqb_spec c d) as [->|Hcd]; [done|]. intros Hs.
  destruct (Ascii.eqb d a).
  - by rewrite (proj2 (Ascii.eqb_neq c b)), IH.
  - by rewrite (proj2 (Ascii.eqb_neq c d)), IH.
Qed.

Lemma char_in_replace_self a b s : a ≠ b → Str.char_in a (Str.replace a b s) = false.
Proof.
  intros Hab. induction s as [|d s IH]; simpl; [done|].
  destruct (Ascii.eqb_spec d a) as [->|Hda].
  - by rewrite (proj2 (Ascii.eqb_neq a b)).
  - rewrite (proj2 (Ascii.eqb_neq a d)); [done|]. by intros ->.
Qed.

Lemma char_in_remove_other c a s :
  Str.char_in c s = false → Str.char_in c (Str.remove a s) = false.
Proof.
  induction s as [|d s IH]; simpl; [done|].
  destruct (Ascii.eqb_spec c d) as [->|Hcd]; [done|]. intros Hs.
  destruct (Ascii.eqb d a); simpl; [by apply IH|].
  by rewrite (proj2 (Ascii.eqb_neq c d)), IH.
Qed.

Lemma char_in_remove_self a s : Str.char_in a (Str.remove a s) = false.
Proof.
  induction s as [|d s IH]; simpl; [done|].
  destruct (Ascii.eqb_spec d a) as [->|Hda]; simpl; [done|].
  rewrite (proj2 (Ascii.eqb_neq a d)); [done|]. by intros ->.
Qed.

Lemma replace_absent a b s : Str.char_in a s = false → Str.replace a b s = s.
Proof.
  induction s as [|d s IH]; simpl; [done|].
  rewrite Ascii.eqb_sym. destruct (Ascii.eqb d a); [done|]. intros Hs. by rewrite IH.
Qed.

Lemma remove_absent a s : Str.char_in a s = false → Str.remove a s = s.
Proof.
  induction s as [|d s IH]; simpl; [done|].
  rewrite Ascii.eqb_sym. destruct (Ascii.eqb d a); [done|]. intros Hs. by rewrite IH.
Qed.

Lemma safe_name_separators name c :
  c ∈ [" "; "/"; "("; ")"; ","]%char → Str.char_in c (Fetch.safe_name name) = false.
Proof.
  unfold Fetch.safe_name. intros Hc.
  repeat (apply elem_of_cons in Hc as [->|Hc]); [..|by apply elem_of_nil in Hc].
  - do 3 apply char_in_remove_other. apply char_in_replace_other; [done|].
    by apply char_in_replace_self.
  - do 3 apply char_in_remove_other. by apply char_in_replace_self.
  - do 2 apply char_in_remove_other. apply char_in_remove_self.
  - apply char_in_remove_other, char_in_remove_self.
  - apply char_in_remove_self.
Qed.

Lemma safe_name_lower name : Str.lower (Fetch.safe_name name) = Fetch.safe_name name.
Proof.
  unfold Fetch.safe_name.
  rewrite !lower_remove, !lower_replace, lower_idem;
    try (apply plain_separators; set_solver). done.
Qed.

End FetchFacts.

(** X15. The two copies of [matches_keywords] agree: the download command
    and the analysis select the same records under the same patterns,
    although the second tests the exclusions from the side of the
    keywords. *)
Theorem fetch_filter_agrees (record : metadata) (patterns : list string) :
  Fetch.matches_keywords record patterns = matches_keywords record patterns.
Proof.
  unfold Fetch.matches_keywords, matches_keywords.
  destruct patterns as [|p ps]; [done|].
  destruct (foldl classify_pattern ([], [], false) (p :: ps)) as [[includes excludes] star].
  rewrite !none_excluded_existsb, all_included_forallb, existsb_excluded_swap.
  destruct star; [done|].
  by destruct (forallb (λ i, bool_decide (i ∈ keywords_of record)) includes).
Qed.

(** X16. The directory name [safe_name] gives (on ASCII names) contains no
    space, no ['/'], no parenthesis and no comma, has no upper-case
    letter, and is left as it is by [safe_name]: the function is
    idempotent. *)
Theorem safe_name_clean (name : string) :
  (∀ c, c ∈ [" "; "/"; "("; ")"; ","]%char →
        Str.char_in c (Fetch.safe_name name) = false) ∧
  Str.lower (Fetch.safe_name name) = Fetch.safe_name name ∧
  Fetch.safe_name (Fetch.safe_name name) = Fetch.safe_name name.
Proof.
  split; [intros c; apply safe_name_separators|].
  split; [apply safe_name_lower|].
  unfold Fetch.safe_name at 1. rewrite safe_name_lower.
  rewrite (replace_absent " ") by (apply safe_name_separators; set_solver).
  rewrite (replace_absent "/") by (apply safe_name_separators; set_solver).
  rewrite (remove_absent "(") by (apply safe_name_separators; set_solver).
  rewrite (remove_absent ")") by (apply safe_name_separators; set_solver).
  by rewrite (remove_absent ",") by (apply safe_name_separators; set_solver).
Qed.

Lemma safe_name_clean_witness :
  Str.char_in "/" (Fetch.safe_name "SAREF4ENER (Energy, v1)/Core") = false.
Proof.
  apply (proj1 (safe_name_clean "SAREF4ENER (Energy, v1)/Core")).
  set_solver.
Defined.

(** ** The tree command *)

Section TreeFacts.

Variable term_truthy : term → bool.

Lemma elem_of_subjects (g : list triple) (p o s : term) :
  s ∈ subjects g p o ↔ (s, p, o) ∈ g.
Proof.
  unfold subjects. rewrite list_elem_of_fmap. split.
  - intros ([[s' p'] o'] & -> & [[Hp Ho] Hin]%list_elem_of_filter).
    simpl in *. by subst.
  - intros Hin. exists (s, p, o). split; [done|].
    apply list_elem_of_filter. by split.
Qed.

Lemma dom_add_classes (g : list triple) (l : list term) (m : gmap string Tree.ClassInfo) :
  dom (foldl (Tree.add_class term_truthy g) m l) = dom m ∪ list_to_set (str <$> l).
Proof.
  revert m. induction l as [|cls l IH]; intros m; simpl; [set_solver|].
  rewrite IH. unfold Tree.add_class. rewrite dom_insert_L. set_solver.
Qed.

Lemma dom_add_properties (g : list triple) (l : list term)
    (m : gmap string Tree.PropertyInfo) :
  dom (foldl (Tree.add_property term_truthy g) m l) = dom m ∪ list_to_set (str <$> l).
Proof.
  revert m. induction l as [|p l IH]; intros m; simpl; [set_solver|].
  rewrite IH. unfold Tree.add_property. rewrite dom_insert_L. set_solver.
Qed.

Lemma dom_property_types (g : list triple) (ptypes : list term)
    (m : gmap string Tree.PropertyInfo) uri :
  uri ∈ dom (foldl (λ properties ptype,
                      foldl (Tree.add_property term_truthy g) properties
                            (subjects g RDF_type ptype)) m ptypes) ↔
  uri ∈ dom m ∨ ∃ p ptype, ptype ∈ ptypes ∧ (p, RDF_type, ptype) ∈ g ∧ str p = uri.
Proof.
  revert m. induction ptypes as [|ptype ptypes IH]; intros m; simpl.
  - split; [by left|]. intros [?|(p & ptype & Hin & _)]; [done|].
    by apply elem_of_nil in Hin.
  - rewrite IH, dom_add_properties, elem_of_union, elem_of_list_to_set, list_elem_of_fmap.
    split.
    + intros [[?|(p & -> & Hp%elem_of_subjects)]|(p & pt & Hpt & Hp & Huri)].
      * by left.
      * right. exists p, ptype. split; [apply list_elem_of_here|done].
      * right. exists p, pt. split; [by apply list_elem_of_further|done].
    + intros [?|(p & pt & [->|Hpt]%elem_of_cons & Hp & Huri)].
      * by left; left.
      * left. right. exists p. split; [done|]. by apply elem_of_subjects.
      * right. exists p, pt. done.
Qed.

End TreeFacts.

Lemma individuals_fold (g l : list triple) (C : gmap string Tree.ClassInfo)
    (P : gmap string Tree.PropertyInfo) (m : gmap string Tree.IndividualInfo) uri info :
  foldl (Tree.add_individual g C P) m l !! uri = Some info →
  m !! uri = Some info ∨
  ((uri ∉ dom C) ∧ (uri ∉ dom P) ∧ (∃ p o, (URIRef uri, p, o) ∈ l) ∧
   Tree.types info = str <$> objects g (URIRef uri) RDF_type).
Proof.
  revert m. induction l as [|[[s p] o] l IH]; intros m; simpl; [by left|].
  intros [Hm|(HC & HP & (p' & o' & Hin) & Hty)]%IH.
  - destruct s as [u| |]; simpl in Hm; [|by left..].
    destruct (bool_decide (u ∉ dom C)) eqn:HC; [|by left].
    destruct (bool_decide (u ∉ dom P)) eqn:HP; [|by left].
    simpl in Hm. apply bool_decide_eq_true in HC, HP.
    apply lookup_insert_Some in Hm as [[-> <-]|[_ ?]]; [right|by left].
    do 2 (split; [done|]). split; [|done]. exists p, o. apply list_elem_of_here.
  - right. do 2 (split; [done|]). split; [|done].
    exists p', o'. by apply list_elem_of_further.
Qed.

Lemma individuals_fold_dom (g l : list triple) (C : gmap string Tree.ClassInfo)
    (P : gmap string Tree.PropertyInfo) (m : gmap string Tree.IndividualInfo) uri p o :
  (URIRef uri, p, o) ∈ l → uri ∉ dom C → uri ∉ dom P →
  uri ∈ dom (foldl (Tree.add_individual g C P) m l).
Proof.
  intros Hin HC HP. revert m.
  assert (∀ l m, uri ∈ dom m → uri ∈ dom (foldl (Tree.add_individual g C P) m l)) as Hkeep.
  { clear Hin. intros l'. induction l' as [|[[s' p'] o'] l' IH]; intros m Hm; simpl; [done|].
    apply IH. destruct (is_URIRef s'); simpl; [|done].
    destruct (_ && _); [|done]. rewrite dom_insert_L. set_solver. }
  induction l as [|tr l IH]; intros m; [by apply elem_of_nil in Hin|].
  apply elem_of_cons in Hin as [<-|Hin]; simpl; [|by apply IH].
  apply Hkeep. rewrite !bool_decide_eq_true_2 by done. simpl.
  rewrite dom_insert_L. set_solver.
Qed.

(** X17. The three sections of the tree: a key of [classes] is a subject
    typed [owl:Class], a key of [properties] a subject typed by one of
    the four property types (in whatever order the set is visited), and
    the keys of [individuals] are exactly the typed URI references that
    are neither; so every typed URI reference is listed, and no
    individual repeats a class or a property.  An individual carries all
    the types of its subject. *)
Theorem tree_sections term_truthy (ptypes : list term) (g : list triple) :
  ptypes ≡ₚ Tree.prop_types →
  let t := Tree.extract_tree term_truthy ptypes g in
  (∀ uri, uri ∈ dom (Tree.classes t) ↔
          ∃ cls, (cls, RDF_type, OWL_Class) ∈ g ∧ str cls = uri) ∧
  (∀ uri, uri ∈ dom (Tree.properties t) ↔
          ∃ p ptype, ptype ∈ Tree.prop_types ∧ (p, RDF_type, ptype) ∈ g ∧ str p = uri) ∧
  (∀ uri, uri ∈ dom (Tree.individuals t) ↔
          (uri ∉ dom (Tree.classes t)) ∧ (uri ∉ dom (Tree.properties t)) ∧
          ∃ o, (URIRef uri, RDF_type, o) ∈ g) ∧
  (∀ uri info, Tree.individuals t !! uri = Some info →
               Tree.types info = str <$> objects g (URIRef uri) RDF_type).
Proof.
  intros Hperm t. unfold t, Tree.extract_tree. simpl.
  split; [|split; [|split]].
  - intros uri. rewrite dom_add_classes, elem_of_union, elem_of_list_to_set,
      list_elem_of_fmap.
    split.
    + intros [Hin|(cls & -> & Hcls%elem_of_subjects)]; [set_solver|eauto].
    + intros (cls & Hcls & <-). right. exists cls. split; [done|].
      by apply elem_of_subjects.
  - intros uri. rewrite dom_property_types. split.
    + intros [Hin|(p & pt & Hpt & Hp)]; [set_solver|].
      exists p, pt. by rewrite <-Hperm.
    + intros (p & pt & Hpt & Hp). right. exists p, pt. by rewrite Hperm.
  - intros uri. split.
    + intros [info Hinfo]%elem_of_dom.
      apply individuals_fold in Hinfo as [Hinfo|(HC & HP & (p & o & Hin) & _)];
        [by rewrite lookup_empty in Hinfo|].
      do 2 (split; [done|]).
      apply list_elem_of_filter in Hin as [Hp Hin]. simpl in Hp. subst p. eauto.
    + intros (HC & HP & o & Hin).
      eapply individuals_fold_dom; [|done|done].
      apply list_elem_of_filter. split; [reflexivity|exact Hin].
  - intros uri info Hinfo.
    apply individuals_fold in Hinfo as [Hinfo|(_ & _ & _ & Hty)]; [|done].
    by rewrite lookup_empty in Hinfo.
Qed.

Lemma tree_sections_witness :
  "http://a.org/x" ∈
    dom (Tree.individuals
           (Tree.extract_tree (λ _, true) Tree.prop_types
              [(URIRef "http://a.org/x", RDF_type, URIRef "http://a.org/Kind")])).
Proof.
  apply (proj1 (proj2 (proj2
           (tree_sections (λ _, true) Tree.prop_types
              [(URIRef "http://a.org/x", RDF_type, URIRef "http://a.org/Kind")]
              (reflexivity _)))) "http://a.org/x").
  split; [vm_compute; set_solver|].
  split; [vm_compute; set_solver|].
  exists (URIRef "http://a.org/Kind"). apply list_elem_of_here.
Defined.

(** ** Declared prefixes and derived identifiers *)

Section PrefixFacts.

Lemma use_prefix_keeps a m b k v :
  m !! k = Some v → use_prefix a m b !! k = Some v.
Proof.
  intros Hk. unfold use_prefix. destruct b as [prefix ns].
  destruct (normalize_ns (Some ns)) as [ns_str|]; [|done].
  destruct (truthy (Some ns_str) && bool_decide (ns_str ∈ dom (namespaces a))); simpl;
    [|done].
  case_bool_decide as Hin; simpl; [done|].
  rewrite lookup_insert_ne; [done|]. intros ->. apply Hin, elem_of_dom. eauto.
Qed.

Lemma use_prefix_fold_keeps a bs m k v :
  m !! k = Some v → foldl (use_prefix a) m bs !! k = Some v.
Proof.
  revert m. induction bs as [|b bs IH]; intros m Hk; simpl; [done|].
  by apply IH, use_prefix_keeps.
Qed.

Lemma use_prefix_other a m b k :
  normalize_ns (Some b.2) ≠ Some k → m !! k = None → use_prefix a m b !! k = None.
Proof.
  intros Hb Hk. unfold use_prefix. destruct b as [prefix ns].
  change (normalize_ns (Some ns) ≠ Some k) in Hb.
  destruct (normalize_ns (Some ns)) as [ns_str|]; [|done].
  destruct (truthy (Some ns_str) && bool_decide (ns_str ∈ dom (namespaces a))
            && negb (bool_decide (ns_str ∈ dom m))); [|done].
  rewrite lookup_insert_ne; [done|]. intros ->. by apply Hb.
Qed.

Lemma use_prefix_fold_other a bs m k :
  (∀ b, b ∈ bs → normalize_ns (Some b.2) ≠ Some k) →
  m !! k = None → foldl (use_prefix a) m bs !! k = None.
Proof.
  revert m. induction bs as [|b bs IH]; intros m Hbs Hk; simpl; [done|].
  apply IH.
  - intros b' Hb'. apply Hbs. by apply list_elem_of_further.
  - apply use_prefix_other; [|done]. apply Hbs, list_elem_of_here.
Qed.

Lemma char_in_last_segment_self c s : Str.char_in c (Str.last_segment c s) = false.
Proof.
  induction s as [|d s IH]; simpl; [done|].
  destruct (Str.char_in c s) eqn:Hs; [done|].
  destruct (Ascii.eqb_spec d c) as [->|Hne]; [done|].
  simpl. rewrite (proj2 (Ascii.eqb_neq c d)); [done|]. by intros ->.
Qed.

Lemma char_in_last_segment_other c sep s :
  Str.char_in c s = false → Str.char_in c (Str.last_segment sep s) = false.
Proof.
  induction s as [|d s IH]; simpl; [done|].
  destruct (Ascii.eqb c d) eqn:Hcd; [done|]. intros Hs.
  destruct (Str.char_in sep s); [by apply IH|].
  destruct (Ascii.eqb d sep); [done|]. simpl. by rewrite Hcd.
Qed.

Lemma char_in_lower c s :
  plain c → Str.char_in c s = false → Str.char_in c (Str.lower s) = false.
Proof.
  intros [Hc Hinj]. induction s as [|d s IH]; simpl; [done|].
  destruct (Ascii.eqb_spec c d) as [->|Hcd]; [done|]. intros Hs.
  rewrite (proj2 (Ascii.eqb_neq c (Str.lower_ascii d))); [by apply IH|].
  intros Heq. apply Hcd. symmetry. by apply Hinj.
Qed.

Lemma lower_replace_to a b s :
  plain a → Str.lower_ascii b = b →
  Str.lower (Str.replace a b s) = Str.replace a b (Str.lower s).
Proof.
  intros [Ha Hinj] Hb. induction s as [|c s IH]; simpl; [done|].
  rewrite IH, (eqb_lower_ascii c a) by done.
  destruct (Ascii.eqb c a); [by rewrite Hb|done].
Qed.

Lemma plain_punctuation a : a ∈ ["/"; "#"; "-"; "."]%char → plain a.
Proof.
  intros Ha. repeat (apply elem_of_cons in Ha as [->|Ha]);
    [..|by apply elem_of_nil in Ha];
    (split; [done|]); intros [[] [] [] [] [] [] [] []]; by intros [=].
Qed.

Lemma derive_short_id_clean ns c :
  c ∈ ["/"; "#"; "-"; "."]%char → Str.char_in c (derive_short_id ns) = false.
Proof.
  unfold derive_short_id. intros Hc.
  pose proof (plain_punctuation c Hc) as Hplain.
  repeat (apply elem_of_cons in Hc as [->|Hc]); [..|by apply elem_of_nil in Hc].
  - do 2 (apply char_in_replace_other; [done|]). apply char_in_lower; [done|].
    apply char_in_last_segment_other, char_in_last_segment_self.
  - do 2 (apply char_in_replace_other; [done|]). apply char_in_lower; [done|].
    apply char_in_last_segment_self.
  - apply char_in_replace_other; [done|]. by apply char_in_replace_self.
  - by apply char_in_replace_self.
Qed.

Lemma derive_short_id_lower ns : Str.lower (derive_short_id ns) = derive_short_id ns.
Proof.
  unfold derive_short_id.
  rewrite !lower_replace_to, lower_idem;
    try done; apply plain_punctuation; set_solver.
Qed.

End PrefixFacts.

(** X18. A declared prefix has priority over the derived identifier, and
    the first declaration wins: a namespace with a statistics entry gets
    the prefix of the first binding of the namespace manager that
    normalizes to it, whatever is bound to it later and whatever its last
    segment is. *)
Theorem declared_prefix_wins a merged_graph pre prefix raw post ns :
  graph_prefixes merged_graph = (pre ++ (prefix, raw) :: post)%list →
  normalize_ns (Some raw) = Some ns →
  ns ∈ dom (namespaces a) →
  (∀ b, b ∈ pre → normalize_ns (Some b.2) ≠ Some ns) →
  _build_id_map a merged_graph !! ns = Some prefix.
Proof.
  intros Hbind Hraw Hns Hpre. unfold _build_id_map.
  apply fallback_fold_keeps. rewrite Hbind, foldl_app. cbn [foldl].
  apply use_prefix_fold_keeps.
  pose proof (use_prefix_fold_other a pre ∅ ns Hpre (lookup_empty _)) as Hfresh.
  unfold use_prefix at 1. rewrite Hraw.
  apply normalize_ns_Some in Hraw as [Hne _].
  assert (truthy (Some ns) = true) as -> by (by destruct ns).
  rewrite bool_decide_eq_true_2 by done.
  rewrite bool_decide_eq_false_2 by (by apply not_elem_of_dom).
  simpl. apply lookup_insert_eq.
Qed.

Lemma declared_prefix_wins_witness :
  _build_id_map (stats_only ["http://a.org/onto"; "http://b.org/onto"])
    (mkGraph [] [("x", "http://x.org/"); ("b", "http://b.org/onto#");
                 ("other", "http://b.org/onto/")])
    !! "http://b.org/onto" = Some "b".
Proof.
  apply (declared_prefix_wins
           (stats_only ["http://a.org/onto"; "http://b.org/onto"])
           (mkGraph [] [("x", "http://x.org/"); ("b", "http://b.org/onto#");
                        ("other", "http://b.org/onto/")])
           [("x", "http://x.org/")] "b" "http://b.org/onto#"
           [("other", "http://b.org/onto/")]).
  - reflexivity.
  - reflexivity.
  - vm_compute. set_solver.
  - intros b [->|Hb%elem_of_nil]%elem_of_cons; [|done]. vm_compute. discriminate.
Defined.

(** X19. [_make_short_id] never returns the empty string; what it returns
    is either the numbered fallback or the derived identifier, which
    contains no ['/'], ['#'], ['-'] or ['.'] and no upper-case ASCII
    letter. *)
Theorem make_short_id_shape (ns : string) (fallback_index : Z) :
  _make_short_id ns fallback_index ≠ "" ∧
  (_make_short_id ns fallback_index = ns_name fallback_index ∨
   (_make_short_id ns fallback_index = derive_short_id ns ∧
    (∀ c, c ∈ ["/"; "#"; "-"; "."]%char →
          Str.char_in c (_make_short_id ns fallback_index) = false) ∧
    Str.lower (_make_short_id ns fallback_index) = _make_short_id ns fallback_index)).
Proof.
  rewrite make_short_id_derive.
  destruct (derive_short_id ns) as [|c0 r] eqn:Hd.
  - split; [done|]. by left.
  - split; [done|]. right. split; [done|]. rewrite <-Hd.
    split; [intros c; apply derive_short_id_clean|apply derive_short_id_lower].
Qed.

(** ** Counters of the statistics store *)

Section StoreFacts.

Lemma ensure_ns_cases a raw :
  ∃ k, (_ensure_ns a raw = (a, k) ∧ k ∈ dom (namespaces a)) ∨
       (_ensure_ns a raw
        = (mkAnalyzer (<[k := OntologyStats.init k]> (namespaces a))
                      (references a) (imports a), k)
        ∧ k ∉ dom (namespaces a)).
Proof.
  unfold _ensure_ns.
  set (ns := match normalize_ns match raw with Some _ => raw | None => Some "unknown" end
             with Some (String c r) => String c r | _ => "unknown" end).
  exists ns. destruct (decide (ns ∈ dom (namespaces a))); [by left|by right].
Qed.

Lemma alter_as_insert {V} (f : V → V) (m : gmap string V) k x :
  m !! k = Some x → alter f k m = <[k := f x]> m.
Proof.
  intros Hk. apply map_eq. intros j. destruct (decide (k = j)) as [<-|Hne].
  - by rewrite lookup_alter_eq, lookup_insert_eq, Hk.
  - by rewrite lookup_alter_ne, lookup_insert_ne.
Qed.

Lemma stats_kept_refl st : stats_kept st st.
Proof. by repeat split. Qed.

Lemma stats_kept_trans st1 st2 st3 :
  stats_kept st1 st2 → stats_kept st2 st3 → stats_kept st1 st3.
Proof.
  intros (N1 & F1 & T1 & C1 & P1 & I1 & L1 & D1) (N2 & F2 & T2 & C2 & P2 & I2 & L2 & D2).
  repeat split; try congruence.
  - intros H. rewrite L2, L1; [done|done|]. by rewrite L1.
  - intros H. rewrite D2, D1; [done|done|]. by rewrite D1.
Qed.

Lemma ensure_ns_lookup a raw ns st :
  namespaces a !! ns = Some st → namespaces (_ensure_ns a raw).1 !! ns = Some st.
Proof.
  intros Hns. destruct (ensure_ns_cases a raw) as (k & [[-> _]|[-> Hk]]); [done|].
  simpl. rewrite lookup_insert_ne; [done|]. intros ->. apply Hk, elem_of_dom. eauto.
Qed.

Lemma update_stats_kept f k a ns st :
  (∀ st, stats_kept st (f st)) →
  namespaces a !! ns = Some st →
  ∃ st', namespaces (update_stats f k a) !! ns = Some st' ∧ stats_kept st st'.
Proof.
  intros Hf Hns. simpl. destruct (decide (k = ns)) as [->|Hne].
  - rewrite lookup_alter_eq, Hns. simpl. eauto.
  - rewrite lookup_alter_ne by done. eauto using stats_kept_refl.
Qed.

Lemma keep_label_kept l st :
  stats_kept st (if truthy (OntologyStats.label st) then st
                 else OntologyStats.set_label l st).
Proof.
  destruct (truthy (OntologyStats.label st)) eqn:E; [apply stats_kept_refl|].
  repeat split; try done. intros H. congruence.
Qed.

Lemma keep_description_kept d st :
  stats_kept st (if truthy (OntologyStats.description st) then st
                 else OntologyStats.set_description d st).
Proof.
  destruct (truthy (OntologyStats.description st)) eqn:E; [apply stats_kept_refl|].
  repeat split; try done. intros H. congruence.
Qed.

End StoreFacts.

Section DescriptionFacts.

Variable split_uri : string → option (string * string).

Lemma attach_description_kept merged a onto ns st :
  namespaces a !! ns = Some st →
  ∃ st', namespaces (attach_description split_uri merged a onto) !! ns = Some st'
         ∧ stats_kept st st'.
Proof.
  intros Hns. unfold attach_description.
  destruct (is_URIRef onto); simpl; [|eauto using stats_kept_refl].
  pose proof (ensure_ns_lookup a (_get_namespace split_uri onto) ns st Hns) as H1.
  destruct (_ensure_ns a (_get_namespace split_uri onto)) as [a1 k]. simpl in H1.
  set (a2 := match first_nonempty _ _ _ with
             | [] => a1
             | l0 :: _ => update_stats _ k a1
             end).
  assert (∃ st2, namespaces a2 !! ns = Some st2 ∧ stats_kept st st2)
    as (st2 & H2 & K2).
  { subst a2. destruct (first_nonempty _ _ _) as [|l0 ?]; [eauto using stats_kept_refl|].
    apply update_stats_kept; [|done]. intros st0. apply keep_label_kept. }
  clearbody a2.
  destruct (first_nonempty _ _ _) as [|d0 ?]; [eauto|].
  destruct (update_stats_kept
              (λ st0, if truthy (OntologyStats.description st0) then st0
                      else OntologyStats.set_description (str d0) st0) k a2 ns st2)
    as (st3 & H3 & K3); [intros st0; apply keep_description_kept|done|].
  exists st3. split; [done|]. by eapply stats_kept_trans.
Qed.

End DescriptionFacts.

(** X20. [attach_descriptions_from_graph] keeps every statistics entry:
    its namespace, files and four counters are unchanged, and a label or
    description that was already set is not overwritten. *)
Theorem descriptions_keep_entries split_uri a merged_graph ns st :
  namespaces a !! ns = Some st →
  ∃ st', namespaces (attach_descriptions_from_graph split_uri a merged_graph) !! ns
         = Some st' ∧ stats_kept st st'.
Proof.
  unfold attach_descriptions_from_graph.
  generalize (subjects (graph_triples merged_graph) RDF_type OWL_Ontology).
  intros l. revert a st. induction l as [|onto l IH]; intros a st Hns; simpl.
  - eauto using stats_kept_refl.
  - destruct (attach_description_kept split_uri (graph_triples merged_graph) a onto ns st Hns)
      as (st1 & H1 & K1).
    destruct (IH _ _ H1) as (st2 & H2 & K2).
    exists st2. split; [done|]. by eapply stats_kept_trans.
Qed.

Lemma descriptions_keep_entries_witness :
  ∃ st st',
    namespaces (build_result_document sample_split_uri
                  (final_analyzer sample_split_uri described_corpus) first_header).1
      !! "http://a.org/one" = Some st ∧
    OntologyStats.triples st = 2 ∧
    OntologyStats.label st = Some "First" ∧
    namespaces (attach_descriptions_from_graph sample_split_uri
                  (build_result_document sample_split_uri
                     (final_analyzer sample_split_uri described_corpus) first_header).1
                  second_header)
      !! "http://a.org/one" = Some st' ∧
    stats_kept st st' ∧
    OntologyStats.label st' = Some "First" ∧
    OntologyStats.description st' = Some "About one".
Proof.
  assert (∃ st, namespaces (build_result_document sample_split_uri
                              (final_analyzer sample_split_uri described_corpus)
                              first_header).1
                  !! "http://a.org/one" = Some st) as [st Hst]
    by (eexists; vm_compute; reflexivity).
  destruct (descriptions_keep_entries sample_split_uri _ second_header _ _ Hst)
    as (st' & Hst' & Hkept).
  exists st, st'.
  vm_compute in Hst. injection Hst as <-.
  split; [vm_compute; reflexivity|]. split; [reflexivity|]. split; [reflexivity|].
  split; [exact Hst'|]. split; [exact Hkept|].
  vm_compute in Hst'. injection Hst' as <-. split; reflexivity.
Defined.

(** ** Conservation of the counters *)

Section TallyFacts.

Variable split_uri : string → option (string * string).

(** A counter [h] that starts at zero, grows by [d1] with every counted
    triple and by [d2] with every classified one. *)
Variable h : OntologyStats.t → Z.
Variables d1 d2 : Z.
Hypothesis h_init : ∀ ns, h (OntologyStats.init ns) = 0.
Hypothesis h_add_file : ∀ f st, h (OntologyStats.add_file f st) = h st.
Hypothesis h_triples : ∀ st, h (OntologyStats.incr_triples st) = h st + d1.
Hypothesis h_classes : ∀ st, h (OntologyStats.incr_classes st) = h st + d2.
Hypothesis h_properties : ∀ st, h (OntologyStats.incr_properties st) = h st + d2.
Hypothesis h_individuals : ∀ st, h (OntologyStats.incr_individuals st) = h st + d2.
Hypothesis h_label : ∀ l st, h (OntologyStats.set_label l st) = h st.
Hypothesis h_description : ∀ d st, h (OntologyStats.set_description d st) = h st.

Lemma tally_ensure a raw : tally h (_ensure_ns a raw).1 = tally h a.
Proof.
  destruct (ensure_ns_cases a raw) as (k & [[-> _]|[-> Hk]]); [done|].
  unfold tally. simpl. rewrite msum_insert by (by apply not_elem_of_dom).
  rewrite h_init. lia.
Qed.

Lemma ensure_ns_key a raw : (_ensure_ns a raw).2 ∈ dom (namespaces (_ensure_ns a raw).1).
Proof.
  destruct (ensure_ns_cases a raw) as (k & [[-> Hk]|[-> Hk]]); [done|].
  simpl. rewrite dom_insert_L. set_solver.
Qed.

Lemma tally_update f k a d :
  k ∈ dom (namespaces a) → (∀ st, h (f st) = h st + d) →
  tally h (update_stats f k a) = tally h a + d.
Proof.
  intros [st Hst]%elem_of_dom Hf. unfold tally. simpl.
  rewrite (alter_as_insert f _ k st Hst), (msum_insert_Some _ _ k (f st) st Hst), Hf. lia.
Qed.

Lemma tally_ensure_update f a raw d :
  (∀ st, h (f st) = h st + d) →
  tally h (let '(a1, k) := _ensure_ns a raw in update_stats f k a1) = tally h a + d.
Proof.
  intros Hf. pose proof (tally_ensure a raw) as He.
  pose proof (ensure_ns_key a raw) as Hk.
  destruct (_ensure_ns a raw) as [a1 k]. simpl in *.
  by rewrite (tally_update f k a1 d Hk Hf), He.
Qed.

Lemma tally_register_reference a s d w :
  tally h (_register_reference a s d w) = tally h a.
Proof.
  rewrite register_reference_eq.
  by destruct (cross (normalize_ns s) (normalize_ns d)) as [|[??] ?].
Qed.

Lemma tally_register_import a s d : tally h (_register_import a s d) = tally h a.
Proof.
  rewrite register_import_eq.
  by destruct (cross (normalize_ns s) (normalize_ns d)) as [|[??] ?].
Qed.

Lemma tally_count_subject file_str a s :
  tally h (count_subject split_uri file_str a s)
  = tally h a
    + (if is_URIRef s && truthy (_get_namespace split_uri s) then d1 else 0).
Proof.
  unfold count_subject. destruct (is_URIRef s); simpl; [|lia].
  destruct (truthy (_get_namespace split_uri s)); [|lia].
  apply tally_ensure_update. intros st. by rewrite h_triples, h_add_file.
Qed.

Lemma tally_classify_subject a s p o :
  tally h (classify_subject split_uri a s p o)
  = tally h a
    + (if bool_decide (p = RDF_type) && is_URIRef s && is_URIRef o
          && truthy (_get_namespace split_uri s) then d2 else 0).
Proof.
  unfold classify_subject.
  destruct (bool_decide (p = RDF_type) && is_URIRef s && is_URIRef o); simpl; [|lia].
  destruct (truthy (_get_namespace split_uri s)); [|lia].
  pose proof (tally_ensure a (_get_namespace split_uri s)) as He.
  pose proof (ensure_ns_key a (_get_namespace split_uri s)) as Hk.
  destruct (_ensure_ns a (_get_namespace split_uri s)) as [a1 k]. simpl in *.
  destruct (bool_decide (o ∈ CLASS_TYPES)); [|destruct (bool_decide (o ∈ PROPERTY_TYPES))];
    rewrite (tally_update _ k a1 d2 Hk) by done; lia.
Qed.

Lemma tally_dependencies a s p o :
  tally h (_process_dependencies_for_triple split_uri a s p o) = tally h a.
Proof.
  unfold _process_dependencies_for_triple.
  repeat (match goal with
          | |- context [if ?b then _ else _] => destruct b
          end; rewrite ?tally_register_reference); done.
Qed.

Lemma tally_process_triple file_str a t :
  tally h (process_triple split_uri file_str a t)
  = tally h a + (if attributable split_uri t then d1 else 0)
    + (if classified split_uri t then d2 else 0).
Proof.
  destruct t as [[s p] o]. unfold process_triple, attributable, classified. simpl.
  by rewrite tally_dependencies, tally_classify_subject, tally_count_subject.
Qed.

Lemma tally_triples file_str g a :
  tally h (foldl (process_triple split_uri file_str) a g)
  = tally h a + d1 * count_triples (attributable split_uri) g
    + d2 * count_triples (classified split_uri) g.
Proof.
  revert a. induction g as [|t g IH]; intros a; simpl; [lia|].
  rewrite IH, tally_process_triple.
  destruct (attributable split_uri t), (classified split_uri t); lia.
Qed.

Lemma tally_process_import onto_ns a imported :
  tally h (process_import split_uri onto_ns a imported) = tally h a.
Proof.
  unfold process_import. destruct (is_URIRef imported); [|done].
  pose proof (tally_ensure a (_get_namespace split_uri imported)) as He.
  destruct (_ensure_ns a (_get_namespace split_uri imported)) as [a1 k]. simpl in *.
  by rewrite tally_register_import.
Qed.

Lemma tally_foldl {X} (step : OntologyAnalyzer → X → OntologyAnalyzer) l a :
  (∀ a x, tally h (step a x) = tally h a) → tally h (foldl step a l) = tally h a.
Proof.
  intros Hstep. revert a. induction l as [|x l IH]; intros a; simpl; [done|].
  by rewrite IH, Hstep.
Qed.

Lemma tally_process_ontology file_str g a onto :
  tally h (process_ontology split_uri file_str g a onto) = tally h a.
Proof.
  unfold process_ontology. destruct (is_URIRef onto); simpl; [|done].
  pose proof (tally_ensure a (_get_namespace split_uri onto)) as He.
  pose proof (ensure_ns_key a (_get_namespace split_uri onto)) as Hk.
  destruct (_ensure_ns a (_get_namespace split_uri onto)) as [a1 k]. simpl in *.
  rewrite tally_foldl by (intros; apply tally_process_import).
  rewrite (tally_update _ k a1 0 Hk); [lia|]. intros st. rewrite h_add_file. lia.
Qed.

Lemma tally_process_rdf_graph a file_path g :
  tally h (process_rdf_graph split_uri a file_path g)
  = tally h a + d1 * count_triples (attributable split_uri) g
    + d2 * count_triples (classified split_uri) g.
Proof.
  unfold process_rdf_graph.
  rewrite tally_foldl by (intros; apply tally_process_ontology).
  apply tally_triples.
Qed.

Lemma tally_process_xsd a file_path parsed :
  tally h (process_xsd a file_path parsed) = tally h a.
Proof.
  destruct parsed as [root|]; simpl; [|done].
  pose proof (tally_ensure a (Some (xsd_source file_path root))) as He.
  pose proof (ensure_ns_key a (Some (xsd_source file_path root))) as Hk.
  destruct (_ensure_ns a (Some (xsd_source file_path root))) as [a1 k]. simpl in *.
  rewrite tally_foldl.
  - rewrite (tally_update _ k a1 0 Hk); [lia|]. intros st. rewrite h_add_file. lia.
  - intros a' ns. unfold process_xsd_import.
    destruct (truthy (normalize_ns ns)); [|done].
    pose proof (tally_ensure a' (normalize_ns ns)) as He'.
    destruct (_ensure_ns a' (normalize_ns ns)) as [a2 k2]. simpl in *.
    by rewrite tally_register_import.
Qed.

Lemma tally_process_file st f :
  tally h (process_file split_uri st f).1.2
  = tally h st.1.2 + d1 * count_triples (attributable split_uri) (file_triples f)
    + d2 * count_triples (classified split_uri) (file_triples f).
Proof.
  destruct st as [[merged a] metadata_by_file].
  unfold process_file, file_triples.
  destruct (file_content f) as [parsed|[g|]]; simpl.
  - rewrite tally_process_xsd. lia.
  - destruct g as [|t g]; [simpl; lia|]. apply tally_process_rdf_graph.
  - lia.
Qed.

Lemma count_triples_app P (l1 l2 : list triple) :
  count_triples P (l1 ++ l2) = count_triples P l1 + count_triples P l2.
Proof. induction l1 as [|t l1 IH]; simpl; [done|]. rewrite IH. lia. Qed.

Lemma tally_run_from st files :
  tally h (foldl (process_file split_uri) st files).1.2
  = tally h st.1.2 + d1 * count_triples (attributable split_uri) (corpus_triples files)
    + d2 * count_triples (classified split_uri) (corpus_triples files).
Proof.
  revert st. induction files as [|f files IH]; intros st; simpl; [lia|].
  rewrite IH, tally_process_file. unfold corpus_triples. simpl.
  rewrite !count_triples_app. lia.
Qed.

Lemma tally_attach_description merged a onto :
  tally h (attach_description split_uri merged a onto) = tally h a.
Proof.
  unfold attach_description. destruct (is_URIRef onto); simpl; [|done].
  pose proof (tally_ensure a (_get_namespace split_uri onto)) as He.
  pose proof (ensure_ns_key a (_get_namespace split_uri onto)) as Hk.
  destruct (_ensure_ns a (_get_namespace split_uri onto)) as [a1 k]. simpl in *.
  set (a2 := match first_nonempty _ _ _ with
             | [] => a1
             | l0 :: _ => update_stats _ k a1
             end).
  assert (tally h a2 = tally h a ∧ k ∈ dom (namespaces a2)) as [H2 Hk2].
  { subst a2. destruct (first_nonempty _ _ _) as [|l0 ?]; [done|].
    split; [|by simpl; rewrite dom_alter_L].
    rewrite (tally_update _ k a1 0 Hk); [lia|].
    intros st. destruct (truthy _); rewrite ?h_label; lia. }
  clearbody a2.
  destruct (first_nonempty _ _ _) as [|d0 ?]; [done|].
  rewrite (tally_update _ k a2 0 Hk2); [lia|].
  intros st. destruct (truthy _); rewrite ?h_description; lia.
Qed.

Lemma tally_attach_descriptions a merged_graph :
  tally h (attach_descriptions_from_graph split_uri a merged_graph) = tally h a.
Proof.
  unfold attach_descriptions_from_graph.
  apply tally_foldl. intros. apply tally_attach_description.
Qed.

Lemma tally_final files :
  tally h (final_analyzer split_uri files)
  = d1 * count_triples (attributable split_uri) (corpus_triples files)
    + d2 * count_triples (classified split_uri) (corpus_triples files).
Proof.
  unfold final_analyzer, run_files. rewrite tally_run_from.
  unfold tally. simpl. rewrite msum_empty. lia.
Qed.

(** The same sum read off the node list. *)
Lemma node_total_tally (hn : Node.t → Z) a id_map incoming outgoing :
  (∀ item, hn (make_node a id_map incoming outgoing item) = h item.2) →
  node_total hn (make_node a id_map incoming outgoing <$> sorted_items (namespaces a))
  = tally h a.
Proof.
  intros Hn. unfold node_total, tally. rewrite msum_values.
  assert (∀ l : list (string * OntologyStats.t),
            foldr (λ n acc, hn n + acc) 0 (make_node a id_map incoming outgoing <$> l)
            = foldr (λ v acc, h v + acc) 0 l.*2) as ->.
  { intros l. induction l as [|x l IH]; [done|].
    rewrite !fmap_cons. cbn [foldr]. by rewrite IH, Hn. }
  apply (foldr_permutation_proper (=)); [solve_proper|intros; lia|].
  by rewrite sorted_items_perm.
Qed.

Lemma node_total_built (hn : Node.t → Z) files merged_graph :
  (∀ a id_map incoming outgoing item,
     hn (make_node a id_map incoming outgoing item) = h item.2) →
  node_total hn (graph_nodes (build_result_document split_uri
                                (final_analyzer split_uri files) merged_graph).2)
  = d1 * count_triples (attributable split_uri) (corpus_triples files)
    + d2 * count_triples (classified split_uri) (corpus_triples files).
Proof.
  intros Hn.
  destruct (build_result_document_fields split_uri
              (final_analyzer split_uri files) merged_graph) as (Ha & -> & _).
  rewrite node_total_tally by (intros; apply Hn).
  by rewrite Ha, tally_attach_descriptions, tally_final.
Qed.

End TallyFacts.

(** X21. The counters are conserved over a run: in the document, the
    [triples] of all nodes add up to the number of triples of the corpus
    whose subject is a URI reference that resolves to a namespace, and
    the [classes], [properties] and [individuals] of all nodes add up to
    the number of those triples that are [rdf:type] statements with a URI
    reference as object.  Schemas and descriptions add nothing. *)
Theorem counters_conserved split_uri files merged_graph :
  let doc := (build_result_document split_uri
                (final_analyzer split_uri files) merged_graph).2 in
  node_total Node.triples (graph_nodes doc)
  = count_triples (attributable split_uri) (corpus_triples files) ∧
  node_total (λ n, Node.classes n + Node.properties n + Node.individuals n)
             (graph_nodes doc)
  = count_triples (classified split_uri) (corpus_triples files).
Proof.
  intros doc. unfold doc. split.
  - rewrite (node_total_built split_uri OntologyStats.triples 1 0); simpl; try done;
      try lia; try (intros; lia).
    by intros a id_map incoming outgoing [ns st].
  - rewrite (node_total_built split_uri
               (λ st, OntologyStats.classes st + OntologyStats.properties st
                      + OntologyStats.individuals st) 0 1); simpl; try done;
      try lia; try (intros; lia).
    by intros a id_map incoming outgoing [ns st].
Qed.
